(** * Reconciliation core of the monitoring-stack operator

    A shallow embedding of the Grafana-operator reconciler
    (package [grafana_operator]: [Reconcile], its six steps and the
    result constructors) and of [computeConfigMapHash] (package
    [uiplugin]), together with the properties the specification states
    about them.

    Conventions.  A Go [error] is [option StatusError], [nil] being
    [None].  [time.Duration] is a count of nanoseconds in [Z].  A method
    of [*reconciler] is a computation in the monad [M]: it threads the
    [World] (the reconciler's own field, the remote store, the
    controller's watches) and may end in a Go run-time panic. *)

From Stdlib Require Import ZArith Lia Ascii.
From Stdlib Require DecimalString.
From stdpp Require Import base decidable option list gmap strings sorting.

Local Open Scope Z_scope.

(** ** Errors of the remote store (k8s.io/apimachinery/pkg/api/errors) *)

(** Modelled from the spec: the remote store is an external collaborator
    whose errors carry a reason; AlreadyExists, Conflict and NotFound are
    the distinguishable ones (spec, section 6). *)
Inductive StatusReason : Set :=
| StatusReasonUnknown
| StatusReasonNotFound
| StatusReasonAlreadyExists
| StatusReasonConflict
| StatusReasonForbidden
| StatusReasonInternalError.

#[global] Instance StatusReason_eq_dec : EqDecision StatusReason.
Proof. solve_decision. Defined.

Record StatusError : Set := mkStatusError {
  Reason : StatusReason;
  Message : string
}.

#[global] Instance StatusError_eq_dec : EqDecision StatusError.
Proof. solve_decision. Defined.

(** Go's [error]; [nil] is [None]. *)
Definition error : Set := option StatusError.

Definition ReasonForError (err : error) : StatusReason :=
  match err with
  | Some e => Reason e
  | None => StatusReasonUnknown
  end.

Definition IsNotFound (err : error) : bool :=
  bool_decide (ReasonForError err = StatusReasonNotFound).
Definition IsAlreadyExists (err : error) : bool :=
  bool_decide (ReasonForError err = StatusReasonAlreadyExists).
Definition IsConflict (err : error) : bool :=
  bool_decide (ReasonForError err = StatusReasonConflict).

(** ** Reconcile results *)

(** [time.Duration]: nanoseconds. *)
Definition Duration : Set := Z.
Definition Second : Duration := 1000000000.

(** [ctrl.Result] *)
Record ctrl_Result : Set := mkResult {
  Requeue : bool;
  RequeueAfter : Duration
}.
#[global] Instance ctrl_Result_eq_dec : EqDecision ctrl_Result.
Proof. solve_decision. Defined.

Record reconcileResult : Set := mkReconcileResult {
  Result : ctrl_Result;
  err : error;
  stop : bool
}.
#[global] Instance reconcileResult_eq_dec : EqDecision reconcileResult.
Proof. solve_decision. Defined.

(** The zero value [ctrl.Result{}] and the zero value [reconcileResult{}]. *)
Definition zeroResult : ctrl_Result :=
  {| Requeue := false; RequeueAfter := 0 |}.
Definition zeroReconcileResult : reconcileResult :=
  {| Result := zeroResult; err := None; stop := false |}.

(** [end] (a keyword of Rocq, hence the underscore): terminates the
    current loop and does not requeue. *)
Definition end_ : reconcileResult :=
  {| Result := zeroResult; err := None; stop := true |}.

Definition next : reconcileResult :=
  {| Result := zeroResult; err := None; stop := false |}.

Definition requeue (d : Duration) (e : error) : reconcileResult :=
  let res := {| Requeue := false; RequeueAfter := d |} in
  let res := if Z.eqb d 0
             then {| Requeue := true; RequeueAfter := RequeueAfter res |}
             else res in
  {| Result := res; err := e; stop := true |}.

Definition reconcileError (e : error) : reconcileResult :=
  {| Result := zeroResult; err := e; stop := true |}.

Definition creationResult (e : error) : reconcileResult :=
  match e with
  | None => end_
  | Some _ =>
      if IsAlreadyExists e then next
      else reconcileError e
  end.

Definition updationResult (e : error) : reconcileResult :=
  match e with
  | None => next
  | Some _ =>
      if IsConflict e then requeue (2 * Second) None
      else reconcileError e
  end.

(** ** Objects of the remote store

    One module per Go package the reconciler takes its object types
    from.  Only the fields the reconciler reads or writes are kept; an
    embedded [TypeMeta]/[ObjectMeta] is an ordinary field. *)

Module metav1.
Record TypeMeta : Type := mkTypeMeta {
  APIVersion : string;
  Kind : string
}.
#[global] Instance TypeMeta_eq_dec : EqDecision TypeMeta.
Proof. solve_decision. Defined.

Record ObjectMeta : Type := mkObjectMeta {
  Name : string;
  Namespace : string;
  Labels : gmap string string
}.
#[global] Instance ObjectMeta_eq_dec : EqDecision ObjectMeta.
Proof. solve_decision. Defined.

Record LabelSelector : Type := mkLabelSelector {
  MatchLabels : gmap string string
}.
#[global] Instance LabelSelector_eq_dec : EqDecision LabelSelector.
Proof. solve_decision. Defined.

Definition zeroTypeMeta : TypeMeta := {| APIVersion := ""; Kind := "" |}.
Definition zeroObjectMeta : ObjectMeta :=
  {| Name := ""; Namespace := ""; Labels := ∅ |}.
End metav1.

(** [types.NamespacedName]: the pair (namespace, name). *)
Abbreviation NamespacedName := (string * string)%type (only parsing).

Definition keyOf (m : metav1.ObjectMeta) : NamespacedName :=
  (metav1.Namespace m, metav1.Name m).

Module corev1.
Inductive NamespacePhase : Set :=
| NamespacePhaseUnset      (* the zero value, the empty string *)
| NamespaceActive
| NamespaceTerminating.
#[global] Instance NamespacePhase_eq_dec : EqDecision NamespacePhase.
Proof. solve_decision. Defined.

Record Namespace : Type := mkNamespace {
  ns_TypeMeta : metav1.TypeMeta;
  ns_ObjectMeta : metav1.ObjectMeta;
  ns_Phase : NamespacePhase           (* Status.Phase *)
}.
#[global] Instance Namespace_eq_dec : EqDecision Namespace.
Proof. solve_decision. Defined.

Record EnvVar : Type := mkEnvVar { ev_Name : string; ev_Value : string }.
#[global] Instance EnvVar_eq_dec : EqDecision EnvVar.
Proof. solve_decision. Defined.
End corev1.

Module operatorsv1.
Record OperatorGroupSpec : Type := mkOperatorGroupSpec {
  TargetNamespaces : list string;
  ServiceAccountName : string;
  StaticProvidedAPIs : bool
}.
#[global] Instance OperatorGroupSpec_eq_dec : EqDecision OperatorGroupSpec.
Proof. solve_decision. Defined.

Record OperatorGroup : Type := mkOperatorGroup {
  og_TypeMeta : metav1.TypeMeta;
  og_ObjectMeta : metav1.ObjectMeta;
  og_Spec : OperatorGroupSpec
}.
#[global] Instance OperatorGroup_eq_dec : EqDecision OperatorGroup.
Proof. solve_decision. Defined.
End operatorsv1.

Module v1alpha1.
Inductive Approval : Set := ApprovalUnset | ApprovalAutomatic | ApprovalManual.
#[global] Instance Approval_eq_dec : EqDecision Approval.
Proof. solve_decision. Defined.

Record SubscriptionConfig : Type := mkSubscriptionConfig {
  Env : list corev1.EnvVar
}.
#[global] Instance SubscriptionConfig_eq_dec : EqDecision SubscriptionConfig.
Proof. solve_decision. Defined.

Record SubscriptionSpec : Type := mkSubscriptionSpec {
  CatalogSource : string;
  CatalogSourceNamespace : string;
  Package : string;
  Channel : string;
  InstallPlanApproval : Approval;
  StartingCSV : string;
  Config : option SubscriptionConfig
}.
#[global] Instance SubscriptionSpec_eq_dec : EqDecision SubscriptionSpec.
Proof. solve_decision. Defined.

(** [Spec] is a pointer ([*SubscriptionSpec]) in the Go type. *)
Record Subscription : Type := mkSubscription {
  sub_TypeMeta : metav1.TypeMeta;
  sub_ObjectMeta : metav1.ObjectMeta;
  sub_Spec : option SubscriptionSpec;
  sub_InstalledCSV : string           (* Status.InstalledCSV *)
}.
#[global] Instance Subscription_eq_dec : EqDecision Subscription.
Proof. solve_decision. Defined.

Record ClusterServiceVersion : Type := mkClusterServiceVersion {
  csv_TypeMeta : metav1.TypeMeta;
  csv_ObjectMeta : metav1.ObjectMeta
}.
#[global] Instance ClusterServiceVersion_eq_dec : EqDecision ClusterServiceVersion.
Proof. solve_decision. Defined.

Record BundleLookup : Type := mkBundleLookup {
  Path : string;
  Identifier : string
}.
#[global] Instance BundleLookup_eq_dec : EqDecision BundleLookup.
Proof. solve_decision. Defined.

Record InstallPlanSpec : Type := mkInstallPlanSpec {
  ClusterServiceVersionNames : list string;
  Approved : bool
}.
#[global] Instance InstallPlanSpec_eq_dec : EqDecision InstallPlanSpec.
Proof. solve_decision. Defined.

Record InstallPlanStatus : Type := mkInstallPlanStatus {
  BundleLookups : list BundleLookup
}.
#[global] Instance InstallPlanStatus_eq_dec : EqDecision InstallPlanStatus.
Proof. solve_decision. Defined.

Record InstallPlan : Type := mkInstallPlan {
  ip_TypeMeta : metav1.TypeMeta;
  ip_ObjectMeta : metav1.ObjectMeta;
  ip_Spec : InstallPlanSpec;
  ip_Status : InstallPlanStatus
}.
#[global] Instance InstallPlan_eq_dec : EqDecision InstallPlan.
Proof. solve_decision. Defined.

Definition zeroSubscription : Subscription :=
  {| sub_TypeMeta := metav1.zeroTypeMeta;
     sub_ObjectMeta := metav1.zeroObjectMeta;
     sub_Spec := None;
     sub_InstalledCSV := "" |}.
End v1alpha1.

Module integreatlyv1alpha1.
Inductive IntOrString : Set := FromInt (i : Z) | FromString (s : string).
#[global] Instance IntOrString_eq_dec : EqDecision IntOrString.
Proof. solve_decision. Defined.

Record GrafanaIngress : Type := mkGrafanaIngress {
  ing_Enabled : bool;
  ing_PathType : string;
  ing_Path : string
}.
#[global] Instance GrafanaIngress_eq_dec : EqDecision GrafanaIngress.
Proof. solve_decision. Defined.

Record RollingUpdateDeployment : Type := mkRollingUpdateDeployment {
  MaxUnavailable : option IntOrString;
  MaxSurge : option IntOrString
}.
#[global] Instance RollingUpdateDeployment_eq_dec :
  EqDecision RollingUpdateDeployment.
Proof. solve_decision. Defined.

Record DeploymentStrategy : Type := mkDeploymentStrategy {
  strat_Type : string;
  RollingUpdate : option RollingUpdateDeployment
}.
#[global] Instance DeploymentStrategy_eq_dec : EqDecision DeploymentStrategy.
Proof. solve_decision. Defined.

Record GrafanaDeployment : Type := mkGrafanaDeployment {
  Replicas : option Z;
  Strategy : option DeploymentStrategy
}.
#[global] Instance GrafanaDeployment_eq_dec : EqDecision GrafanaDeployment.
Proof. solve_decision. Defined.

Record GrafanaConfig : Type := mkGrafanaConfig {
  Log : option (string * string);          (* Mode, Level *)
  Auth : option (option bool * option bool);
                                 (* DisableLoginForm, DisableSignoutMenu *)
  AuthAnonymous : option (option bool);    (* Enabled *)
  Users : option (option bool)             (* ViewersCanEdit *)
}.
#[global] Instance GrafanaConfig_eq_dec : EqDecision GrafanaConfig.
Proof. solve_decision. Defined.

Record GrafanaSpec : Type := mkGrafanaSpec {
  Ingress : option GrafanaIngress;
  Deployment : option GrafanaDeployment;
  DashboardLabelSelector : list metav1.LabelSelector;
  gConfig : GrafanaConfig
}.
#[global] Instance GrafanaSpec_eq_dec : EqDecision GrafanaSpec.
Proof. solve_decision. Defined.

Record Grafana : Type := mkGrafana {
  g_TypeMeta : metav1.TypeMeta;
  g_ObjectMeta : metav1.ObjectMeta;
  g_Spec : GrafanaSpec
}.
#[global] Instance Grafana_eq_dec : EqDecision Grafana.
Proof. solve_decision. Defined.
End integreatlyv1alpha1.

(** The kinds of object the reconciler talks about, and an object of any
    of them (the argument of a write). *)
Inductive Kind : Set :=
| KNamespace | KOperatorGroup | KSubscription | KClusterServiceVersion
| KInstallPlan | KGrafana | KGrafanaDataSource.
#[global] Instance Kind_eq_dec : EqDecision Kind.
Proof. solve_decision. Defined.

Inductive Object : Type :=
| ObjNamespace (o : corev1.Namespace)
| ObjOperatorGroup (o : operatorsv1.OperatorGroup)
| ObjSubscription (o : v1alpha1.Subscription)
| ObjClusterServiceVersion (o : v1alpha1.ClusterServiceVersion)
| ObjInstallPlan (o : v1alpha1.InstallPlan)
| ObjGrafana (o : integreatlyv1alpha1.Grafana).
#[global] Instance Object_eq_dec : EqDecision Object.
Proof. solve_decision. Defined.

(** ** The world a reconciliation runs in *)

(** A request sent to the remote store or to the controller. *)
Inductive Call : Type :=
| CallGet (k : Kind) (key : NamespacedName)
| CallList (k : Kind) (ns : string)
| CallCreate (o : Object)
| CallUpdate (o : Object)
| CallDelete (o : Object)
| CallWatch (k : Kind).
#[global] Instance Call_eq_dec : EqDecision Call.
Proof. solve_decision. Defined.

(** [grafanaWatchEstablished] is the reconciler's own field.  The next
    seven fields are the remote store: keyed objects per kind, the install
    plans in the order the store lists them, and whether the
    GrafanaDataSource kind is served.  [watches] are the watches the
    controller holds.  [calls] records every request in the order it was
    issued.  [faults] is what the environment answers to the coming
    requests: [Some e] makes the next request fail with [e] and have no
    effect, [None] (or an exhausted list) lets it through. *)
Record World : Type := mkWorld {
  grafanaWatchEstablished : bool;
  namespaces : gmap NamespacedName corev1.Namespace;
  operatorGroups : gmap NamespacedName operatorsv1.OperatorGroup;
  subscriptions : gmap NamespacedName v1alpha1.Subscription;
  clusterServiceVersions : gmap NamespacedName v1alpha1.ClusterServiceVersion;
  installPlans : list v1alpha1.InstallPlan;
  grafanas : gmap NamespacedName integreatlyv1alpha1.Grafana;
  dataSourceKindServed : bool;
  watches : list Kind;
  calls : list Call;
  faults : list error
}.

Definition set_grafanaWatchEstablished (b : bool) (w : World) : World :=
  mkWorld b (namespaces w) (operatorGroups w) (subscriptions w)
    (clusterServiceVersions w) (installPlans w) (grafanas w)
    (dataSourceKindServed w) (watches w) (calls w) (faults w).
Definition set_namespaces m (w : World) : World :=
  mkWorld (grafanaWatchEstablished w) m (operatorGroups w) (subscriptions w)
    (clusterServiceVersions w) (installPlans w) (grafanas w)
    (dataSourceKindServed w) (watches w) (calls w) (faults w).
Definition set_operatorGroups m (w : World) : World :=
  mkWorld (grafanaWatchEstablished w) (namespaces w) m (subscriptions w)
    (clusterServiceVersions w) (installPlans w) (grafanas w)
    (dataSourceKindServed w) (watches w) (calls w) (faults w).
Definition set_subscriptions m (w : World) : World :=
  mkWorld (grafanaWatchEstablished w) (namespaces w) (operatorGroups w) m
    (clusterServiceVersions w) (installPlans w) (grafanas w)
    (dataSourceKindServed w) (watches w) (calls w) (faults w).
Definition set_clusterServiceVersions m (w : World) : World :=
  mkWorld (grafanaWatchEstablished w) (namespaces w) (operatorGroups w)
    (subscriptions w) m (installPlans w) (grafanas w)
    (dataSourceKindServed w) (watches w) (calls w) (faults w).
Definition set_installPlans l (w : World) : World :=
  mkWorld (grafanaWatchEstablished w) (namespaces w) (operatorGroups w)
    (subscriptions w) (clusterServiceVersions w) l (grafanas w)
    (dataSourceKindServed w) (watches w) (calls w) (faults w).
Definition set_grafanas m (w : World) : World :=
  mkWorld (grafanaWatchEstablished w) (namespaces w) (operatorGroups w)
    (subscriptions w) (clusterServiceVersions w) (installPlans w) m
    (dataSourceKindServed w) (watches w) (calls w) (faults w).
Definition set_watches l (w : World) : World :=
  mkWorld (grafanaWatchEstablished w) (namespaces w) (operatorGroups w)
    (subscriptions w) (clusterServiceVersions w) (installPlans w) (grafanas w)
    (dataSourceKindServed w) l (calls w) (faults w).
Definition set_calls l (w : World) : World :=
  mkWorld (grafanaWatchEstablished w) (namespaces w) (operatorGroups w)
    (subscriptions w) (clusterServiceVersions w) (installPlans w) (grafanas w)
    (dataSourceKindServed w) (watches w) l (faults w).
Definition set_faults l (w : World) : World :=
  mkWorld (grafanaWatchEstablished w) (namespaces w) (operatorGroups w)
    (subscriptions w) (clusterServiceVersions w) (installPlans w) (grafanas w)
    (dataSourceKindServed w) (watches w) (calls w) l.

(** ** The monad of reconciler methods: state and panic *)

Inductive outcome (A : Type) : Type :=
| Ret (a : A) (w : World)
| Panic (w : World).
Arguments Ret {A} a w.
Arguments Panic {A} w.

Definition M (A : Type) : Type := World → outcome A.

Definition ret {A} (a : A) : M A := λ w, Ret a w.
Definition bind {A B} (m : M A) (f : A → M B) : M B := λ w,
  match m w with
  | Ret a w' => f a w'
  | Panic w' => Panic w'
  end.

Notation "x <- m ; k" := (bind m (λ x, k))
  (at level 20, m at level 100, k at level 200, only parsing).
Notation "' p <- m ; k" := (bind m (λ x, let 'p := x in k))
  (at level 20, p pattern, m at level 100, k at level 200, only parsing).

Definition panic {A} : M A := λ w, Panic w.

(** The world an outcome leaves behind. *)
Definition worldOf {A} (o : outcome A) : World :=
  match o with Ret _ w => w | Panic w => w end.

(** The value an outcome returns, if it returns. *)
Definition resultOf {A} (o : outcome A) : option A :=
  match o with Ret a _ => Some a | Panic _ => None end.

(** [context.Context]: opaque to the reconciler, handed on to the store. *)
Inductive Context : Set := Background | WithCancel (parent : Context).

(** ** The client of the remote store and the controller *)

(** Every request is first recorded, then answered by the environment:
    [request c] returns the injected failure, if any. *)
Definition request (c : Call) : M error := λ w,
  let w := set_calls (calls w ++ [c]) w in
  match faults w with
  | [] => Ret None w
  | f :: fs => Ret f (set_faults fs w)
  end.

Definition errNotFound : StatusError :=
  mkStatusError StatusReasonNotFound "not found".
Definition errAlreadyExists : StatusError :=
  mkStatusError StatusReasonAlreadyExists "already exists".
Definition errNoKindMatch : StatusError :=
  mkStatusError StatusReasonUnknown "no matches for kind".

(** Modelled from the spec: [client.Object], a kind of object the store
    keeps by (namespace, name) (spec, section 6: get, create, update and
    delete by identity), and where the world keeps it. *)
Class ClientObject (T : Type) : Type := {
  kindOf : Kind;
  toObject : T → Object;
  metaOf : T → metav1.ObjectMeta;
  stored : World → gmap NamespacedName T;
  set_stored : gmap NamespacedName T → World → World;
  (* the store is apart from the reconciler's own field *)
  set_stored_gate m w :
    grafanaWatchEstablished (set_stored m w) = grafanaWatchEstablished w
}.
Arguments kindOf T {_}.
Arguments stored T {_} w.
Arguments set_stored T {_} m w.

#[global] Instance Namespace_object : ClientObject corev1.Namespace :=
  {| kindOf := KNamespace; toObject := ObjNamespace;
     metaOf := corev1.ns_ObjectMeta;
     stored := namespaces; set_stored := set_namespaces;
     set_stored_gate _ _ := eq_refl |}.
#[global] Instance OperatorGroup_object :
  ClientObject operatorsv1.OperatorGroup :=
  {| kindOf := KOperatorGroup; toObject := ObjOperatorGroup;
     metaOf := operatorsv1.og_ObjectMeta;
     stored := operatorGroups; set_stored := set_operatorGroups;
     set_stored_gate _ _ := eq_refl |}.
#[global] Instance Subscription_object : ClientObject v1alpha1.Subscription :=
  {| kindOf := KSubscription; toObject := ObjSubscription;
     metaOf := v1alpha1.sub_ObjectMeta;
     stored := subscriptions; set_stored := set_subscriptions;
     set_stored_gate _ _ := eq_refl |}.
#[global] Instance ClusterServiceVersion_object :
  ClientObject v1alpha1.ClusterServiceVersion :=
  {| kindOf := KClusterServiceVersion; toObject := ObjClusterServiceVersion;
     metaOf := v1alpha1.csv_ObjectMeta;
     stored := clusterServiceVersions;
     set_stored := set_clusterServiceVersions;
     set_stored_gate _ _ := eq_refl |}.
#[global] Instance Grafana_object : ClientObject integreatlyv1alpha1.Grafana :=
  {| kindOf := KGrafana; toObject := ObjGrafana;
     metaOf := integreatlyv1alpha1.g_ObjectMeta;
     stored := grafanas; set_stored := set_grafanas;
     set_stored_gate _ _ := eq_refl |}.

(** Modelled from the spec: [client.Get]; an absent object is the
    distinguishable NotFound error and leaves [zero] in the receiver. *)
Definition Get {T} `{ClientObject T} (zero : T)
    (ctx : Context) (key : NamespacedName) : M (T * error) :=
  injected <- request (CallGet (kindOf T) key);
  match injected with
  | Some e => ret (zero, Some e)
  | None => λ w,
      match stored T w !! key with
      | Some o => Ret (o, None) w
      | None => Ret (zero, Some errNotFound) w
      end
  end.

(** Modelled from the spec: [client.Create]; creating an object that
    exists is the distinguishable AlreadyExists error. *)
Definition Create {T} `{ClientObject T} (ctx : Context) (o : T) : M error :=
  injected <- request (CallCreate (toObject o));
  match injected with
  | Some e => ret (Some e)
  | None => λ w,
      match stored T w !! keyOf (metaOf o) with
      | Some _ => Ret (Some errAlreadyExists) w
      | None => Ret None (set_stored T (<[keyOf (metaOf o) := o]> (stored T w)) w)
      end
  end.

(** Modelled from the spec: [client.Update]; replaces the stored object of
    the same identity.  A version conflict is a failure the environment
    injects. *)
Definition Update {T} `{ClientObject T} (ctx : Context) (o : T) : M error :=
  injected <- request (CallUpdate (toObject o));
  match injected with
  | Some e => ret (Some e)
  | None => λ w,
      match stored T w !! keyOf (metaOf o) with
      | Some _ => Ret None (set_stored T (<[keyOf (metaOf o) := o]> (stored T w)) w)
      | None => Ret (Some errNotFound) w
      end
  end.

(** Modelled from the spec: [client.Delete], by identity. *)
Definition Delete {T} `{ClientObject T} (ctx : Context) (o : T) : M error :=
  injected <- request (CallDelete (toObject o));
  match injected with
  | Some e => ret (Some e)
  | None => λ w,
      match stored T w !! keyOf (metaOf o) with
      | Some _ => Ret None (set_stored T (delete (keyOf (metaOf o)) (stored T w)) w)
      | None => Ret (Some errNotFound) w
      end
  end.

Definition ip_key (p : v1alpha1.InstallPlan) : NamespacedName :=
  keyOf (v1alpha1.ip_ObjectMeta p).

(** The stored plans after plan [p] took the place of the plan of its
    identity: every plan of another identity is as it was. *)
Definition replacePlan (p : v1alpha1.InstallPlan)
    (l : list v1alpha1.InstallPlan) : list v1alpha1.InstallPlan :=
  (λ q, if bool_decide (ip_key q = ip_key p) then p else q) <$> l.

(** Modelled from the spec: [client.List] of install plans with
    [client.InNamespace ns]: the plans of that namespace, in the store's
    listing order. *)
Definition ListInstallPlans (ctx : Context) (ns : string)
  : M (list v1alpha1.InstallPlan * error) :=
  injected <- request (CallList KInstallPlan ns);
  match injected with
  | Some e => ret ([], Some e)
  | None => λ w,
      Ret (filter (λ p, metav1.Namespace (v1alpha1.ip_ObjectMeta p) = ns)
                  (installPlans w), None) w
  end.

(** Modelled from the spec: [client.Update] of an install plan: the stored
    plan of the same identity is replaced, every other one is kept. *)
Definition UpdateInstallPlan (ctx : Context) (p : v1alpha1.InstallPlan)
  : M error :=
  injected <- request (CallUpdate (ObjInstallPlan p));
  match injected with
  | Some e => ret (Some e)
  | None => λ w,
      if bool_decide (ip_key p ∈ ip_key <$> installPlans w)
      then Ret None
             (set_installPlans (replacePlan p (installPlans w)) w)
      else Ret (Some errNotFound) w
  end.

(** Modelled from the spec: [client.List] of GrafanaDataSource objects,
    the existence probe of the watch gate; it fails when the kind is not
    served. *)
Definition ListGrafanaDataSources (ctx : Context) (ns : string) : M error :=
  injected <- request (CallList KGrafanaDataSource ns);
  match injected with
  | Some e => ret (Some e)
  | None => λ w,
      if dataSourceKindServed w then Ret None w
      else Ret (Some errNoKindMatch) w
  end.

(** Modelled from the spec: [controller.Watch] on a kind. *)
Definition Watch (k : Kind) : M error :=
  injected <- request (CallWatch k);
  match injected with
  | Some e => ret (Some e)
  | None => λ w, Ret None (set_watches (watches w ++ [k]) w)
  end.

(** ** Constants and desired objects of package grafana_operator *)

Definition Namespace : string := "monitoring-stack-operator".
Definition subscriptionName : string :=
  "monitoring-stack-operator-grafana-operator".
Definition operatorGroupName : string :=
  "monitoring-stack-operator-grafana-operator".
Definition grafanaName : string := "monitoring-stack-operator-grafana".
Definition grafanaCSV : string := "grafana-operator.v4.1.0".
Definition managedBy : string := "app.kubernetes.io/managed-by".
Definition operatorName : string := "monitoring-stack-operator".

Definition commonLabels : gmap string string := {[ managedBy := operatorName ]}.

Definition NewNamespace : corev1.Namespace :=
  {| corev1.ns_TypeMeta :=
       {| metav1.APIVersion := "v1"; metav1.Kind := "Namespace" |};
     corev1.ns_ObjectMeta :=
       {| metav1.Name := Namespace; metav1.Namespace := "";
          metav1.Labels := commonLabels |};
     corev1.ns_Phase := corev1.NamespacePhaseUnset |}.

Definition NewSubscription : v1alpha1.Subscription :=
  {| v1alpha1.sub_TypeMeta :=
       {| metav1.APIVersion := "operators.coreos.com/v1alpha1";
          metav1.Kind := "Subscription" |};
     v1alpha1.sub_ObjectMeta :=
       {| metav1.Name := subscriptionName; metav1.Namespace := Namespace;
          metav1.Labels := commonLabels |};
     v1alpha1.sub_Spec := Some
       {| v1alpha1.CatalogSource := "";
          v1alpha1.CatalogSourceNamespace := "";
          v1alpha1.Package := "grafana-operator";
          v1alpha1.Channel := "v4";
          v1alpha1.InstallPlanApproval := v1alpha1.ApprovalManual;
          v1alpha1.StartingCSV := grafanaCSV;
          v1alpha1.Config := Some
            {| v1alpha1.Env :=
                 [ {| corev1.ev_Name := "DASHBOARD_NAMESPACES_ALL";
                      corev1.ev_Value := "true" |} ] |} |};
     v1alpha1.sub_InstalledCSV := "" |}.

Definition NewOperatorGroup : operatorsv1.OperatorGroup :=
  {| operatorsv1.og_TypeMeta :=
       {| metav1.APIVersion := "operators.coreos.com/v1";
          metav1.Kind := "OperatorGroup" |};
     operatorsv1.og_ObjectMeta :=
       {| metav1.Name := operatorGroupName; metav1.Namespace := Namespace;
          metav1.Labels := commonLabels |};
     operatorsv1.og_Spec :=
       {| operatorsv1.TargetNamespaces := [ Namespace ];
          operatorsv1.ServiceAccountName := "";
          operatorsv1.StaticProvidedAPIs := false |} |}.

Definition newGrafana : integreatlyv1alpha1.Grafana :=
  let flagTrue := true in
  let replicas := 1 in
  let maxUnavailable := integreatlyv1alpha1.FromInt 0 in
  let maxSurge := integreatlyv1alpha1.FromInt 1 in
  {| integreatlyv1alpha1.g_TypeMeta :=
       {| metav1.APIVersion := "integreatly.org/v1alpha1";
          metav1.Kind := "Grafana" |};
     integreatlyv1alpha1.g_ObjectMeta :=
       {| metav1.Name := grafanaName; metav1.Namespace := Namespace;
          metav1.Labels := commonLabels |};
     integreatlyv1alpha1.g_Spec :=
       {| integreatlyv1alpha1.Ingress := Some
            {| integreatlyv1alpha1.ing_Enabled := true;
               integreatlyv1alpha1.ing_PathType := "Prefix";
               integreatlyv1alpha1.ing_Path := "/" |};
          integreatlyv1alpha1.Deployment := Some
            {| integreatlyv1alpha1.Replicas := Some replicas;
               integreatlyv1alpha1.Strategy := Some
                 {| integreatlyv1alpha1.strat_Type := "RollingUpdate";
                    integreatlyv1alpha1.RollingUpdate := Some
                      {| integreatlyv1alpha1.MaxUnavailable :=
                           Some maxUnavailable;
                         integreatlyv1alpha1.MaxSurge := Some maxSurge |} |} |};
          integreatlyv1alpha1.DashboardLabelSelector :=
            [ {| metav1.MatchLabels :=
                   {[ "app.kubernetes.io/part-of" :=
                        "monitoring-stack-operator" ]} |} ];
          integreatlyv1alpha1.gConfig :=
            {| integreatlyv1alpha1.Log := Some ("console", "info");
               integreatlyv1alpha1.Auth := Some (Some flagTrue, Some flagTrue);
               integreatlyv1alpha1.AuthAnonymous := Some (Some flagTrue);
               integreatlyv1alpha1.Users := Some (Some flagTrue) |} |} |}.

(** Zero values of the receivers of [Get] ([var x T]). *)
Definition zeroNamespace : corev1.Namespace :=
  {| corev1.ns_TypeMeta := metav1.zeroTypeMeta;
     corev1.ns_ObjectMeta := metav1.zeroObjectMeta;
     corev1.ns_Phase := corev1.NamespacePhaseUnset |}.
Definition zeroOperatorGroup : operatorsv1.OperatorGroup :=
  {| operatorsv1.og_TypeMeta := metav1.zeroTypeMeta;
     operatorsv1.og_ObjectMeta := metav1.zeroObjectMeta;
     operatorsv1.og_Spec :=
       {| operatorsv1.TargetNamespaces := [];
          operatorsv1.ServiceAccountName := "";
          operatorsv1.StaticProvidedAPIs := false |} |}.
Definition zeroGrafana : integreatlyv1alpha1.Grafana :=
  {| integreatlyv1alpha1.g_TypeMeta := metav1.zeroTypeMeta;
     integreatlyv1alpha1.g_ObjectMeta := metav1.zeroObjectMeta;
     integreatlyv1alpha1.g_Spec :=
       {| integreatlyv1alpha1.Ingress := None;
          integreatlyv1alpha1.Deployment := None;
          integreatlyv1alpha1.DashboardLabelSelector := [];
          integreatlyv1alpha1.gConfig :=
            {| integreatlyv1alpha1.Log := None;
               integreatlyv1alpha1.Auth := None;
               integreatlyv1alpha1.AuthAnonymous := None;
               integreatlyv1alpha1.Users := None |} |} |}.

(** ** The reconciliation steps *)

Definition ReconcileFunc : Type := Context → M reconcileResult.

(** [err != nil] *)
Definition notNil (e : error) : bool :=
  match e with Some _ => true | None => false end.

Definition reconcileNamespace (ctx : Context) : M reconcileResult :=
  let key : NamespacedName := ("", Namespace) in
  '(namespace, err) <- Get zeroNamespace ctx key;
  if notNil err && negb (IsNotFound err) then ret (reconcileError err)
  else if IsNotFound err then
    err <- Create ctx NewNamespace;
    ret (creationResult err)
  else if negb (bool_decide (corev1.ns_Phase namespace = corev1.NamespaceActive))
  then ret end_
  else ret next.

Definition reconcileOperatorGroup (ctx : Context) : M reconcileResult :=
  let key : NamespacedName := (Namespace, operatorGroupName) in
  '(operatorGroup, err) <- Get zeroOperatorGroup ctx key;
  if notNil err && negb (IsNotFound err) then ret (reconcileError err)
  else
    let desired := NewOperatorGroup in
    if IsNotFound err then
      err <- Create ctx desired;
      ret (creationResult err)
    else if negb (bool_decide (operatorsv1.og_Spec operatorGroup
                               = operatorsv1.og_Spec desired)) then
      let operatorGroup :=
        {| operatorsv1.og_TypeMeta := operatorsv1.og_TypeMeta operatorGroup;
           operatorsv1.og_ObjectMeta := operatorsv1.og_ObjectMeta operatorGroup;
           operatorsv1.og_Spec := operatorsv1.og_Spec desired |} in
      err <- Update ctx operatorGroup;
      ret (updationResult err)
    else ret next.

(** [p.f] on a pointer [p]: a nil pointer dereference panics. *)
Definition deref {A} (p : option A) : M A :=
  match p with
  | Some a => ret a
  | None => panic
  end.

Definition reconcileSubscription (ctx : Context) : M reconcileResult :=
  let key : NamespacedName := (Namespace, subscriptionName) in
  '(subscription, err) <- Get v1alpha1.zeroSubscription ctx key;
  if notNil err && negb (IsNotFound err) then ret (reconcileError err)
  else
    let desired := NewSubscription in
    if IsNotFound err then
      err <- Create ctx desired;
      ret (creationResult err)
    else
      spec <- deref (v1alpha1.sub_Spec subscription);
      desiredSpec <- deref (v1alpha1.sub_Spec desired);
      if String.eqb (v1alpha1.StartingCSV spec)
                    (v1alpha1.StartingCSV desiredSpec)
      then ret next
      else
        err <- Delete ctx subscription;
        if notNil err then ret (reconcileError err)
        else
          let csv :=
            {| v1alpha1.csv_TypeMeta :=
                 {| metav1.APIVersion := "operators.coreos.com/v1alpha1";
                    metav1.Kind := "ClusterServiceVersion" |};
               v1alpha1.csv_ObjectMeta :=
                 {| metav1.Name := v1alpha1.sub_InstalledCSV subscription;
                    metav1.Namespace := Namespace;
                    metav1.Labels := commonLabels |} |} in
          err <- Delete ctx csv;
          if notNil err then ret (reconcileError err)
          else
            err <- Create ctx subscription;
            ret (creationResult err).

(** How the [for] loop of [approveInstallPlan] is left: by the [return]
    inside it, or at its end or [break] with the value of [approvePlan]. *)
Inductive scanExit : Type :=
| scanReturn (r : reconcileResult)
| scanDone (approvePlan : option v1alpha1.InstallPlan).

(** [s[0]]: indexing an empty slice panics. *)
Definition index0 {A} (s : list A) : M A :=
  match s with
  | x :: _ => ret x
  | [] => panic
  end.

Fixpoint scanInstallPlans (items : list v1alpha1.InstallPlan) : M scanExit :=
  match items with
  | [] => ret (scanDone None)
  | installPlan :: rest =>
      csv <- index0 (v1alpha1.ClusterServiceVersionNames
                       (v1alpha1.ip_Spec installPlan));
      if negb (String.eqb csv grafanaCSV)
         || Nat.eqb (length (v1alpha1.BundleLookups
                               (v1alpha1.ip_Status installPlan))) 0
      then scanInstallPlans rest
      else if v1alpha1.Approved (v1alpha1.ip_Spec installPlan)
      then ret (scanReturn next)
      else ret (scanDone (Some installPlan))
  end.

(** [approvePlan.Spec.Approved = true] *)
Definition setApproved (p : v1alpha1.InstallPlan) : v1alpha1.InstallPlan :=
  {| v1alpha1.ip_TypeMeta := v1alpha1.ip_TypeMeta p;
     v1alpha1.ip_ObjectMeta := v1alpha1.ip_ObjectMeta p;
     v1alpha1.ip_Spec :=
       {| v1alpha1.ClusterServiceVersionNames :=
            v1alpha1.ClusterServiceVersionNames (v1alpha1.ip_Spec p);
          v1alpha1.Approved := true |};
     v1alpha1.ip_Status := v1alpha1.ip_Status p |}.

Definition approveInstallPlan (ctx : Context) : M reconcileResult :=
  '(installPlans, err) <- ListInstallPlans ctx Namespace;
  if notNil err then ret (reconcileError err)
  else if Nat.eqb (length installPlans) 0 then ret end_
  else
    exit <- scanInstallPlans installPlans;
    match exit with
    | scanReturn r => ret r
    | scanDone None => ret end_
    | scanDone (Some approvePlan) =>
        let approvePlan := setApproved approvePlan in
        err <- UpdateInstallPlan ctx approvePlan;
        ret (updationResult err)
    end.

Definition setGrafanaWatch (ctx : Context) : M reconcileResult :=
  established <- (λ w, Ret (grafanaWatchEstablished w) w);
  if established : bool then ret next
  else
    err <- ListGrafanaDataSources Background "default";
    if notNil err then ret (requeue (10 * Second) None)
    else
      err <- Watch KGrafana;
      if notNil err then ret (reconcileError err)
      else
        _ <- (λ w, Ret tt (set_grafanaWatchEstablished true w));
        ret next.

Definition reconcileGrafana (ctx : Context) : M reconcileResult :=
  let key : NamespacedName := (Namespace, grafanaName) in
  '(grafana, err) <- Get zeroGrafana ctx key;
  if notNil err && negb (IsNotFound err) then ret (reconcileError err)
  else
    let desired := newGrafana in
    if IsNotFound err then
      err <- Create ctx desired;
      ret (creationResult err)
    else if negb (bool_decide (integreatlyv1alpha1.g_Spec desired
                               = integreatlyv1alpha1.g_Spec grafana)) then
      let grafana :=
        {| integreatlyv1alpha1.g_TypeMeta :=
             integreatlyv1alpha1.g_TypeMeta grafana;
           integreatlyv1alpha1.g_ObjectMeta :=
             integreatlyv1alpha1.g_ObjectMeta grafana;
           integreatlyv1alpha1.g_Spec := integreatlyv1alpha1.g_Spec desired |} in
      err <- Update ctx grafana;
      ret (updationResult err)
    else ret next.

(** ** The pipeline *)

(** The closure [result] of [Reconcile]: what the scheduler is handed
    (logging left out). *)
Definition result (r : reconcileResult) : ctrl_Result * error :=
  (Result r, err r).

(** The [for] loop of [Reconcile] over the slice [reconcilers], followed
    by the final [return result(reconcileResult{})]. *)
Fixpoint runReconcilers (reconcilers : list ReconcileFunc) (ctx : Context)
  : M (ctrl_Result * error) :=
  match reconcilers with
  | [] => ret (result zeroReconcileResult)
  | reconciler :: rest =>
      res <- reconciler ctx;
      if stop res then ret (result res)
      else runReconcilers rest ctx
  end.

Definition reconcilers : list ReconcileFunc :=
  [ reconcileNamespace;
    reconcileOperatorGroup;
    reconcileSubscription;
    approveInstallPlan;
    setGrafanaWatch;
    reconcileGrafana ].

Definition Reconcile (ctx : Context) (req : NamespacedName)
  : M (ctrl_Result * error) :=
  runReconcilers reconcilers ctx.

(** ** The config digest (package uiplugin) *)

(** A byte is a [Z] in [0, 256); [[]byte(s)] are the bytes of a string. *)
Definition bytesOf (s : string) : list Z :=
  (λ c, Z.of_N (Ascii.N_of_ascii c)) <$> String.list_ascii_of_string s.

(** Go's [hash/fnv], 32-bit FNV-1a: the state is a [uint32], kept in [Z]
    with the wrap-around of the multiplication written out. *)
Module fnv.
Definition offset32 : Z := 2166136261.
Definition prime32 : Z := 16777619.

Definition New32a : Z := offset32.

(** One round of the loop of [Write]: [hash ^= c; hash *= prime32]. *)
Definition round (hash c : Z) : Z :=
  (Z.lxor hash c * prime32) mod 2 ^ 32.

Definition Write (h : Z) (data : list Z) : Z := fold_left round data h.

(** [Sum(in)]: appends the state, big-endian. *)
Definition Sum (h : Z) (b : list Z) : list Z :=
  b ++ [ Z.shiftr h 24 mod 256; Z.shiftr h 16 mod 256;
         Z.shiftr h 8 mod 256; h mod 256 ].
End fnv.

(** [fmt.Sprintf("%x", b)] on a byte slice: two lower-case hexadecimal
    digits per byte. *)
Definition hexDigit (d : Z) : Ascii.ascii :=
  match d with
  | 0 => "0" | 1 => "1" | 2 => "2" | 3 => "3" | 4 => "4" | 5 => "5"
  | 6 => "6" | 7 => "7" | 8 => "8" | 9 => "9" | 10 => "a" | 11 => "b"
  | 12 => "c" | 13 => "d" | 14 => "e" | _ => "f"
  end%char.

Fixpoint Sprintf_x (b : list Z) : string :=
  match b with
  | [] => ""
  | c :: b' => String (hexDigit (c / 16)) (String (hexDigit (c mod 16))
                                              (Sprintf_x b'))
  end.

Definition hashSeparator : list Z := [10].

(** [corev1.ConfigMap], of which the digest reads [Data] only. *)
Record ConfigMap : Type := mkConfigMap {
  Data : gmap string string
}.

(** [sort.Strings]: the strings in increasing byte-wise order. *)
Definition sort_Strings (keys : list string) : list string :=
  merge_sort String.le keys.

(** [cm.Data[k]]: the empty string when the key is absent. *)
Definition index (m : gmap string string) (k : string) : string :=
  default "" (m !! k).

(** The body of [computeConfigMapHash], given the order in which
    [range cm.Data] hands out the keys. *)
Definition computeConfigMapHashIn (order : list string) (cm : ConfigMap)
  : string :=
  let keys := sort_Strings order in
  let h := fold_left
             (λ h k,
                let h := fnv.Write h (bytesOf k) in
                let h := fnv.Write h hashSeparator in
                let h := fnv.Write h (bytesOf (index (Data cm) k)) in
                fnv.Write h hashSeparator)
             keys fnv.New32a in
  Sprintf_x (fnv.Sum h []).

(** [range] over a Go map visits every key once, in an unspecified
    order. *)
Definition rangeOrder (m : gmap string string) (order : list string) : Prop :=
  order ≡ₚ (map_to_list m).*1.

Definition computeConfigMapHash (cm : ConfigMap) : string :=
  computeConfigMapHashIn (map_to_list (Data cm)).*1 cm.

(** ** Predicates the properties are stated with *)

(** The results the six constructors can produce. *)
Inductive Constructed : reconcileResult → Prop :=
| Constructed_end : Constructed end_
| Constructed_next : Constructed next
| Constructed_requeue d e : Constructed (requeue d e)
| Constructed_reconcileError e : Constructed (reconcileError e)
| Constructed_creationResult e : Constructed (creationResult e)
| Constructed_updationResult e : Constructed (updationResult e).

(** [Continues ctx fs w w']: run one after the other from [w], the steps
    [fs] all return a result with [stop = false], and leave [w']. *)
Inductive Continues (ctx : Context)
  : list ReconcileFunc → World → World → Prop :=
| Continues_nil w : Continues ctx [] w w
| Continues_cons f fs w res w1 w2 :
    f ctx w = Ret res w1 →
    stop res = false →
    Continues ctx fs w1 w2 →
    Continues ctx (f :: fs) w w2.

(** What [approveInstallPlan] looks for in a plan: the first target
    version is the desired one and the status has lookup results. *)
Definition matchesGrafana (p : v1alpha1.InstallPlan) : Prop :=
  head (v1alpha1.ClusterServiceVersionNames (v1alpha1.ip_Spec p))
    = Some grafanaCSV
  ∧ v1alpha1.BundleLookups (v1alpha1.ip_Status p) ≠ [].

Definition hasTargets (p : v1alpha1.InstallPlan) : Prop :=
  v1alpha1.ClusterServiceVersionNames (v1alpha1.ip_Spec p) ≠ [].

(** The remote store, install plans apart, is the same in both worlds. *)
Definition sameOutsidePlans (w w' : World) : Prop :=
  namespaces w' = namespaces w
  ∧ operatorGroups w' = operatorGroups w
  ∧ subscriptions w' = subscriptions w
  ∧ clusterServiceVersions w' = clusterServiceVersions w
  ∧ grafanas w' = grafanas w
  ∧ dataSourceKindServed w' = dataSourceKindServed w.

(** The remote store is the same in both worlds. *)
Definition sameStore (w w' : World) : Prop :=
  sameOutsidePlans w w' ∧ installPlans w' = installPlans w.

(** The requests issued between two worlds. *)
Definition issued (w w' : World) (cs : list Call) : Prop :=
  calls w' = calls w ++ cs.

(** ** Concrete worlds, used to run the model *)

Definition emptyWorld : World :=
  mkWorld false ∅ ∅ ∅ ∅ [] ∅ false [] [] [].

Definition aLookup : v1alpha1.BundleLookup :=
  {| v1alpha1.Path := "quay.io/grafana-operator/bundle";
     v1alpha1.Identifier := "grafana-operator.v4.1.0" |}.

Definition plan (name : string) (csvs : list string) (approved : bool)
    (lookups : list v1alpha1.BundleLookup) : v1alpha1.InstallPlan :=
  {| v1alpha1.ip_TypeMeta :=
       {| metav1.APIVersion := "operators.coreos.com/v1alpha1";
          metav1.Kind := "InstallPlan" |};
     v1alpha1.ip_ObjectMeta :=
       {| metav1.Name := name; metav1.Namespace := Namespace;
          metav1.Labels := ∅ |};
     v1alpha1.ip_Spec :=
       {| v1alpha1.ClusterServiceVersionNames := csvs;
          v1alpha1.Approved := approved |};
     v1alpha1.ip_Status := {| v1alpha1.BundleLookups := lookups |} |}.

(** A plan that is ready for approval, one that lists the desired version
    second, one that is approved already, one without target versions. *)
Definition readyPlan : v1alpha1.InstallPlan :=
  plan "install-ready" [grafanaCSV] false [aLookup].
Definition secondPlan : v1alpha1.InstallPlan :=
  plan "install-second" ["prometheus-operator.v0.1.0"; grafanaCSV] false
    [aLookup].
Definition approvedPlan : v1alpha1.InstallPlan :=
  plan "install-approved" [grafanaCSV] true [aLookup].
Definition untargetedPlan : v1alpha1.InstallPlan :=
  plan "install-untargeted" [] false [aLookup].
Definition otherPlan : v1alpha1.InstallPlan :=
  plan "install-other" ["prometheus-operator.v0.1.0"] false [aLookup].

(** The namespace, operator group and subscription as the first three
    steps want them. *)
Definition activeNamespace : corev1.Namespace :=
  {| corev1.ns_TypeMeta := corev1.ns_TypeMeta NewNamespace;
     corev1.ns_ObjectMeta := corev1.ns_ObjectMeta NewNamespace;
     corev1.ns_Phase := corev1.NamespaceActive |}.

Definition settledWorld (plans : list v1alpha1.InstallPlan) : World :=
  mkWorld false
    {[ ("", Namespace) := activeNamespace ]}
    {[ (Namespace, operatorGroupName) := NewOperatorGroup ]}
    {[ (Namespace, subscriptionName) := NewSubscription ]}
    ∅ plans ∅ false [] [] [].

(** A subscription left over from an earlier release, with its installed
    version record. *)
Definition staleCSV : string := "grafana-operator.v4.0.0".

Definition staleSubscription : v1alpha1.Subscription :=
  {| v1alpha1.sub_TypeMeta := v1alpha1.sub_TypeMeta NewSubscription;
     v1alpha1.sub_ObjectMeta := v1alpha1.sub_ObjectMeta NewSubscription;
     v1alpha1.sub_Spec := Some
       {| v1alpha1.CatalogSource := "";
          v1alpha1.CatalogSourceNamespace := "";
          v1alpha1.Package := "grafana-operator";
          v1alpha1.Channel := "v4";
          v1alpha1.InstallPlanApproval := v1alpha1.ApprovalManual;
          v1alpha1.StartingCSV := staleCSV;
          v1alpha1.Config := None |};
     v1alpha1.sub_InstalledCSV := staleCSV |}.

Definition staleInstalled : v1alpha1.ClusterServiceVersion :=
  {| v1alpha1.csv_TypeMeta :=
       {| metav1.APIVersion := "operators.coreos.com/v1alpha1";
          metav1.Kind := "ClusterServiceVersion" |};
     v1alpha1.csv_ObjectMeta :=
       {| metav1.Name := staleCSV; metav1.Namespace := Namespace;
          metav1.Labels := ∅ |} |}.

Definition staleWorld : World :=
  mkWorld false
    {[ ("", Namespace) := activeNamespace ]}
    {[ (Namespace, operatorGroupName) := NewOperatorGroup ]}
    {[ (Namespace, subscriptionName) := staleSubscription ]}
    {[ (Namespace, staleCSV) := staleInstalled ]}
    [] ∅ false [] [] [].

Definition errConflict : StatusError :=
  mkStatusError StatusReasonConflict "the object has been modified".
Definition errInternal : StatusError :=
  mkStatusError StatusReasonInternalError "internal error".

(** Everything in place and approved: every step continues. *)
Definition convergedWorld : World :=
  mkWorld true
    {[ ("", Namespace) := activeNamespace ]}
    {[ (Namespace, operatorGroupName) := NewOperatorGroup ]}
    {[ (Namespace, subscriptionName) := NewSubscription ]}
    ∅ [approvedPlan]
    {[ (Namespace, grafanaName) := newGrafana ]}
    true [KGrafana] [] [].

(** The first four steps settled and the data source kind served, the
    watch not yet asked for. *)
Definition servedWorld : World :=
  mkWorld false
    {[ ("", Namespace) := activeNamespace ]}
    {[ (Namespace, operatorGroupName) := NewOperatorGroup ]}
    {[ (Namespace, subscriptionName) := NewSubscription ]}
    ∅ [approvedPlan] ∅ true [] [] [].

(** [preserves R m]: the world [m] leaves is related by [R] to the one
    it started from, whether it returns or panics. *)
Definition preserves {A} (R : relation World) (m : M A) : Prop :=
  ∀ w, R w (worldOf (m w)).

(** The gate flag is left as it was. *)
Definition gateKept : relation World :=
  λ w w', grafanaWatchEstablished w' = grafanaWatchEstablished w.

(** The gate flag is not reset. *)
Definition gateNotReset : relation World :=
  λ w w', grafanaWatchEstablished w = true → grafanaWatchEstablished w' = true.

(** The version record [reconcileSubscription] deletes for a
    subscription. *)
Definition installedOf (subscription : v1alpha1.Subscription)
  : v1alpha1.ClusterServiceVersion :=
  {| v1alpha1.csv_TypeMeta :=
       {| metav1.APIVersion := "operators.coreos.com/v1alpha1";
          metav1.Kind := "ClusterServiceVersion" |};
     v1alpha1.csv_ObjectMeta :=
       {| metav1.Name := v1alpha1.sub_InstalledCSV subscription;
          metav1.Namespace := Namespace;
          metav1.Labels := commonLabels |} |}.

(** The bytes [computeConfigMapHash] feeds to the hash for the keys
    [keys], in their order. *)
Fixpoint serialize (m : gmap string string) (keys : list string) : list Z :=
  match keys with
  | [] => []
  | k :: keys =>
      bytesOf k ++ hashSeparator ++ bytesOf (index m k) ++ hashSeparator
      ++ serialize m keys
  end.

(** Reads a hexadecimal digit back. *)
Definition unhexDigit (c : Ascii.ascii) : Z :=
  let n := Z.of_N (Ascii.N_of_ascii c) in
  if n <? 58 then n - 48 else n - 87.

(** [uint32] values. *)
Definition isUint32 (h : Z) : Prop := 0 ≤ h < 2 ^ 32.
Definition isByte (c : Z) : Prop := 0 ≤ c < 256.

(** Config maps to run the digest on. *)
Definition cmAB : ConfigMap := {| Data := list_to_map [("a", "1"); ("b", "2")] |}.
Definition cmBA : ConfigMap := {| Data := list_to_map [("b", "2"); ("a", "1")] |}.
Definition cm208 : ConfigMap := {| Data := {[ "a" := "208" ]} |}.
Definition cmZhnr : ConfigMap := {| Data := <[ "a" := "zhnr" ]> (Data cm208) |}.

(** ** Predicates of the further properties *)

(** The world keeps the objects of a kind apart from everything else it
    holds: writing them back reads back, and touches neither the request
    log, the pending answers, the watches nor the install plans. *)
Class LawfulObject (T : Type) `{ClientObject T} : Prop := {
  stored_set_stored m w : stored T (set_stored T m w) = m;
  set_stored_calls m w : calls (set_stored T m w) = calls w;
  set_stored_faults m w : faults (set_stored T m w) = faults w;
  set_stored_watches m w : watches (set_stored T m w) = watches w;
  set_stored_installPlans m w :
    installPlans (set_stored T m w) = installPlans w;
  stored_set_calls l w : stored T (set_calls l w) = stored T w;
  stored_set_faults l w : stored T (set_faults l w) = stored T w
}.

#[global] Instance Namespace_lawful : LawfulObject corev1.Namespace.
Proof. by split. Qed.
#[global] Instance OperatorGroup_lawful : LawfulObject operatorsv1.OperatorGroup.
Proof. by split. Qed.
#[global] Instance Subscription_lawful : LawfulObject v1alpha1.Subscription.
Proof. by split. Qed.
#[global] Instance ClusterServiceVersion_lawful :
  LawfulObject v1alpha1.ClusterServiceVersion.
Proof. by split. Qed.
#[global] Instance Grafana_lawful : LawfulObject integreatlyv1alpha1.Grafana.
Proof. by split. Qed.

(** [ensures Q m]: whatever [m] returns satisfies [Q]. *)
Definition ensures {A} (Q : A → Prop) (m : M A) : Prop :=
  ∀ w a w', m w = Ret a w' → Q a.

(** The results a step of this reconciler hands to the pipeline: no
    immediate requeue, a delay of zero, two or ten seconds, and with an
    error a zero [ctrl.Result] and [stop]. *)
Definition shaped (r : reconcileResult) : Prop :=
  Requeue (Result r) = false
  ∧ (RequeueAfter (Result r) = 0
     ∨ RequeueAfter (Result r) = 2 * Second
     ∨ RequeueAfter (Result r) = 10 * Second)
  ∧ (err r ≠ None → Result r = zeroResult ∧ stop r = true).

(** The requests the reconciler issues, by verb and kind. *)
Definition permitted (c : Call) : bool :=
  match c with
  | CallGet k _ =>
      match k with
      | KNamespace | KOperatorGroup | KSubscription | KGrafana => true
      | _ => false
      end
  | CallList k ns =>
      match k with
      | KInstallPlan => bool_decide (ns = Namespace)
      | KGrafanaDataSource => bool_decide (ns = "default")
      | _ => false
      end
  | CallCreate o =>
      match o with
      | ObjNamespace _ | ObjOperatorGroup _ | ObjSubscription _
      | ObjGrafana _ => true
      | _ => false
      end
  | CallUpdate o =>
      match o with
      | ObjOperatorGroup _ | ObjInstallPlan _ | ObjGrafana _ => true
      | _ => false
      end
  | CallDelete o =>
      match o with
      | ObjSubscription _ | ObjClusterServiceVersion _ => true
      | _ => false
      end
  | CallWatch k => bool_decide (k = KGrafana)
  end.

Definition isWatch (c : Call) : bool :=
  match c with CallWatch _ => true | _ => false end.

(** [frame P w w']: from [w] to [w'] the gate flag and the watches are
    kept, and the requests issued all satisfy [P]. *)
Definition frame (P : Call → bool) : relation World := λ w w',
  grafanaWatchEstablished w' = grafanaWatchEstablished w
  ∧ watches w' = watches w
  ∧ ∃ cs, calls w' = calls w ++ cs ∧ Forall (λ c, P c = true) cs.

(** [callsVia P w w']: the requests issued from [w] to [w'] all satisfy
    [P]. *)
Definition callsVia (P : Call → bool) : relation World := λ w w',
  ∃ cs, calls w' = calls w ++ cs ∧ Forall (λ c, P c = true) cs.

(** With the gate established, it stays so, the watches are kept and no
    watch is asked for. *)
Definition settledGate : relation World := λ w w',
  grafanaWatchEstablished w = true →
  frame (λ c, negb (isWatch c)) w w'.

(** [converged w]: everything the six steps look for is in place in [w]:
    the namespace is active, the operator group and the Grafana have the
    desired spec, the subscription starts at the desired version, the
    first matching install plan is approved, and the Grafana watch is
    established. *)
Definition converged (w : World) : Prop :=
  grafanaWatchEstablished w = true
  ∧ (∃ namespace,
       namespaces w !! ("", Namespace) = Some namespace
       ∧ corev1.ns_Phase namespace = corev1.NamespaceActive)
  ∧ (∃ operatorGroup,
       operatorGroups w !! (Namespace, operatorGroupName) = Some operatorGroup
       ∧ operatorsv1.og_Spec operatorGroup
         = operatorsv1.og_Spec NewOperatorGroup)
  ∧ (∃ subscription spec,
       subscriptions w !! (Namespace, subscriptionName) = Some subscription
       ∧ v1alpha1.sub_Spec subscription = Some spec
       ∧ v1alpha1.StartingCSV spec = grafanaCSV)
  ∧ (∃ pre p post,
       filter (λ q, metav1.Namespace (v1alpha1.ip_ObjectMeta q) = Namespace)
         (installPlans w) = pre ++ p :: post
       ∧ Forall (λ q, hasTargets q ∧ ¬ matchesGrafana q) pre
       ∧ matchesGrafana p
       ∧ v1alpha1.Approved (v1alpha1.ip_Spec p) = true)
  ∧ (∃ grafana,
       grafanas w !! (Namespace, grafanaName) = Some grafana
       ∧ integreatlyv1alpha1.g_Spec grafana
         = integreatlyv1alpha1.g_Spec newGrafana).

(** A subscription that starts at the desired version but differs from the
    desired one elsewhere. *)
Definition driftedSubscription : v1alpha1.Subscription :=
  {| v1alpha1.sub_TypeMeta := v1alpha1.sub_TypeMeta NewSubscription;
     v1alpha1.sub_ObjectMeta := v1alpha1.sub_ObjectMeta NewSubscription;
     v1alpha1.sub_Spec := Some
       {| v1alpha1.CatalogSource := "community-operators";
          v1alpha1.CatalogSourceNamespace := "olm";
          v1alpha1.Package := "grafana-operator";
          v1alpha1.Channel := "v3";
          v1alpha1.InstallPlanApproval := v1alpha1.ApprovalAutomatic;
          v1alpha1.StartingCSV := grafanaCSV;
          v1alpha1.Config := None |};
     v1alpha1.sub_InstalledCSV := "" |}.

(** A subscription without a spec. *)
Definition bareSubscription : v1alpha1.Subscription :=
  {| v1alpha1.sub_TypeMeta := v1alpha1.sub_TypeMeta NewSubscription;
     v1alpha1.sub_ObjectMeta := v1alpha1.sub_ObjectMeta NewSubscription;
     v1alpha1.sub_Spec := None;
     v1alpha1.sub_InstalledCSV := "" |}.

(** The requests of the steps other than the watch gate. *)
Definition quiet (c : Call) : bool := permitted c && negb (isWatch c).

(** ** The components of a UI plugin (package uiplugin)

    The objects [pluginComponentReconcilers] has reconciled, with the
    fields this package sets.  [Meta] is [metav1.ObjectMeta] with the
    annotations, which this package writes. *)

Module uiplugin.
Record Meta : Type := mkMeta {
  Name : string;
  Namespace : string;
  Labels : gmap string string;
  Annotations : gmap string string
}.
#[global] Instance Meta_eq_dec : EqDecision Meta.
Proof. solve_decision. Defined.

(** rbac objects and console proxies are handed on as they come; their
    identity is all that is kept of them. *)
Record Role : Type := mkRole { role_Name : string }.
Record RoleBinding : Type := mkRoleBinding { rb_Name : string }.
Record ClusterRole : Type := mkClusterRole { cr_Name : string }.
Record ClusterRoleBinding : Type :=
  mkClusterRoleBinding { crb_Name : string }.
Record ConsolePluginProxy : Type := mkConsolePluginProxy { Alias : string }.
#[global] Instance Role_eq_dec : EqDecision Role.
Proof. solve_decision. Defined.
#[global] Instance RoleBinding_eq_dec : EqDecision RoleBinding.
Proof. solve_decision. Defined.
#[global] Instance ClusterRole_eq_dec : EqDecision ClusterRole.
Proof. solve_decision. Defined.
#[global] Instance ClusterRoleBinding_eq_dec : EqDecision ClusterRoleBinding.
Proof. solve_decision. Defined.
#[global] Instance ConsolePluginProxy_eq_dec : EqDecision ConsolePluginProxy.
Proof. solve_decision. Defined.

Record Toleration : Type := mkToleration {
  tol_Key : string;
  tol_Operator : string;
  tol_Value : string;
  tol_Effect : string
}.
#[global] Instance Toleration_eq_dec : EqDecision Toleration.
Proof. solve_decision. Defined.

(** [uiv1alpha1.DeploymentConfig]; a nil [NodeSelector] is [None]. *)
Record DeploymentConfig : Type := mkDeploymentConfig {
  cfg_NodeSelector : option (gmap string string);
  cfg_Tolerations : list Toleration
}.

(** [uiv1alpha1.UIPlugin], the owner; [Spec.Deployment] is a pointer. *)
Record UIPlugin : Type := mkUIPlugin {
  pl_Name : string;
  pl_Deployment : option DeploymentConfig
}.

(** [UIPluginInfo]; the pointers are options. *)
Record UIPluginInfo : Type := mkUIPluginInfo {
  info_Name : string;
  info_ConsoleName : string;
  info_DisplayName : string;
  info_Image : string;
  info_ExtraArgs : list string;
  info_ResourceNamespace : string;
  info_Proxies : list ConsolePluginProxy;
  info_Role : option Role;
  info_RoleBinding : option RoleBinding;
  info_ConfigMap : option ConfigMap;
  info_ClusterRoles : list (option ClusterRole);
  info_ClusterRoleBindings : list (option ClusterRoleBinding)
}.

Record ServiceAccount : Type := mkServiceAccount {
  sa_TypeMeta : metav1.TypeMeta;
  sa_ObjectMeta : Meta
}.

Record ConsolePluginService : Type := mkConsolePluginService {
  cps_Name : string;
  cps_Namespace : string;
  cps_Port : Z;
  cps_BasePath : string
}.

Record ConsolePlugin : Type := mkConsolePlugin {
  cp_TypeMeta : metav1.TypeMeta;
  cp_ObjectMeta : Meta;
  cp_DisplayName : string;
  cp_Service : ConsolePluginService;
  cp_Proxy : list ConsolePluginProxy
}.

Inductive VolumeSource : Type :=
| SecretVolumeSource (SecretName : string) (DefaultMode : option Z)
| ConfigMapVolumeSource (LocalObjectReference : string).

Record Volume : Type := mkVolume {
  vol_Name : string;
  vol_Source : VolumeSource
}.

Record VolumeMount : Type := mkVolumeMount {
  vm_Name : string;
  vm_ReadOnly : bool;
  vm_MountPath : string
}.

Record ContainerPort : Type := mkContainerPort {
  port_ContainerPort : Z;
  port_Name : string
}.

Record SecurityContext : Type := mkSecurityContext {
  sc_RunAsNonRoot : option bool;
  sc_AllowPrivilegeEscalation : option bool;
  sc_Drop : option (list string)       (* Capabilities.Drop *)
}.

Record Container : Type := mkContainer {
  c_Name : string;
  c_Image : string;
  c_Ports : list ContainerPort;
  c_TerminationMessagePolicy : string;
  c_SecurityContext : option SecurityContext;
  c_VolumeMounts : list VolumeMount;
  c_Args : list string
}.

Record PodSecurityContext : Type := mkPodSecurityContext {
  psc_RunAsNonRoot : option bool;
  psc_SeccompProfile : option string   (* SeccompProfile.Type *)
}.

Record PodSpec : Type := mkPodSpec {
  ServiceAccountName : string;
  Containers : list Container;
  Volumes : list Volume;
  NodeSelector : gmap string string;
  Tolerations : list Toleration;
  RestartPolicy : string;
  DNSPolicy : string;
  pod_SecurityContext : option PodSecurityContext
}.

Record PodTemplateSpec : Type := mkPodTemplateSpec {
  tpl_ObjectMeta : Meta;
  tpl_Spec : PodSpec
}.

Record DeploymentSpec : Type := mkDeploymentSpec {
  Replicas : option Z;
  Selector : option metav1.LabelSelector;
  Template : PodTemplateSpec;
  ProgressDeadlineSeconds : option Z
}.

Record Deployment : Type := mkDeployment {
  dep_TypeMeta : metav1.TypeMeta;
  dep_ObjectMeta : Meta;
  dep_Spec : DeploymentSpec
}.

Record ServicePort : Type := mkServicePort {
  sp_Port : Z;
  sp_Name : string;
  sp_Protocol : string;
  sp_TargetPort : integreatlyv1alpha1.IntOrString   (* intstr.IntOrString *)
}.

Record Service : Type := mkService {
  svc_TypeMeta : metav1.TypeMeta;
  svc_ObjectMeta : Meta;
  svc_Ports : list ServicePort;
  svc_Selector : gmap string string;
  svc_Type : string
}.

Definition port : Z := 9443.
Definition serviceAccountSuffix : string := "-sa".
Definition servingCertVolumeName : string := "serving-cert".
Definition annotationPrefix : string :=
  "observability.openshift.io/ui-plugin-".

Definition defaultNodeSelector : gmap string string :=
  {[ "kubernetes.io/os" := "linux" ]}.

(** [fmt.Sprintf("%d", n)] *)
Definition Sprintf_d (n : Z) : string :=
  DecimalString.NilZero.string_of_int (Z.to_int n).

Definition componentLabels (pluginName : string) : gmap string string :=
  {[ "app.kubernetes.io/instance" := pluginName;
     "app.kubernetes.io/part-of" := "UIPlugin";
     "app.kubernetes.io/managed-by" := "observability-operator" ]}.

Definition newServiceAccount (info : UIPluginInfo) (namespace : string)
  : ServiceAccount :=
  {| sa_TypeMeta := {| metav1.APIVersion := "v1";
                       metav1.Kind := "ServiceAccount" |};
     sa_ObjectMeta :=
       {| Name := info_Name info +:+ serviceAccountSuffix;
          Namespace := namespace; Labels := ∅; Annotations := ∅ |} |}.

Definition newRole (info : UIPluginInfo) : option Role := info_Role info.

Definition newRoleBinding (info : UIPluginInfo) : option RoleBinding :=
  info_RoleBinding info.

Definition newConsolePlugin (info : UIPluginInfo) (namespace : string)
  : ConsolePlugin :=
  {| cp_TypeMeta := {| metav1.APIVersion := "console.openshift.io/v1alpha1";
                       metav1.Kind := "ConsolePlugin" |};
     cp_ObjectMeta :=
       {| Name := info_ConsoleName info; Namespace := "";
          Labels := ∅; Annotations := ∅ |};
     cp_DisplayName := info_DisplayName info;
     cp_Service :=
       {| cps_Name := info_Name info;
          cps_Namespace := namespace;
          cps_Port := port;
          cps_BasePath := "/" |};
     cp_Proxy := info_Proxies info |}.

Definition createNodeSelectorAndTolerations (config : option DeploymentConfig)
  : gmap string string * list Toleration :=
  match config with
  | None => (defaultNodeSelector, [])
  | Some config =>
      let nodeSelector :=
        match cfg_NodeSelector config with
        | None => defaultNodeSelector
        | Some nodeSelector => nodeSelector
        end in
      (nodeSelector, cfg_Tolerations config)
  end.

Definition newDeployment (info : UIPluginInfo) (namespace : string)
    (config : option DeploymentConfig) : Deployment :=
  let pluginArgs :=
    [ "-port=" +:+ Sprintf_d port;
      "-cert=/var/serving-cert/tls.crt";
      "-key=/var/serving-cert/tls.key" ] in
  let pluginArgs :=
    if Nat.ltb 0 (length (info_ExtraArgs info))
    then pluginArgs ++ info_ExtraArgs info
    else pluginArgs in
  let volumes :=
    [ {| vol_Name := servingCertVolumeName;
         vol_Source := SecretVolumeSource (info_Name info) (Some 420) |} ] in
  let volumeMounts :=
    [ {| vm_Name := servingCertVolumeName;
         vm_ReadOnly := true;
         vm_MountPath := "/var/serving-cert" |} ] in
  let podAnnotations : gmap string string := ∅ in
  let '(podAnnotations, volumes, volumeMounts) :=
    match info_ConfigMap info with
    | Some cm =>
        (<[annotationPrefix +:+ "config-hash" := computeConfigMapHash cm]>
           podAnnotations,
         volumes ++ [ {| vol_Name := "plugin-config";
                         vol_Source :=
                           ConfigMapVolumeSource (info_Name info) |} ],
         volumeMounts ++ [ {| vm_Name := "plugin-config";
                              vm_ReadOnly := true;
                              vm_MountPath := "/etc/plugin/config" |} ])
    | None => (podAnnotations, volumes, volumeMounts)
    end in
  let '(nodeSelector, tolerations) :=
    createNodeSelectorAndTolerations config in
  {| dep_TypeMeta := {| metav1.APIVersion := "apps/v1";
                        metav1.Kind := "Deployment" |};
     dep_ObjectMeta :=
       {| Name := info_Name info; Namespace := namespace;
          Labels := componentLabels (info_Name info); Annotations := ∅ |};
     dep_Spec :=
       {| Replicas := Some 1;
          Selector := Some
            {| metav1.MatchLabels := componentLabels (info_Name info) |};
          Template :=
            {| tpl_ObjectMeta :=
                 {| Name := info_Name info; Namespace := namespace;
                    Labels := componentLabels (info_Name info);
                    Annotations := podAnnotations |};
               tpl_Spec :=
                 {| ServiceAccountName :=
                      info_Name info +:+ serviceAccountSuffix;
                    Containers :=
                      [ {| c_Name := info_Name info;
                           c_Image := info_Image info;
                           c_Ports :=
                             [ {| port_ContainerPort := port;
                                  port_Name := "web" |} ];
                           c_TerminationMessagePolicy :=
                             "FallbackToLogsOnError";
                           c_SecurityContext := Some
                             {| sc_RunAsNonRoot := Some true;
                                sc_AllowPrivilegeEscalation := Some false;
                                sc_Drop := Some ["ALL"] |};
                           c_VolumeMounts := volumeMounts;
                           c_Args := pluginArgs |} ];
                    Volumes := volumes;
                    NodeSelector := nodeSelector;
                    Tolerations := tolerations;
                    RestartPolicy := "Always";
                    DNSPolicy := "ClusterFirst";
                    pod_SecurityContext := Some
                      {| psc_RunAsNonRoot := Some true;
                         psc_SeccompProfile := Some "RuntimeDefault" |} |} |};
          ProgressDeadlineSeconds := Some 300 |} |}.

Definition newService (info : UIPluginInfo) (namespace : string) : Service :=
  let annotations : gmap string string :=
    {[ "service.alpha.openshift.io/serving-cert-secret-name" :=
         info_Name info ]} in
  {| svc_TypeMeta := {| metav1.APIVersion := "v1"; metav1.Kind := "Service" |};
     svc_ObjectMeta :=
       {| Name := info_Name info; Namespace := namespace;
          Labels := componentLabels (info_Name info);
          Annotations := annotations |};
     svc_Ports :=
       [ {| sp_Port := port; sp_Name := "http"; sp_Protocol := "TCP";
            sp_TargetPort := integreatlyv1alpha1.FromInt port |} ];
     svc_Selector := componentLabels (info_Name info);
     svc_Type := "ClusterIP" |}.

(** What a [reconciler.Updater] is given: the resource, a pointer for the
    ones that come from the [UIPluginInfo], and the owner. *)
Inductive Resource : Type :=
| ResServiceAccount (o : ServiceAccount)
| ResDeployment (o : Deployment)
| ResService (o : Service)
| ResConsolePlugin (o : ConsolePlugin)
| ResRole (o : option Role)
| ResRoleBinding (o : option RoleBinding)
| ResConfigMap (o : option ConfigMap)
| ResClusterRole (o : option ClusterRole)
| ResClusterRoleBinding (o : option ClusterRoleBinding).

(** Modelled from the spec: [reconciler.NewUpdater], the convergence
    primitive for one desired object and its owner (spec, section 4.2);
    only what it is constructed from is kept. *)
Record Updater : Type := NewUpdater {
  resource : Resource;
  owner : UIPlugin
}.

(** [for _, x := range xs { if x != nil { components = append(...) } }] *)
Fixpoint appendNonNil {A} (wrap : option A → Resource) (plugin : UIPlugin)
    (components : list Updater) (xs : list (option A)) : list Updater :=
  match xs with
  | [] => components
  | x :: xs =>
      match x with
      | Some _ =>
          appendNonNil wrap plugin (components ++ [NewUpdater (wrap x) plugin])
            xs
      | None => appendNonNil wrap plugin components xs
      end
  end.

Definition pluginComponentReconcilers (plugin : UIPlugin)
    (pluginInfo : UIPluginInfo) : list Updater :=
  let namespace := info_ResourceNamespace pluginInfo in
  let components :=
    [ NewUpdater (ResServiceAccount (newServiceAccount pluginInfo namespace))
        plugin;
      NewUpdater (ResDeployment
                    (newDeployment pluginInfo namespace (pl_Deployment plugin)))
        plugin;
      NewUpdater (ResService (newService pluginInfo namespace)) plugin;
      NewUpdater (ResConsolePlugin (newConsolePlugin pluginInfo namespace))
        plugin ] in
  let components :=
    match info_Role pluginInfo with
    | Some _ => components ++ [NewUpdater (ResRole (newRole pluginInfo)) plugin]
    | None => components
    end in
  let components :=
    match info_RoleBinding pluginInfo with
    | Some _ =>
        components
          ++ [NewUpdater (ResRoleBinding (newRoleBinding pluginInfo)) plugin]
    | None => components
    end in
  let components :=
    match info_ConfigMap pluginInfo with
    | Some _ =>
        components
          ++ [NewUpdater (ResConfigMap (info_ConfigMap pluginInfo)) plugin]
    | None => components
    end in
  let components :=
    appendNonNil ResClusterRole plugin components
      (info_ClusterRoles pluginInfo) in
  let components :=
    appendNonNil ResClusterRoleBinding plugin components
      (info_ClusterRoleBindings pluginInfo) in
  components.

(** The pointer a resource holds is nil. *)
Definition isNil (r : Resource) : bool :=
  match r with
  | ResRole None | ResRoleBinding None | ResConfigMap None
  | ResClusterRole None | ResClusterRoleBinding None => true
  | _ => false
  end.
End uiplugin.

(** The characters of a lower-case hexadecimal numeral. *)
Definition hexChars : list Ascii.ascii :=
  String.list_ascii_of_string "0123456789abcdef".

(** The line feed, as a string. *)
Definition newline : string := String (Ascii.ascii_of_nat 10) "".

(** A plugin description to run the builders on. *)
Definition somePlugin : uiplugin.UIPlugin :=
  {| uiplugin.pl_Name := "logging"; uiplugin.pl_Deployment := None |}.

Definition someInfo : uiplugin.UIPluginInfo :=
  {| uiplugin.info_Name := "logging";
     uiplugin.info_ConsoleName := "logging-view-plugin";
     uiplugin.info_DisplayName := "Logging View";
     uiplugin.info_Image := "quay.io/openshift-logging/logging-view-plugin";
     uiplugin.info_ExtraArgs := ["-features=dev-console"];
     uiplugin.info_ResourceNamespace := "observability";
     uiplugin.info_Proxies := [];
     uiplugin.info_Role := None;
     uiplugin.info_RoleBinding := Some (uiplugin.mkRoleBinding "logging-view");
     uiplugin.info_ConfigMap := Some cmAB;
     uiplugin.info_ClusterRoles :=
       [None; Some (uiplugin.mkClusterRole "logs-reader"); None];
     uiplugin.info_ClusterRoleBindings := [] |}.

(** [info] with another config map. *)
Definition withConfigMap (cm : option ConfigMap) (info : uiplugin.UIPluginInfo)
  : uiplugin.UIPluginInfo :=
  {| uiplugin.info_Name := uiplugin.info_Name info;
     uiplugin.info_ConsoleName := uiplugin.info_ConsoleName info;
     uiplugin.info_DisplayName := uiplugin.info_DisplayName info;
     uiplugin.info_Image := uiplugin.info_Image info;
     uiplugin.info_ExtraArgs := uiplugin.info_ExtraArgs info;
     uiplugin.info_ResourceNamespace := uiplugin.info_ResourceNamespace info;
     uiplugin.info_Proxies := uiplugin.info_Proxies info;
     uiplugin.info_Role := uiplugin.info_Role info;
     uiplugin.info_RoleBinding := uiplugin.info_RoleBinding info;
     uiplugin.info_ConfigMap := cm;
     uiplugin.info_ClusterRoles := uiplugin.info_ClusterRoles info;
     uiplugin.info_ClusterRoleBindings :=
       uiplugin.info_ClusterRoleBindings info |}.

(** The pod of a deployment. *)
Definition podOf (d : uiplugin.Deployment) : uiplugin.PodSpec :=
  uiplugin.tpl_Spec (uiplugin.Template (uiplugin.dep_Spec d)).

(** The annotations of the pod template of a deployment. *)
Definition podAnnotationsOf (d : uiplugin.Deployment) : gmap string string :=
  uiplugin.Annotations
    (uiplugin.tpl_ObjectMeta (uiplugin.Template (uiplugin.dep_Spec d))).

(** The two shapes of [newDeployment], with and without a config map,
    reduced to the fields a statement reads. *)
Ltac deployment_cases info config :=
  unfold podOf, podAnnotationsOf, uiplugin.newDeployment;
  destruct (uiplugin.info_ConfigMap info) as [?cm|];
  destruct (uiplugin.createNodeSelectorAndTolerations config) as [?sel ?tol];
  cbn [uiplugin.Containers uiplugin.Volumes uiplugin.NodeSelector
       uiplugin.Tolerations uiplugin.ServiceAccountName uiplugin.tpl_Spec
       uiplugin.tpl_ObjectMeta uiplugin.Template uiplugin.Selector
       uiplugin.dep_Spec uiplugin.dep_ObjectMeta uiplugin.Annotations
       uiplugin.Labels uiplugin.Name uiplugin.Namespace].

(** * Properties *)

(** ** Result constructors *)

(** C6: a result built by [end], [next], [requeue], [reconcileError],
    [creationResult] or [updationResult] that carries an error has
    [stop] set. *)
Theorem constructed_err_stop (r : reconcileResult) :
  Constructed r → err r ≠ None → stop r = true.
Proof.
  intros Hc Herr. destruct Hc as [| |d e|e|e|e]; simpl in *; try done.
  - unfold creationResult in *. destruct e as [e|]; [|done].
    destruct (IsAlreadyExists (Some e)); done.
  - unfold updationResult in *. destruct e as [e|]; [|done].
    destruct (IsConflict (Some e)); done.
Qed.

Lemma constructed_err_stop_witness :
  err (reconcileError (Some errInternal)) ≠ None
  ∧ stop (reconcileError (Some errInternal)) = true.
Proof.
  split; [done|].
  apply (constructed_err_stop (reconcileError (Some errInternal)));
    [constructor | done].
Defined.

(** C7: an update that failed with a version conflict gives a result
    without error that stops and asks for a requeue after a delay that is
    not zero (two seconds); an update that failed otherwise gives
    stop-with-error. *)
Theorem updationResult_conflict (e : StatusError) :
  (IsConflict (Some e) = true →
     err (updationResult (Some e)) = None
     ∧ stop (updationResult (Some e)) = true
     ∧ RequeueAfter (Result (updationResult (Some e))) = 2 * Second
     ∧ RequeueAfter (Result (updationResult (Some e))) ≠ 0)
  ∧ (IsConflict (Some e) = false →
     err (updationResult (Some e)) = Some e
     ∧ stop (updationResult (Some e)) = true).
Proof.
  unfold updationResult. split; intros ->.
  - repeat split; try reflexivity. vm_compute. discriminate.
  - repeat split; reflexivity.
Qed.

Lemma updationResult_conflict_witness :
  (err (updationResult (Some errConflict)) = None
   ∧ stop (updationResult (Some errConflict)) = true
   ∧ RequeueAfter (Result (updationResult (Some errConflict))) = 2 * Second
   ∧ RequeueAfter (Result (updationResult (Some errConflict))) ≠ 0)
  ∧ (err (updationResult (Some errInternal)) = Some errInternal
     ∧ stop (updationResult (Some errInternal)) = true).
Proof.
  split.
  - apply (proj1 (updationResult_conflict errConflict)). reflexivity.
  - apply (proj2 (updationResult_conflict errInternal)). reflexivity.
Defined.

(** C8: a create that failed because the object exists already gives the
    plain continue result, without error; a create that succeeded gives
    stop-without-error; a create that failed otherwise gives
    stop-with-error.  [creationResult] is a function of the error alone:
    it issues no request of its own. *)
Theorem creationResult_cases (e : StatusError) :
  (IsAlreadyExists (Some e) = true →
     creationResult (Some e) = next
     ∧ err (creationResult (Some e)) = None
     ∧ stop (creationResult (Some e)) = false)
  ∧ (creationResult None = end_
     ∧ err (creationResult None) = None
     ∧ stop (creationResult None) = true)
  ∧ (IsAlreadyExists (Some e) = false →
     err (creationResult (Some e)) = Some e
     ∧ stop (creationResult (Some e)) = true).
Proof.
  unfold creationResult. split; [|split].
  - intros ->. repeat split; reflexivity.
  - repeat split; reflexivity.
  - intros ->. repeat split; reflexivity.
Qed.

Lemma creationResult_cases_witness :
  creationResult (Some errAlreadyExists) = next
  ∧ creationResult None = end_
  ∧ err (creationResult (Some errInternal)) = Some errInternal
  ∧ stop (creationResult (Some errInternal)) = true.
Proof.
  split; [|split].
  - apply (proj1 (creationResult_cases errAlreadyExists)). reflexivity.
  - apply (proj1 (proj2 (creationResult_cases errAlreadyExists))).
  - apply (proj2 (proj2 (creationResult_cases errInternal))). reflexivity.
Defined.

(** ** The monad *)

Lemma bind_Ret {A B} (m : M A) (f : A → M B) w a w1 :
  m w = Ret a w1 → bind m f w = f a w1.
Proof. intros H. unfold bind. by rewrite H. Qed.

Lemma bind_Panic {A B} (m : M A) (f : A → M B) w w1 :
  m w = Panic w1 → bind m f w = Panic w1.
Proof. intros H. unfold bind. by rewrite H. Qed.

Lemma outcome_eta {A} (o : outcome A) a :
  resultOf o = Some a → o = Ret a (worldOf o).
Proof. destruct o; simpl; congruence. Qed.

(** Runs a closed call of the model: the value it returns is computed,
    the world it leaves is named by [worldOf]. *)
Ltac run_model := apply outcome_eta; vm_compute; reflexivity.

(** ** The pipeline *)

Lemma runReconcilers_continues ctx pre rest w w1 :
  Continues ctx pre w w1 →
  runReconcilers (pre ++ rest) ctx w = runReconcilers rest ctx w1.
Proof.
  induction 1 as [w|f fs w res w1 w2 Hf Hstop _ IH]; [done|].
  simpl. rewrite (bind_Ret _ _ _ _ _ Hf), Hstop. exact IH.
Qed.

Lemma runReconcilers_stops ctx f rest w res w1 :
  f ctx w = Ret res w1 → stop res = true →
  runReconcilers (f :: rest) ctx w = Ret (result res) w1.
Proof.
  intros Hf Hstop. simpl. by rewrite (bind_Ret _ _ _ _ _ Hf), Hstop.
Qed.

Lemma runReconcilers_panics ctx pre f rest w w1 w2 :
  Continues ctx pre w w1 → f ctx w1 = Panic w2 →
  runReconcilers (pre ++ f :: rest) ctx w = Panic w2.
Proof.
  intros Hpre Hf. rewrite (runReconcilers_continues _ _ _ _ _ Hpre).
  simpl. by rewrite (bind_Panic _ _ _ _ Hf).
Qed.

(** C5: the steps are run in the order of the list, each from the world
    its predecessor left; the run ends at the first step whose result has
    [stop] set, with that step's [ctrl.Result] and error and without
    running a later step; when no step stops, the outcome is the zero
    [ctrl.Result] and a nil error.  [Reconcile] is this loop over its six
    steps. *)
Theorem runReconcilers_pipeline (rs : list ReconcileFunc) ctx w :
  (∀ pre f post w1 res w2,
     rs = pre ++ f :: post →
     Continues ctx pre w w1 →
     f ctx w1 = Ret res w2 →
     stop res = true →
     runReconcilers rs ctx w = Ret (Result res, err res) w2)
  ∧ (∀ w', Continues ctx rs w w' →
     runReconcilers rs ctx w = Ret (zeroResult, None) w').
Proof.
  split.
  - intros pre f post w1 res w2 -> Hpre Hf Hstop.
    rewrite (runReconcilers_continues _ _ _ _ _ Hpre).
    by apply runReconcilers_stops.
  - intros w' Hall.
    rewrite <- (app_nil_r rs), (runReconcilers_continues _ _ _ _ _ Hall).
    reflexivity.
Qed.

Lemma runReconcilers_pipeline_witness :
  resultOf (Reconcile Background ("", "") emptyWorld) = Some (zeroResult, None)
  ∧ resultOf (Reconcile Background ("", "") convergedWorld)
    = Some (zeroResult, None).
Proof.
  unfold Reconcile. split.
  - pose (w1 := worldOf (reconcileNamespace Background emptyWorld)).
    assert (H1 : reconcileNamespace Background emptyWorld = Ret end_ w1)
      by run_model.
    rewrite (proj1 (runReconcilers_pipeline reconcilers Background emptyWorld)
               [] reconcileNamespace (tail reconcilers) emptyWorld end_ w1
               eq_refl (Continues_nil _ _) H1 eq_refl).
    reflexivity.
  - set (w0 := convergedWorld).
    pose (w1 := worldOf (reconcileNamespace Background w0)).
    pose (w2 := worldOf (reconcileOperatorGroup Background w1)).
    pose (w3 := worldOf (reconcileSubscription Background w2)).
    pose (w4 := worldOf (approveInstallPlan Background w3)).
    pose (w5 := worldOf (setGrafanaWatch Background w4)).
    pose (w6 := worldOf (reconcileGrafana Background w5)).
    assert (H1 : reconcileNamespace Background w0 = Ret next w1)
      by run_model.
    assert (H2 : reconcileOperatorGroup Background w1 = Ret next w2)
      by run_model.
    assert (H3 : reconcileSubscription Background w2 = Ret next w3)
      by run_model.
    assert (H4 : approveInstallPlan Background w3 = Ret next w4)
      by run_model.
    assert (H5 : setGrafanaWatch Background w4 = Ret next w5)
      by run_model.
    assert (H6 : reconcileGrafana Background w5 = Ret next w6)
      by run_model.
    rewrite (proj2 (runReconcilers_pipeline reconcilers Background w0) w6).
    + reflexivity.
    + unfold reconcilers.
      eapply Continues_cons; [exact H1 | reflexivity |].
      eapply Continues_cons; [exact H2 | reflexivity |].
      eapply Continues_cons; [exact H3 | reflexivity |].
      eapply Continues_cons; [exact H4 | reflexivity |].
      eapply Continues_cons; [exact H5 | reflexivity |].
      eapply Continues_cons; [exact H6 | reflexivity |].
      apply Continues_nil.
Defined.

(** ** Relations every request and every step preserves *)

Section Preserves.
Context (R : relation World) `{!PreOrder R}.

Lemma preserves_ret {A} (a : A) : preserves R (ret a).
Proof. intros w. simpl. reflexivity. Qed.

Lemma preserves_panic {A} : preserves R (@panic A).
Proof. intros w. simpl. reflexivity. Qed.

Lemma preserves_bind {A B} (m : M A) (f : A → M B) :
  preserves R m → (∀ a, preserves R (f a)) → preserves R (bind m f).
Proof.
  intros Hm Hf w. unfold bind. specialize (Hm w).
  destruct (m w) as [a w1|w1]; simpl in *; [|done].
  etrans; [exact Hm | apply Hf].
Qed.

Lemma preserves_runReconcilers rs ctx :
  Forall (λ f : ReconcileFunc, preserves R (f ctx)) rs →
  preserves R (runReconcilers rs ctx).
Proof.
  induction 1 as [|f fs Hf _ IH]; simpl.
  - apply preserves_ret.
  - apply preserves_bind; [done|]. intros res.
    destruct (stop res); [apply preserves_ret | done].
Qed.
End Preserves.

#[global] Instance gateKept_preorder : PreOrder gateKept.
Proof.
  split; [by intros w | intros w1 w2 w3; unfold gateKept; congruence].
Qed.

#[global] Instance gateNotReset_preorder : PreOrder gateNotReset.
Proof.
  split; [intros w Hw; exact Hw | intros w1 w2 w3; unfold gateNotReset; auto].
Qed.

Lemma gateKept_notReset {A} (m : M A) :
  preserves gateKept m → preserves gateNotReset m.
Proof. intros H w Hw. by rewrite (H w). Qed.

Create HintDb gate.

Lemma request_gate c : preserves gateKept (request c).
Proof. intros w. unfold request. simpl. by destruct (faults w). Qed.
#[global] Hint Resolve request_gate : gate.

(** Closes [preserves R m] for a request of the client: the injected
    answer and the look-up in the store are taken apart. *)
Ltac request_preserves :=
  apply preserves_bind; [apply _ | apply request_gate |];
  intros [e|]; [apply preserves_ret; apply _ |];
  intros w; unfold gateKept; simpl; repeat case_match; simpl;
  rewrite ?set_stored_gate; reflexivity.

Lemma Get_gate {T} `{ClientObject T} (zero : T) ctx key :
  preserves gateKept (Get zero ctx key).
Proof. unfold Get. request_preserves. Qed.

Lemma Create_gate {T} `{ClientObject T} ctx (o : T) :
  preserves gateKept (Create ctx o).
Proof. unfold Create. request_preserves. Qed.

Lemma Update_gate {T} `{ClientObject T} ctx (o : T) :
  preserves gateKept (Update ctx o).
Proof. unfold Update. request_preserves. Qed.

Lemma Delete_gate {T} `{ClientObject T} ctx (o : T) :
  preserves gateKept (Delete ctx o).
Proof. unfold Delete. request_preserves. Qed.

Lemma ListInstallPlans_gate ctx ns :
  preserves gateKept (ListInstallPlans ctx ns).
Proof. unfold ListInstallPlans. request_preserves. Qed.

Lemma UpdateInstallPlan_gate ctx p :
  preserves gateKept (UpdateInstallPlan ctx p).
Proof. unfold UpdateInstallPlan. request_preserves. Qed.

Lemma ListGrafanaDataSources_gate ctx ns :
  preserves gateKept (ListGrafanaDataSources ctx ns).
Proof. unfold ListGrafanaDataSources. request_preserves. Qed.

Lemma Watch_gate k : preserves gateKept (Watch k).
Proof. unfold Watch. request_preserves. Qed.

#[global] Hint Resolve Get_gate Create_gate Update_gate Delete_gate
  ListInstallPlans_gate UpdateInstallPlan_gate ListGrafanaDataSources_gate
  Watch_gate : gate.

(** Walks through the body of a step: binds, returns, panics, and the
    tests in between. *)
Ltac step_preserves :=
  repeat first
    [ apply preserves_ret; apply _
    | apply preserves_panic; apply _
    | solve [auto with gate]
    | apply preserves_bind; [apply _ | | intros ?]
    | match goal with
      | |- preserves _ (let '(_, _) := ?x in _) => destruct x
      | |- preserves _ (if ?c then _ else _) => destruct c
      | |- preserves _ (match ?x with _ => _ end) => destruct x
      end ].

Lemma reconcileNamespace_gate ctx : preserves gateKept (reconcileNamespace ctx).
Proof. unfold reconcileNamespace. step_preserves. Qed.

Lemma reconcileOperatorGroup_gate ctx :
  preserves gateKept (reconcileOperatorGroup ctx).
Proof. unfold reconcileOperatorGroup. step_preserves. Qed.

Lemma reconcileSubscription_gate ctx :
  preserves gateKept (reconcileSubscription ctx).
Proof. unfold reconcileSubscription, deref. step_preserves. Qed.

Lemma scanInstallPlans_gate items : preserves gateKept (scanInstallPlans items).
Proof.
  induction items as [|p items IH]; simpl; [apply preserves_ret; apply _|].
  unfold index0. step_preserves.
Qed.
#[global] Hint Resolve scanInstallPlans_gate : gate.

Lemma approveInstallPlan_gate ctx : preserves gateKept (approveInstallPlan ctx).
Proof. unfold approveInstallPlan. step_preserves. Qed.

Lemma reconcileGrafana_gate ctx : preserves gateKept (reconcileGrafana ctx).
Proof. unfold reconcileGrafana. step_preserves. Qed.

#[global] Hint Resolve reconcileNamespace_gate reconcileOperatorGroup_gate
  reconcileSubscription_gate approveInstallPlan_gate reconcileGrafana_gate
  : gate.

(** ** The watch gate *)

Lemma setGrafanaWatch_established ctx w :
  grafanaWatchEstablished w = true → setGrafanaWatch ctx w = Ret next w.
Proof. intros Hw. unfold setGrafanaWatch, bind. by rewrite Hw. Qed.

Lemma setGrafanaWatch_notReset ctx :
  preserves gateNotReset (setGrafanaWatch ctx).
Proof. intros w Hw. by rewrite setGrafanaWatch_established. Qed.

Lemma reconcilers_notReset ctx :
  Forall (λ f : ReconcileFunc, preserves gateNotReset (f ctx)) reconcilers.
Proof.
  unfold reconcilers.
  repeat (apply Forall_cons_2;
          [first [ apply setGrafanaWatch_notReset
                 | apply gateKept_notReset; auto with gate ]|]).
  apply Forall_nil_2.
Qed.

Lemma probe_returns ctx ns w :
  ∃ e w1, ListGrafanaDataSources ctx ns w = Ret e w1.
Proof.
  unfold ListGrafanaDataSources, bind, request, ret.
  repeat case_match; simplify_eq; eauto.
Qed.

Lemma Watch_returns k w : ∃ e w1, Watch k w = Ret e w1.
Proof.
  unfold Watch, bind, request, ret. repeat case_match; simplify_eq; eauto.
Qed.

Lemma Watch_registers k w w1 : Watch k w = Ret None w1 → k ∈ watches w1.
Proof.
  unfold Watch, bind, request, ret.
  repeat case_match; intros; simplify_eq; simpl; set_solver.
Qed.

Lemma setGrafanaWatch_clear ctx w :
  grafanaWatchEstablished w = false →
  setGrafanaWatch ctx w =
    match ListGrafanaDataSources Background "default" w with
    | Ret (Some _) w1 => Ret (requeue (10 * Second) None) w1
    | Ret None w1 =>
        match Watch KGrafana w1 with
        | Ret (Some e) w2 => Ret (reconcileError (Some e)) w2
        | Ret None w2 => Ret next (set_grafanaWatchEstablished true w2)
        | Panic w2 => Panic w2
        end
    | Panic w1 => Panic w1
    end.
Proof.
  intros Hw. unfold setGrafanaWatch, bind. rewrite Hw.
  destruct (ListGrafanaDataSources _ _ w) as [[e|] w1|w1]; simpl; try done.
  destruct (Watch KGrafana w1) as [[e|] w2|w2]; done.
Qed.

(** The probe records its request and changes neither the store nor the
    watches. *)
Lemma probe_spec ctx ns w e w1 :
  ListGrafanaDataSources ctx ns w = Ret e w1 →
  issued w w1 [CallList KGrafanaDataSource ns]
  ∧ sameStore w w1
  ∧ watches w1 = watches w.
Proof.
  unfold ListGrafanaDataSources, bind, request, ret, issued, sameStore,
    sameOutsidePlans.
  repeat case_match; intros; simplify_eq; simpl; repeat split; done.
Qed.

(** A registration records its request, changes nothing in the store,
    and adds the kind to the watches exactly when it succeeds. *)
Lemma Watch_spec k w e w1 :
  Watch k w = Ret e w1 →
  issued w w1 [CallWatch k]
  ∧ sameStore w w1
  ∧ (e = None → watches w1 = watches w ++ [k])
  ∧ (e ≠ None → watches w1 = watches w).
Proof.
  unfold Watch, bind, request, ret, issued, sameStore, sameOutsidePlans.
  repeat case_match; intros; simplify_eq; simpl; repeat split; done.
Qed.

(** C9: with the flag set, [setGrafanaWatch] returns continue and leaves
    the world as it is.  With the flag clear: a failed probe gives a
    ten-second requeue with nil error, a failed watch registration gives
    stop-with-error, both leaving the flag clear; a registration that
    succeeded continues with the flag set to true in the world that is
    left, the watch on Grafana added, the probe and the registration the
    only requests and the store as it was; and the flag comes out set only
    if the registration succeeded.  No step, and so no run of
    [Reconcile], clears a flag that is set. *)
Theorem setGrafanaWatch_gate ctx w :
  (grafanaWatchEstablished w = true → setGrafanaWatch ctx w = Ret next w)
  ∧ (grafanaWatchEstablished w = false →
     (∀ e w1,
        ListGrafanaDataSources Background "default" w = Ret (Some e) w1 →
        setGrafanaWatch ctx w = Ret (requeue (10 * Second) None) w1
        ∧ grafanaWatchEstablished w1 = false)
     ∧ (∀ w1 e w2,
        ListGrafanaDataSources Background "default" w = Ret None w1 →
        Watch KGrafana w1 = Ret (Some e) w2 →
        setGrafanaWatch ctx w = Ret (reconcileError (Some e)) w2
        ∧ grafanaWatchEstablished w2 = false)
     ∧ (∀ w1 w2,
        ListGrafanaDataSources Background "default" w = Ret None w1 →
        Watch KGrafana w1 = Ret None w2 →
        setGrafanaWatch ctx w
          = Ret next (set_grafanaWatchEstablished true w2)
        ∧ grafanaWatchEstablished (worldOf (setGrafanaWatch ctx w)) = true
        ∧ watches (worldOf (setGrafanaWatch ctx w)) = watches w ++ [KGrafana]
        ∧ issued w (worldOf (setGrafanaWatch ctx w))
            [CallList KGrafanaDataSource "default"; CallWatch KGrafana]
        ∧ sameStore w (worldOf (setGrafanaWatch ctx w)))
     ∧ (grafanaWatchEstablished (worldOf (setGrafanaWatch ctx w)) = true →
        ∃ w1 w2,
          ListGrafanaDataSources Background "default" w = Ret None w1
          ∧ Watch KGrafana w1 = Ret None w2
          ∧ KGrafana ∈ watches w2))
  ∧ requeue (10 * Second) None
    = {| Result := {| Requeue := false; RequeueAfter := 10000000000 |};
         err := None; stop := true |}
  ∧ Forall (λ f : ReconcileFunc,
              ∀ w0, grafanaWatchEstablished w0 = true →
                    grafanaWatchEstablished (worldOf (f ctx w0)) = true)
           reconcilers
  ∧ (∀ req w0, grafanaWatchEstablished w0 = true →
               grafanaWatchEstablished (worldOf (Reconcile ctx req w0)) = true).
Proof.
  split; [apply setGrafanaWatch_established|].
  split; [|split; [reflexivity|split]].
  - intros Hw. pose proof (setGrafanaWatch_clear ctx w Hw) as Hrun.
    pose proof (ListGrafanaDataSources_gate Background "default" w) as Hprobe.
    unfold gateKept in Hprobe.
    split; [|split; [|split]].
    + intros e w1 Hl. rewrite Hl in Hrun, Hprobe. simpl in Hprobe.
      split; [exact Hrun | congruence].
    + intros w1 e w2 Hl Hr. rewrite Hl, Hr in Hrun.
      rewrite Hl in Hprobe. simpl in Hprobe.
      pose proof (Watch_gate KGrafana w1) as Hwatch. unfold gateKept in Hwatch.
      rewrite Hr in Hwatch. simpl in Hwatch.
      split; [exact Hrun | congruence].
    + intros w1 w2 Hl Hr. rewrite Hl, Hr in Hrun.
      destruct (probe_spec _ _ _ _ _ Hl) as (Hc1 & Hs1 & Hw1).
      destruct (Watch_spec _ _ _ _ Hr) as (Hc2 & Hs2 & Hw2 & _).
      split; [exact Hrun|]. rewrite Hrun. cbn [worldOf].
      split; [reflexivity|].
      split; [cbn [set_grafanaWatchEstablished watches];
              by rewrite (Hw2 eq_refl), Hw1|].
      split.
      { unfold issued in *. cbn [set_grafanaWatchEstablished calls].
        by rewrite Hc2, Hc1, <- app_assoc. }
      unfold sameStore, sameOutsidePlans in *.
      cbn [set_grafanaWatchEstablished namespaces operatorGroups subscriptions
           clusterServiceVersions grafanas dataSourceKindServed installPlans].
      intuition congruence.
    + rewrite Hrun. clear Hrun.
      destruct (probe_returns Background "default" w) as (e & w1 & Hl).
      rewrite Hl in *. simpl in Hprobe.
      destruct e as [e|]; simpl; [congruence|].
      pose proof (Watch_gate KGrafana w1) as Hwatch. unfold gateKept in Hwatch.
      destruct (Watch_returns KGrafana w1) as (e & w2 & Hr).
      rewrite Hr in *. simpl in Hwatch.
      destruct e as [e|]; simpl; [congruence|].
      intros _. exists w1, w2. eauto using Watch_registers.
  - eapply Forall_impl; [apply reconcilers_notReset|].
    intros f Hf w0. apply Hf.
  - intros req w0.
    apply (preserves_runReconcilers gateNotReset _ _ (reconcilers_notReset ctx)).
Qed.

Lemma setGrafanaWatch_gate_witness :
  setGrafanaWatch Background convergedWorld = Ret next convergedWorld
  ∧ (resultOf (setGrafanaWatch Background servedWorld) = Some next
     ∧ grafanaWatchEstablished (worldOf (setGrafanaWatch Background servedWorld))
       = true
     ∧ watches (worldOf (setGrafanaWatch Background servedWorld)) = [KGrafana])
  ∧ resultOf (setGrafanaWatch Background (settledWorld [approvedPlan]))
    = Some (requeue (10 * Second) None).
Proof.
  split; [|split].
  - apply (proj1 (setGrafanaWatch_gate Background convergedWorld)).
    reflexivity.
  - set (w := servedWorld).
    pose (w1 := worldOf (ListGrafanaDataSources Background "default" w)).
    pose (w2 := worldOf (Watch KGrafana w1)).
    assert (Hl : ListGrafanaDataSources Background "default" w = Ret None w1)
      by run_model.
    assert (Hr : Watch KGrafana w1 = Ret None w2) by run_model.
    destruct (proj1 (proj2 (proj2 (proj1 (proj2 (setGrafanaWatch_gate
                                                   Background w))
                                     eq_refl))) w1 w2 Hl Hr)
      as (Hrun & Hflag & Hwatches & _).
    split; [by rewrite Hrun|]. split; [exact Hflag|exact Hwatches].
  - set (w := settledWorld [approvedPlan]).
    pose (w1 := worldOf (ListGrafanaDataSources Background "default" w)).
    assert (Hl : ListGrafanaDataSources Background "default" w
                 = Ret (Some errNoKindMatch) w1) by run_model.
    rewrite (proj1 (proj1 (proj1 (proj2 (setGrafanaWatch_gate Background w))
                             eq_refl) errNoKindMatch w1 Hl)).
    reflexivity.
Defined.

(** ** Install-plan approval *)

Lemma ListInstallPlans_returns ctx ns w :
  ∃ items e w1, ListInstallPlans ctx ns w = Ret (items, e) w1.
Proof.
  unfold ListInstallPlans, bind, request, ret.
  repeat case_match; simplify_eq; eauto.
Qed.

Lemma ListInstallPlans_spec ctx ns w items e w1 :
  ListInstallPlans ctx ns w = Ret (items, e) w1 →
  issued w w1 [CallList KInstallPlan ns] ∧ sameStore w w1.
Proof.
  unfold ListInstallPlans, bind, request, ret, issued.
  repeat case_match; intros; simplify_eq; simpl; repeat split.
Qed.

Lemma UpdateInstallPlan_returns ctx p w :
  ∃ e w1, UpdateInstallPlan ctx p w = Ret e w1.
Proof.
  unfold UpdateInstallPlan, bind, request, ret.
  repeat case_match; simplify_eq; eauto.
Qed.

Lemma UpdateInstallPlan_spec ctx p w e w1 :
  UpdateInstallPlan ctx p w = Ret e w1 →
  issued w w1 [CallUpdate (ObjInstallPlan p)]
  ∧ sameOutsidePlans w w1
  ∧ (e = None → installPlans w1 = replacePlan p (installPlans w))
  ∧ (e ≠ None → installPlans w1 = installPlans w).
Proof.
  unfold UpdateInstallPlan, bind, request, ret, issued.
  repeat case_match; intros; simplify_eq; simpl; repeat split; done.
Qed.

(** The test of the loop, read as a proposition. *)
Lemma ignored_iff p csv names :
  v1alpha1.ClusterServiceVersionNames (v1alpha1.ip_Spec p) = csv :: names →
  negb (String.eqb csv grafanaCSV)
  || Nat.eqb (length (v1alpha1.BundleLookups (v1alpha1.ip_Status p))) 0
  = false
  ↔ matchesGrafana p.
Proof.
  intros Hn. unfold matchesGrafana. rewrite Hn. simpl.
  rewrite orb_false_iff, negb_false_iff, String.eqb_eq, Nat.eqb_neq.
  rewrite length_zero_iff_nil. split; intros [H1 H2]; split; congruence.
Qed.

Lemma scanInstallPlans_skip pre rest w :
  Forall (λ q, hasTargets q ∧ ¬ matchesGrafana q) pre →
  scanInstallPlans (pre ++ rest) w = scanInstallPlans rest w.
Proof.
  induction 1 as [|q pre [Ht Hm] _ IH]; [done|].
  simpl. unfold hasTargets in Ht.
  destruct (v1alpha1.ClusterServiceVersionNames (v1alpha1.ip_Spec q))
    as [|csv names] eqn:Hn; [done|].
  unfold bind at 1. simpl.
  destruct (negb (String.eqb csv grafanaCSV) || _) eqn:Htest; [exact IH|].
  apply (ignored_iff _ _ _ Hn) in Htest. done.
Qed.

Lemma scanInstallPlans_match p rest w :
  matchesGrafana p →
  scanInstallPlans (p :: rest) w =
    if v1alpha1.Approved (v1alpha1.ip_Spec p)
    then Ret (scanReturn next) w
    else Ret (scanDone (Some p)) w.
Proof.
  intros Hm. pose proof Hm as [Hh _]. simpl.
  destruct (v1alpha1.ClusterServiceVersionNames (v1alpha1.ip_Spec p))
    as [|csv names] eqn:Hn; [done|].
  unfold bind. simpl.
  apply (ignored_iff _ _ _ Hn) in Hm. rewrite Hm.
  by destruct (v1alpha1.Approved _).
Qed.

Lemma scanInstallPlans_none items w :
  Forall (λ q, hasTargets q ∧ ¬ matchesGrafana q) items →
  scanInstallPlans items w = Ret (scanDone None) w.
Proof.
  intros H. rewrite <- (app_nil_r items).
  by rewrite scanInstallPlans_skip.
Qed.

Lemma scanInstallPlans_total items w :
  Forall hasTargets items → ∃ exit, scanInstallPlans items w = Ret exit w.
Proof.
  induction 1 as [|q items Ht _ IH]; simpl; [by eexists|].
  unfold hasTargets in Ht.
  destruct (v1alpha1.ClusterServiceVersionNames (v1alpha1.ip_Spec q))
    as [|csv names]; [done|].
  unfold bind at 1. simpl. repeat case_match; eauto.
Qed.

(** Past the listing, [approveInstallPlan] is its scan and what follows
    it. *)
Lemma approveInstallPlan_listed ctx w items w1 :
  ListInstallPlans ctx Namespace w = Ret (items, None) w1 →
  approveInstallPlan ctx w =
    match scanInstallPlans items w1 with
    | Ret (scanReturn r) w2 => Ret r w2
    | Ret (scanDone None) w2 => Ret end_ w2
    | Ret (scanDone (Some approvePlan)) w2 =>
        bind (UpdateInstallPlan ctx (setApproved approvePlan))
             (λ err, ret (updationResult err)) w2
    | Panic w2 => Panic w2
    end.
Proof.
  intros Hl. unfold approveInstallPlan.
  rewrite (bind_Ret _ _ _ _ _ Hl). simpl.
  destruct items as [|p items]; [done|].
  change (Nat.eqb (length (p :: items)) 0) with false. cbv iota.
  unfold bind at 1.
  destruct (scanInstallPlans (p :: items) w1) as [[r|[q|]] w2|w2]; done.
Qed.

(** A listing without a match is scanned to its end when every plan names
    a target version, and makes the indexing panic otherwise; the scan
    itself leaves the world as it is. *)
Lemma scanInstallPlans_unmatched items w :
  Forall (λ q, ¬ matchesGrafana q) items →
  (Forall hasTargets items → scanInstallPlans items w = Ret (scanDone None) w)
  ∧ (¬ Forall hasTargets items → scanInstallPlans items w = Panic w).
Proof.
  induction 1 as [|q items Hm _ [IHall IHsome]].
  - split; [done|]. intros H. destruct H. apply Forall_nil_2.
  - destruct (v1alpha1.ClusterServiceVersionNames (v1alpha1.ip_Spec q))
      as [|csv names] eqn:Hn.
    + assert (Hstep : scanInstallPlans (q :: items) w = Panic w)
        by (simpl; by rewrite Hn).
      split; [|done]. intros Hall. apply Forall_cons_1 in Hall as [Hq _].
      by unfold hasTargets in Hq.
    + assert (Hstep : scanInstallPlans (q :: items) w
                      = scanInstallPlans items w).
      { simpl. rewrite Hn. unfold bind at 1. simpl.
        destruct (negb (String.eqb csv grafanaCSV) || _) eqn:Htest; [done|].
        by apply (ignored_iff _ _ _ Hn) in Htest. }
      rewrite Hstep. split.
      * intros Hall. apply Forall_cons_1 in Hall as [_ Hall]. auto.
      * intros Hsome. apply IHsome. intros Hall. apply Hsome.
        apply Forall_cons_2; [|exact Hall]. unfold hasTargets.
        by rewrite Hn.
Qed.

(** C1, as the code has it: of the listed plans the first whose first
    target version is the desired one and whose status has lookup results
    decides; when the plans listed before it each name a target version
    and it is not yet approved, exactly one update is issued, for that plan
    with [Approved] set, and when the update succeeds the stored plan of
    that identity is replaced and every other stored plan is as it was;
    when it is approved already the step continues without a write; when
    no listed plan matches, the step writes nothing in any case: the list
    is its only request and the store is as it was; it stops without
    error when every listed plan names a target version, and panics on
    the indexing when one does not. *)
Theorem approveInstallPlan_selection ctx w items w1 :
  ListInstallPlans ctx Namespace w = Ret (items, None) w1 →
  (∀ pre p post e w2,
     items = pre ++ p :: post →
     Forall (λ q, hasTargets q ∧ ¬ matchesGrafana q) pre →
     matchesGrafana p →
     v1alpha1.Approved (v1alpha1.ip_Spec p) = false →
     UpdateInstallPlan ctx (setApproved p) w1 = Ret e w2 →
     approveInstallPlan ctx w = Ret (updationResult e) w2
     ∧ issued w w2 [ CallList KInstallPlan Namespace;
                     CallUpdate (ObjInstallPlan (setApproved p)) ]
     ∧ v1alpha1.Approved (v1alpha1.ip_Spec (setApproved p)) = true
     ∧ sameOutsidePlans w w2
     ∧ (e = None →
        installPlans w2 = replacePlan (setApproved p) (installPlans w))
     ∧ (e ≠ None → installPlans w2 = installPlans w))
  ∧ (∀ pre p post,
     items = pre ++ p :: post →
     Forall (λ q, hasTargets q ∧ ¬ matchesGrafana q) pre →
     matchesGrafana p →
     v1alpha1.Approved (v1alpha1.ip_Spec p) = true →
     approveInstallPlan ctx w = Ret next w1
     ∧ issued w w1 [ CallList KInstallPlan Namespace ]
     ∧ sameStore w w1)
  ∧ (Forall (λ q, hasTargets q ∧ ¬ matchesGrafana q) items →
     approveInstallPlan ctx w = Ret end_ w1
     ∧ err end_ = None ∧ stop end_ = true
     ∧ issued w w1 [ CallList KInstallPlan Namespace ]
     ∧ sameStore w w1)
  ∧ (Forall (λ q, ¬ matchesGrafana q) items →
     issued w (worldOf (approveInstallPlan ctx w))
       [ CallList KInstallPlan Namespace ]
     ∧ sameStore w (worldOf (approveInstallPlan ctx w))
     ∧ (Forall hasTargets items →
        resultOf (approveInstallPlan ctx w) = Some end_)
     ∧ (¬ Forall hasTargets items →
        resultOf (approveInstallPlan ctx w) = None)).
Proof.
  intros Hl.
  pose proof (approveInstallPlan_listed _ _ _ _ Hl) as Hrun.
  destruct (ListInstallPlans_spec _ _ _ _ _ _ Hl) as [Hcalls Hstore].
  split; [|split; [|split]].
  - intros pre p post e w2 -> Hpre Hm Happ Hu.
    rewrite scanInstallPlans_skip, scanInstallPlans_match, Happ in Hrun
      by done.
    rewrite (bind_Ret _ _ _ _ _ Hu) in Hrun.
    destruct (UpdateInstallPlan_spec _ _ _ _ _ Hu) as (Hc & Ho & Hok & Hko).
    destruct Hstore as [Ho1 Hp1].
    split; [exact Hrun|]. split.
    { unfold issued in *. rewrite Hc, Hcalls, <- app_assoc. reflexivity. }
    split; [reflexivity|]. split.
    { unfold sameOutsidePlans in *. intuition congruence. }
    split; intros He; [rewrite (Hok He) | rewrite (Hko He)]; congruence.
  - intros pre p post -> Hpre Hm Happ.
    rewrite scanInstallPlans_skip, scanInstallPlans_match, Happ in Hrun
      by done.
    done.
  - intros Hnone. rewrite scanInstallPlans_none in Hrun by done. done.
  - intros Hnone.
    destruct (scanInstallPlans_unmatched items w1 Hnone) as [Hall Hsome].
    assert (Hw : worldOf (approveInstallPlan ctx w) = w1).
    { rewrite Hrun.
      assert (Hdec : ∀ q, Decision (hasTargets q))
        by (intros q; unfold hasTargets; apply _).
      destruct (Forall_dec hasTargets items) as [Ht|Ht];
        [by rewrite (Hall Ht) | by rewrite (Hsome Ht)]. }
    rewrite Hw. split; [exact Hcalls|]. split; [exact Hstore|].
    split; intros Ht; rewrite Hrun;
      [by rewrite (Hall Ht) | by rewrite (Hsome Ht)].
Qed.

Lemma approveInstallPlan_selection_witness :
  resultOf (approveInstallPlan Background (settledWorld [otherPlan; readyPlan]))
    = Some next
  ∧ installPlans (worldOf (approveInstallPlan Background
                             (settledWorld [otherPlan; readyPlan])))
    = [otherPlan; setApproved readyPlan]
  ∧ resultOf (approveInstallPlan Background
                (settledWorld [otherPlan; untargetedPlan]))
    = None.
Proof.
  assert (Hpanic : resultOf (approveInstallPlan Background
                               (settledWorld [otherPlan; untargetedPlan]))
                    = None).
  { pose (w := settledWorld [otherPlan; untargetedPlan]).
    pose (w1 := worldOf (ListInstallPlans Background Namespace w)).
    assert (Hl : ListInstallPlans Background Namespace w
                 = Ret ([otherPlan; untargetedPlan], None) w1)
      by run_model.
    assert (Hnone : Forall (λ q, ¬ matchesGrafana q)
                      [otherPlan; untargetedPlan]).
    { repeat apply Forall_cons_2; try apply Forall_nil_2;
        intros [Hh _]; discriminate Hh. }
    destruct (proj2 (proj2 (proj2 (approveInstallPlan_selection Background w
                                     _ w1 Hl))) Hnone)
      as (_ & _ & _ & Hsome).
    apply Hsome. intros Hall. apply Forall_cons_1 in Hall as [_ Hall].
    apply Forall_cons_1 in Hall as [Hq _]. by apply Hq. }
  cut (resultOf (approveInstallPlan Background
                   (settledWorld [otherPlan; readyPlan])) = Some next
       ∧ installPlans (worldOf (approveInstallPlan Background
                                  (settledWorld [otherPlan; readyPlan])))
         = [otherPlan; setApproved readyPlan]).
  { intros [H1 H2]. exact (conj H1 (conj H2 Hpanic)). }
  clear Hpanic.
  pose (w := settledWorld [otherPlan; readyPlan]).
  pose (w1 := worldOf (ListInstallPlans Background Namespace w)).
  pose (w2 := worldOf (UpdateInstallPlan Background (setApproved readyPlan) w1)).
  assert (Hl : ListInstallPlans Background Namespace w
               = Ret ([otherPlan; readyPlan], None) w1)
    by run_model.
  assert (Hu : UpdateInstallPlan Background (setApproved readyPlan) w1
               = Ret None w2) by run_model.
  assert (Hpre : Forall (λ q, hasTargets q ∧ ¬ matchesGrafana q) [otherPlan]).
  { apply Forall_cons_2; [|apply Forall_nil_2].
    split; [discriminate | intros [Hh _]; discriminate Hh]. }
  assert (Hm : matchesGrafana readyPlan)
    by (split; [reflexivity | discriminate]).
  destruct (proj1 (approveInstallPlan_selection Background w _ w1 Hl)
              [otherPlan] readyPlan [] None w2 eq_refl Hpre Hm eq_refl Hu)
    as (Hrun & _ & _ & _ & Hok & _).
  fold w. rewrite Hrun. split; [reflexivity|].
  change (installPlans w2 = [otherPlan; setApproved readyPlan]).
  rewrite (Hok eq_refl). compute_done.
Defined.

(** C1 as stated fails, at three listings.  A plan whose target versions
    contain the desired one, only not in first place, with lookup results
    and not approved, is not approved: no update is issued and the step
    waits.  A plan that is ready for approval but listed after an approved
    one is not approved either: the step continues without a write.  And
    with a plan without target versions listed first, the step does not
    return at all. *)
Lemma approveInstallPlan_contains_counterexample :
  (grafanaCSV
     ∈ v1alpha1.ClusterServiceVersionNames (v1alpha1.ip_Spec secondPlan)
   ∧ v1alpha1.BundleLookups (v1alpha1.ip_Status secondPlan) ≠ []
   ∧ v1alpha1.Approved (v1alpha1.ip_Spec secondPlan) = false
   ∧ resultOf (approveInstallPlan Background (settledWorld [secondPlan]))
     = Some end_
   ∧ calls (worldOf (approveInstallPlan Background (settledWorld [secondPlan])))
     = [ CallList KInstallPlan Namespace ]
   ∧ installPlans (worldOf (approveInstallPlan Background
                              (settledWorld [secondPlan])))
     = [ secondPlan ])
  ∧ (v1alpha1.Approved (v1alpha1.ip_Spec approvedPlan) = true
     ∧ matchesGrafana readyPlan
     ∧ v1alpha1.Approved (v1alpha1.ip_Spec readyPlan) = false
     ∧ resultOf (approveInstallPlan Background
                   (settledWorld [approvedPlan; readyPlan]))
       = Some next
     ∧ calls (worldOf (approveInstallPlan Background
                         (settledWorld [approvedPlan; readyPlan])))
       = [ CallList KInstallPlan Namespace ]
     ∧ installPlans (worldOf (approveInstallPlan Background
                                (settledWorld [approvedPlan; readyPlan])))
       = [ approvedPlan; readyPlan ])
  ∧ (matchesGrafana readyPlan
     ∧ resultOf (approveInstallPlan Background
                   (settledWorld [untargetedPlan; readyPlan]))
       = None).
Proof.
  assert (Hready : matchesGrafana readyPlan)
    by (split; [reflexivity | discriminate]).
  split; [|split].
  - split; [|split; [|split; [|split; [|split]]]].
    + unfold secondPlan. simpl. set_solver.
    + discriminate.
    + reflexivity.
    + compute_done.
    + compute_done.
    + compute_done.
  - split; [reflexivity|]. split; [exact Hready|]. split; [reflexivity|].
    split; [|split]; compute_done.
  - split; [exact Hready | compute_done].
Qed.

(** C2, as the code has it: when the first matching plan is not yet
    approved and the update succeeds, the step's result is the plain
    continue result ([stop] is false, no error, no delay), and the steps
    after [approveInstallPlan] are run in the same invocation, from the
    world the update left. *)
Theorem approveInstallPlan_updated_continues ctx w items w1 pre p post w2 :
  ListInstallPlans ctx Namespace w = Ret (items, None) w1 →
  items = pre ++ p :: post →
  Forall (λ q, hasTargets q ∧ ¬ matchesGrafana q) pre →
  matchesGrafana p →
  v1alpha1.Approved (v1alpha1.ip_Spec p) = false →
  UpdateInstallPlan ctx (setApproved p) w1 = Ret None w2 →
  approveInstallPlan ctx w = Ret next w2
  ∧ stop next = false ∧ err next = None ∧ Result next = zeroResult
  ∧ ∀ rest,
      runReconcilers (approveInstallPlan :: rest) ctx w
      = runReconcilers rest ctx w2.
Proof.
  intros Hl -> Hpre Hm Happ Hu.
  pose proof (approveInstallPlan_listed _ _ _ _ Hl) as Hrun.
  rewrite scanInstallPlans_skip, scanInstallPlans_match, Happ in Hrun by done.
  rewrite (bind_Ret _ _ _ _ _ Hu) in Hrun. simpl in Hrun.
  repeat split; [exact Hrun|].
  intros rest. simpl. by rewrite (bind_Ret _ _ _ _ _ Hrun).
Qed.

Lemma approveInstallPlan_updated_continues_witness :
  resultOf (approveInstallPlan Background (settledWorld [readyPlan]))
    = Some next
  ∧ runReconcilers [approveInstallPlan; setGrafanaWatch; reconcileGrafana]
      Background (settledWorld [readyPlan])
    = runReconcilers [setGrafanaWatch; reconcileGrafana] Background
        (worldOf (approveInstallPlan Background (settledWorld [readyPlan]))).
Proof.
  pose (w := settledWorld [readyPlan]).
  pose (w1 := worldOf (ListInstallPlans Background Namespace w)).
  pose (w2 := worldOf (UpdateInstallPlan Background (setApproved readyPlan) w1)).
  assert (Hl : ListInstallPlans Background Namespace w
               = Ret ([readyPlan], None) w1) by run_model.
  assert (Hu : UpdateInstallPlan Background (setApproved readyPlan) w1
               = Ret None w2) by run_model.
  assert (Hm : matchesGrafana readyPlan)
    by (split; [reflexivity | discriminate]).
  destruct (approveInstallPlan_updated_continues Background w [readyPlan] w1
              [] readyPlan [] w2 Hl eq_refl (Forall_nil_2 _) Hm eq_refl Hu)
    as (Hrun & _ & _ & _ & Hrest).
  fold w. rewrite Hrun. split; [reflexivity | apply Hrest].
Defined.

(** C2 as stated fails: the matching plan is not approved, the update
    succeeds, and yet the result does not stop; [Reconcile] goes on to
    [setGrafanaWatch], whose probe is the last request of the
    invocation. *)
Lemma approveInstallPlan_halts_counterexample :
  resultOf (approveInstallPlan Background (settledWorld [readyPlan]))
    = Some next
  ∧ installPlans (worldOf (approveInstallPlan Background
                             (settledWorld [readyPlan])))
    = [ setApproved readyPlan ]
  ∧ stop next = false
  ∧ calls (worldOf (Reconcile Background ("", "") (settledWorld [readyPlan])))
    = [ CallGet KNamespace ("", Namespace);
        CallGet KOperatorGroup (Namespace, operatorGroupName);
        CallGet KSubscription (Namespace, subscriptionName);
        CallList KInstallPlan Namespace;
        CallUpdate (ObjInstallPlan (setApproved readyPlan));
        CallList KGrafanaDataSource "default" ].
Proof.
  split; [|split; [|split]].
  - compute_done.
  - compute_done.
  - reflexivity.
  - compute_done.
Qed.

(** C10: [approveInstallPlan] indexes the target versions of the plans it
    scans at 0 without a check of their length.  When every listed plan
    names a target version the step does not panic; a listed plan without
    one makes the indexing panic. *)
Theorem approveInstallPlan_indexing :
  (∀ ctx w items e w1,
     ListInstallPlans ctx Namespace w = Ret (items, e) w1 →
     Forall hasTargets items →
     ∃ res w2, approveInstallPlan ctx w = Ret res w2)
  ∧ (untargetedPlan ∈ installPlans (settledWorld [untargetedPlan])
     ∧ ¬ hasTargets untargetedPlan
     ∧ resultOf (approveInstallPlan Background (settledWorld [untargetedPlan]))
       = None).
Proof.
  split.
  - intros ctx w items e w1 Hl Hall.
    destruct e as [e|].
    { unfold approveInstallPlan. rewrite (bind_Ret _ _ _ _ _ Hl). eauto. }
    rewrite (approveInstallPlan_listed _ _ _ _ Hl).
    destruct (scanInstallPlans_total items w1 Hall) as [exit ->].
    destruct exit as [r|[p|]]; eauto.
    destruct (UpdateInstallPlan_returns ctx (setApproved p) w1)
      as (e & w2 & Hu).
    rewrite (bind_Ret _ _ _ _ _ Hu). eauto.
  - split; [unfold settledWorld; simpl; set_solver|].
    split; [intros H; by apply H|].
    compute_done.
Qed.

Lemma approveInstallPlan_indexing_witness :
  ∃ res w2,
    approveInstallPlan Background (settledWorld [otherPlan; readyPlan])
    = Ret res w2.
Proof.
  pose (w := settledWorld [otherPlan; readyPlan]).
  pose (w1 := worldOf (ListInstallPlans Background Namespace w)).
  assert (Hl : ListInstallPlans Background Namespace w
               = Ret ([otherPlan; readyPlan], None) w1)
    by run_model.
  apply (proj1 approveInstallPlan_indexing Background w
           [otherPlan; readyPlan] None w1 Hl).
  repeat apply Forall_cons_2; try apply Forall_nil_2; discriminate.
Defined.

(** ** Subscription upgrade *)

(** On a subscription whose [StartingCSV] is not the desired one, and
    with both deletions succeeding, the object handed to [Create] is the
    subscription that was read, not the desired one. *)
Lemma reconcileSubscription_stale ctx w subscription spec w1 w2 w3 e w4 :
  Get v1alpha1.zeroSubscription ctx (Namespace, subscriptionName) w
    = Ret (subscription, None) w1 →
  v1alpha1.sub_Spec subscription = Some spec →
  v1alpha1.StartingCSV spec ≠ grafanaCSV →
  Delete ctx subscription w1 = Ret None w2 →
  Delete ctx (installedOf subscription) w2 = Ret None w3 →
  Create ctx subscription w3 = Ret e w4 →
  reconcileSubscription ctx w = Ret (creationResult e) w4.
Proof.
  intros Hg Hspec Hne Hd1 Hd2 Hc. unfold reconcileSubscription.
  rewrite (bind_Ret _ _ _ _ _ Hg). simpl. rewrite Hspec. simpl.
  unfold bind at 1. simpl. unfold bind at 1. simpl.
  apply String.eqb_neq in Hne. change (String.eqb _ _) with
    (String.eqb (v1alpha1.StartingCSV spec) grafanaCSV). rewrite Hne.
  rewrite (bind_Ret _ _ _ _ _ Hd1). simpl.
  fold (installedOf subscription).
  rewrite (bind_Ret _ _ _ _ _ Hd2). simpl.
  by rewrite (bind_Ret _ _ _ _ _ Hc).
Qed.

(** C3 at a stale subscription: the subscription and its installed version
    record are deleted, and the subscription created afterwards is the
    stale one again; its [StartingCSV] is not the desired one. *)
Theorem reconcileSubscription_recreates_stale :
  resultOf (reconcileSubscription Background staleWorld) = Some end_
  ∧ calls (worldOf (reconcileSubscription Background staleWorld))
    = [ CallGet KSubscription (Namespace, subscriptionName);
        CallDelete (ObjSubscription staleSubscription);
        CallDelete (ObjClusterServiceVersion (installedOf staleSubscription));
        CallCreate (ObjSubscription staleSubscription) ]
  ∧ clusterServiceVersions (worldOf (reconcileSubscription Background
                                       staleWorld)) = ∅
  ∧ subscriptions (worldOf (reconcileSubscription Background staleWorld))
      !! (Namespace, subscriptionName)
    = Some staleSubscription
  ∧ v1alpha1.StartingCSV <$> v1alpha1.sub_Spec staleSubscription
    = Some "grafana-operator.v4.0.0"
  ∧ v1alpha1.StartingCSV <$> v1alpha1.sub_Spec NewSubscription
    = Some "grafana-operator.v4.1.0".
Proof.
  repeat split; compute_done.
Qed.

(** ** The config digest *)

Lemma lxor_uint32 h c : isUint32 h → isByte c → isUint32 (Z.lxor h c).
Proof.
  unfold isUint32, isByte. intros Hh Hc.
  assert (Hnn : 0 ≤ Z.lxor h c) by (apply Z.lxor_nonneg; lia).
  split; [done|].
  destruct (decide (Z.lxor h c = 0)) as [->|Hnz]; [lia|].
  apply Z.log2_lt_pow2; [lia|].
  pose proof (Z.log2_lxor h c ltac:(lia) ltac:(lia)) as Hlog.
  assert (Z.log2 h < 32).
  { destruct (decide (h = 0)) as [->|]; [simpl; lia|].
    apply Z.log2_lt_pow2; lia. }
  assert (Z.log2 c < 32).
  { destruct (decide (c = 0)) as [->|]; [simpl; lia|].
    apply Z.log2_lt_pow2; lia. }
  lia.
Qed.

Lemma round_uint32 h c : isUint32 (fnv.round h c).
Proof. unfold isUint32, fnv.round. apply Z.mod_pos_bound. lia. Qed.

Lemma Write_uint32 data h : isUint32 h → isUint32 (fnv.Write h data).
Proof.
  revert h. induction data as [|c data IH]; intros h Hh; [done|].
  apply IH, round_uint32.
Qed.

(** Multiplying by the FNV prime is one-to-one on [uint32]: the prime is
    odd, 899433627 is its inverse modulo 2^32. *)
Lemma mul_prime_inj a b :
  isUint32 a → isUint32 b →
  (a * fnv.prime32) mod 2 ^ 32 = (b * fnv.prime32) mod 2 ^ 32 → a = b.
Proof.
  unfold isUint32. intros Ha Hb Heq.
  assert (Hinv : ∀ x, 0 ≤ x < 2 ^ 32 →
            (((x * fnv.prime32) mod 2 ^ 32) * 899433627) mod 2 ^ 32 = x).
  { intros x Hx. rewrite Z.mul_mod_idemp_l by lia.
    rewrite <- Z.mul_assoc, <- Z.mul_mod_idemp_r by lia.
    change ((fnv.prime32 * 899433627) mod 2 ^ 32) with 1.
    rewrite Z.mul_1_r. apply Z.mod_small. lia. }
  rewrite <- (Hinv a Ha), <- (Hinv b Hb). by rewrite Heq.
Qed.

Lemma lxor_cancel_r a b c : Z.lxor a c = Z.lxor b c → a = b.
Proof.
  intros H.
  assert (Hx : ∀ x, Z.lxor (Z.lxor x c) c = x).
  { intros x. by rewrite Z.lxor_assoc, Z.lxor_nilpotent, Z.lxor_0_r. }
  by rewrite <- (Hx a), H, Hx.
Qed.

Lemma lxor_cancel_l a b c : Z.lxor c a = Z.lxor c b → a = b.
Proof. rewrite !(Z.lxor_comm c). apply lxor_cancel_r. Qed.

Lemma round_inj_state h1 h2 c :
  isUint32 h1 → isUint32 h2 → isByte c →
  fnv.round h1 c = fnv.round h2 c → h1 = h2.
Proof.
  intros H1 H2 Hc Heq. unfold fnv.round in Heq.
  apply mul_prime_inj in Heq; auto using lxor_uint32.
  by apply lxor_cancel_r in Heq.
Qed.

Lemma round_inj_byte h c1 c2 :
  isUint32 h → isByte c1 → isByte c2 →
  fnv.round h c1 = fnv.round h c2 → c1 = c2.
Proof.
  intros Hh H1 H2 Heq. unfold fnv.round in Heq.
  apply mul_prime_inj in Heq; auto using lxor_uint32.
  by apply lxor_cancel_l in Heq.
Qed.

Lemma Write_inj_state data h1 h2 :
  isUint32 h1 → isUint32 h2 → Forall isByte data →
  fnv.Write h1 data = fnv.Write h2 data → h1 = h2.
Proof.
  intros H1 H2 Hd. revert h1 h2 H1 H2.
  induction Hd as [|c data Hc _ IH]; intros h1 h2 H1 H2 Heq; [done|].
  simpl in Heq. apply IH in Heq; auto using round_uint32.
  by apply round_inj_state in Heq.
Qed.

Lemma Write_app h a b : fnv.Write h (a ++ b) = fnv.Write (fnv.Write h a) b.
Proof. apply fold_left_app. Qed.

(** Two inputs that differ in one byte have different hashes. *)
Lemma Write_one_byte h pre c c' post :
  isUint32 h → isByte c → isByte c' → Forall isByte post → c ≠ c' →
  fnv.Write h (pre ++ c :: post) ≠ fnv.Write h (pre ++ c' :: post).
Proof.
  intros Hh Hc Hc' Hpost Hne Heq. rewrite !Write_app in Heq. simpl in Heq.
  apply Write_inj_state in Heq; auto using round_uint32.
  apply round_inj_byte in Heq; auto using Write_uint32.
Qed.

Lemma unhex_hex d : 0 ≤ d < 16 → unhexDigit (hexDigit d) = d.
Proof.
  intros Hd.
  assert (Hcases : d = 0 ∨ d = 1 ∨ d = 2 ∨ d = 3 ∨ d = 4 ∨ d = 5 ∨ d = 6
                   ∨ d = 7 ∨ d = 8 ∨ d = 9 ∨ d = 10 ∨ d = 11 ∨ d = 12
                   ∨ d = 13 ∨ d = 14 ∨ d = 15) by lia.
  repeat destruct Hcases as [->|Hcases]; try reflexivity.
  by subst.
Qed.

Lemma hexDigit_inj d d' :
  0 ≤ d < 16 → 0 ≤ d' < 16 → hexDigit d = hexDigit d' → d = d'.
Proof.
  intros Hd Hd' Heq. apply (f_equal unhexDigit) in Heq.
  by rewrite !unhex_hex in Heq.
Qed.

Lemma hexByte_inj b b' :
  isByte b → isByte b' →
  hexDigit (b / 16) = hexDigit (b' / 16) →
  hexDigit (b mod 16) = hexDigit (b' mod 16) →
  b = b'.
Proof.
  unfold isByte. intros Hb Hb' Hhi Hlo.
  apply hexDigit_inj in Hhi; [|Z.to_euclidean_division_equations; lia..].
  apply hexDigit_inj in Hlo; [|Z.to_euclidean_division_equations; lia..].
  Z.to_euclidean_division_equations; lia.
Qed.

Lemma Sprintf_x_inj b b' :
  Forall isByte b → Forall isByte b' → length b = length b' →
  Sprintf_x b = Sprintf_x b' → b = b'.
Proof.
  intros Hb. revert b'.
  induction Hb as [|c b Hc _ IH]; intros [|c' b'] Hb' Hlen Heq;
    try done.
  inversion Hb' as [|? ? Hc' Hb'']; subst.
  simpl in Heq. injection Heq as Hhi Hlo Hrest.
  f_equal; [by apply hexByte_inj | apply IH; auto].
Qed.

Lemma Sum_isByte h : Forall isByte (fnv.Sum h []).
Proof.
  unfold fnv.Sum, isByte. simpl.
  repeat (apply Forall_cons_2; [apply Z.mod_pos_bound; lia|]).
  apply Forall_nil_2.
Qed.

Lemma Sum_inj h h' :
  isUint32 h → isUint32 h' → fnv.Sum h [] = fnv.Sum h' [] → h = h'.
Proof.
  unfold isUint32, fnv.Sum. simpl. rewrite !Z.shiftr_div_pow2 by lia.
  intros Hh Hh' Heq. injection Heq as H24 H16 H8 H0.
  change (2 ^ 32) with 4294967296 in *. change (2 ^ 24) with 16777216 in *.
  change (2 ^ 16) with 65536 in *. change (2 ^ 8) with 256 in *.
  Z.to_euclidean_division_equations; lia.
Qed.

(** The digest determines the hash state. *)
Lemma digest_inj h h' :
  isUint32 h → isUint32 h' →
  Sprintf_x (fnv.Sum h []) = Sprintf_x (fnv.Sum h' []) → h = h'.
Proof.
  intros Hh Hh' Heq. apply Sum_inj; [done..|].
  apply Sprintf_x_inj; auto using Sum_isByte.
Qed.

Lemma sort_Strings_perm l1 l2 :
  l1 ≡ₚ l2 → sort_Strings l1 = sort_Strings l2.
Proof.
  intros Hp. unfold sort_Strings.
  apply (Sorted_unique String.le); try apply Sorted_merge_sort; try apply _.
  by rewrite !merge_sort_Permutation.
Qed.

Lemma sort_Strings_elem l x : x ∈ sort_Strings l ↔ x ∈ l.
Proof. unfold sort_Strings. by rewrite merge_sort_Permutation. Qed.

Lemma sort_Strings_NoDup l : NoDup l → NoDup (sort_Strings l).
Proof. unfold sort_Strings. by rewrite merge_sort_Permutation. Qed.

Lemma bytesOf_app s1 s2 : bytesOf (s1 +:+ s2) = bytesOf s1 ++ bytesOf s2.
Proof.
  unfold bytesOf. rewrite <- fmap_app. f_equal.
  induction s1 as [|c s1 IH]; simpl; [done|]. by rewrite IH.
Qed.

Lemma bytesOf_String c s :
  bytesOf (String c s) = Z.of_N (Ascii.N_of_ascii c) :: bytesOf s.
Proof. reflexivity. Qed.

Lemma byte_of_ascii_isByte c : isByte (Z.of_N (Ascii.N_of_ascii c)).
Proof.
  unfold isByte. pose proof (Ascii.N_ascii_bounded c). lia.
Qed.

Lemma byte_of_ascii_inj c c' :
  Z.of_N (Ascii.N_of_ascii c) = Z.of_N (Ascii.N_of_ascii c') → c = c'.
Proof.
  intros H. apply N2Z.inj in H.
  by rewrite <- (Ascii.ascii_N_embedding c), H, Ascii.ascii_N_embedding.
Qed.

Lemma bytesOf_isByte s : Forall isByte (bytesOf s).
Proof.
  induction s as [|c s IH]; [apply Forall_nil_2|].
  rewrite bytesOf_String. apply Forall_cons_2; auto using byte_of_ascii_isByte.
Qed.

Lemma hashSeparator_isByte : Forall isByte hashSeparator.
Proof. apply Forall_cons_2; [unfold isByte; lia | apply Forall_nil_2]. Qed.

Lemma serialize_cons m k keys :
  serialize m (k :: keys)
  = bytesOf k ++ hashSeparator ++ bytesOf (index m k) ++ hashSeparator
    ++ serialize m keys.
Proof. reflexivity. Qed.

Lemma serialize_app m keys1 keys2 :
  serialize m (keys1 ++ keys2) = serialize m keys1 ++ serialize m keys2.
Proof.
  induction keys1 as [|k keys1 IH]; [done|].
  rewrite <- app_comm_cons, !serialize_cons, IH. by rewrite <- !app_assoc.
Qed.

Lemma serialize_isByte m keys : Forall isByte (serialize m keys).
Proof.
  induction keys as [|k keys IH]; [apply Forall_nil_2|].
  rewrite serialize_cons.
  repeat (apply Forall_app_2;
          auto using bytesOf_isByte, hashSeparator_isByte).
Qed.

Lemma serialize_ext m m' keys :
  (∀ k, k ∈ keys → index m k = index m' k) →
  serialize m keys = serialize m' keys.
Proof.
  induction keys as [|k keys IH]; intros Hext; [done|].
  rewrite !serialize_cons, IH, (Hext k); [done|set_solver..].
Qed.

(** The digest is the hash of the serialised map, keys sorted. *)
Lemma computeConfigMapHashIn_serialize order cm :
  computeConfigMapHashIn order cm
  = Sprintf_x (fnv.Sum (fnv.Write fnv.New32a
                          (serialize (Data cm) (sort_Strings order))) []).
Proof.
  unfold computeConfigMapHashIn. do 2 f_equal.
  generalize fnv.New32a.
  induction (sort_Strings order) as [|k keys IH]; intros h; [done|].
  rewrite serialize_cons, !Write_app. simpl fold_left at 1. apply IH.
Qed.

Lemma keys_elem (m : gmap string string) k :
  k ∈ (map_to_list m).*1 ↔ is_Some (m !! k).
Proof.
  rewrite list_elem_of_fmap. split.
  - intros ([k' v] & -> & Hin). apply elem_of_map_to_list in Hin. by eexists.
  - intros [v Hv]. exists (k, v). split; [done|].
    by apply elem_of_map_to_list.
Qed.

(** Replacing the value of a key that is present changes no key. *)
Lemma keys_insert_present (m : gmap string string) k v v' :
  m !! k = Some v → (map_to_list (<[k := v']> m)).*1 ≡ₚ (map_to_list m).*1.
Proof.
  intros Hk. apply NoDup_Permutation; try apply NoDup_fst_map_to_list.
  intros x. rewrite !keys_elem, lookup_insert_is_Some.
  split; [intros [->|[_ H]]; eauto | intros H].
  destruct (decide (k = x)); auto.
Qed.

(** C4, as the code has it: the digest of a config map does not depend on
    the order in which the pairs were inserted nor on the order in which
    [range] hands out the keys; and replacing one byte of one value by
    another byte gives a different digest. *)
Theorem computeConfigMapHash_stable :
  (∀ (l1 l2 : list (string * string)) (order1 order2 : list string),
     NoDup l1.*1 →
     l1 ≡ₚ l2 →
     rangeOrder (list_to_map l1) order1 →
     rangeOrder (list_to_map l2) order2 →
     computeConfigMapHashIn order1 {| Data := list_to_map l1 |}
     = computeConfigMapHashIn order2 {| Data := list_to_map l2 |})
  ∧ (∀ (cm : ConfigMap) k pre c c' post (order order' : list string),
     Data cm !! k = Some (pre +:+ String c post) →
     c ≠ c' →
     rangeOrder (Data cm) order →
     rangeOrder (<[k := pre +:+ String c' post]> (Data cm)) order' →
     computeConfigMapHashIn order cm
     ≠ computeConfigMapHashIn order'
         {| Data := <[k := pre +:+ String c' post]> (Data cm) |}).
Proof.
  split.
  - intros l1 l2 order1 order2 Hnd Hperm H1 H2.
    rewrite <- (list_to_map_proper l1 l2 Hnd Hperm) in *.
    unfold computeConfigMapHashIn.
    rewrite (sort_Strings_perm order1 order2); [done|].
    unfold rangeOrder in *. by rewrite H1, H2.
  - intros [m] k pre c c' post order order' Hk Hne Ho Ho' Heq.
    simpl in *. set (v := pre +:+ String c post) in *.
    set (v' := pre +:+ String c' post) in *.
    rewrite !computeConfigMapHashIn_serialize in Heq. cbn [Data] in Heq.
    assert (Hsame : sort_Strings order' = sort_Strings order).
    { apply sort_Strings_perm. unfold rangeOrder in *.
      rewrite Ho, Ho'. by eapply keys_insert_present. }
    rewrite Hsame in Heq. clear Hsame Ho' order'.
    assert (Hin : k ∈ sort_Strings order).
    { apply sort_Strings_elem. unfold rangeOrder in Ho. rewrite Ho.
      apply keys_elem. by eexists. }
    assert (Hnd : NoDup (sort_Strings order)).
    { apply sort_Strings_NoDup. unfold rangeOrder in Ho. rewrite Ho.
      apply NoDup_fst_map_to_list. }
    destruct (list_elem_of_split _ _ Hin) as (ks1 & ks2 & Hks).
    rewrite Hks in Heq, Hnd.
    apply NoDup_app in Hnd as (_ & Hk1 & Hnd).
    apply NoDup_cons in Hnd as [Hk2 _].
    assert (H1 : serialize (<[k:=v']> m) ks1 = serialize m ks1).
    { apply serialize_ext. intros k0 Hk0. unfold index.
      rewrite lookup_insert_ne; [done|]. intros <-.
      apply (Hk1 k Hk0). by left. }
    assert (H2 : serialize (<[k:=v']> m) ks2 = serialize m ks2).
    { apply serialize_ext. intros k0 Hk0. unfold index.
      rewrite lookup_insert_ne; [done|]. by intros <-. }
    rewrite !serialize_app, !serialize_cons, H1, H2 in Heq.
    unfold index in Heq. rewrite lookup_insert_eq, Hk in Heq.
    cbn [default from_option id] in Heq.
    unfold v, v' in Heq. rewrite !bytesOf_app, !bytesOf_String in Heq.
    apply digest_inj in Heq; [|apply Write_uint32; unfold isUint32,
                                 fnv.New32a, fnv.offset32; lia..].
    assert (Hshape : ∀ b,
              serialize m ks1 ++ bytesOf k ++ hashSeparator
              ++ (bytesOf pre ++ b :: bytesOf post)
              ++ hashSeparator ++ serialize m ks2
              = (serialize m ks1 ++ bytesOf k ++ hashSeparator ++ bytesOf pre)
                ++ b :: (bytesOf post ++ hashSeparator ++ serialize m ks2)).
    { intros b. by rewrite <- !app_assoc. }
    rewrite !Hshape in Heq. revert Heq.
    apply Write_one_byte.
    + unfold isUint32, fnv.New32a, fnv.offset32. lia.
    + apply byte_of_ascii_isByte.
    + apply byte_of_ascii_isByte.
    + repeat (apply Forall_app_2;
              auto using bytesOf_isByte, hashSeparator_isByte,
                         serialize_isByte).
    + intros Hc. by apply byte_of_ascii_inj in Hc.
Qed.

Lemma computeConfigMapHash_stable_witness :
  computeConfigMapHashIn ["b"; "a"] cmBA = computeConfigMapHashIn ["a"; "b"] cmAB
  ∧ computeConfigMapHashIn ["a"; "b"] cmAB
    ≠ computeConfigMapHashIn ["b"; "a"] {| Data := <["b" := "3"]> (Data cmAB) |}.
Proof.
  split.
  - apply (proj1 computeConfigMapHash_stable
             [("b", "2"); ("a", "1")] [("a", "1"); ("b", "2")]
             ["b"; "a"] ["a"; "b"]).
    + compute_done.
    + apply perm_swap.
    + unfold rangeOrder. compute_done.
    + unfold rangeOrder. compute_done.
  - apply (proj2 computeConfigMapHash_stable cmAB "b" "" "2"%char "3"%char ""
             ["a"; "b"] ["b"; "a"]).
    + compute_done.
    + discriminate.
    + unfold rangeOrder. compute_done.
    + unfold rangeOrder. compute_done.
Defined.

(** C4 as stated fails: two config maps that differ in the value of one
    key have the same digest. *)
Lemma computeConfigMapHash_collision :
  Data cm208 !! "a" = Some "208"
  ∧ Data cmZhnr = <["a" := "zhnr"]> (Data cm208)
  ∧ "208" ≠ "zhnr"
  ∧ computeConfigMapHash cm208 = "ce13f656"
  ∧ computeConfigMapHash cmZhnr = "ce13f656".
Proof.
  split; [compute_done|]. split; [reflexivity|]. split; [discriminate|].
  split; compute_done.
Qed.

(** * Further properties *)

(** ** The client *)

Lemma issued_trans w w1 w2 cs1 cs2 :
  issued w w1 cs1 → issued w1 w2 cs2 → issued w w2 (cs1 ++ cs2).
Proof. unfold issued. intros H1 H2. by rewrite H2, H1, app_assoc. Qed.

Lemma sameOutsidePlans_trans w w1 w2 :
  sameOutsidePlans w w1 → sameOutsidePlans w1 w2 → sameOutsidePlans w w2.
Proof. unfold sameOutsidePlans. intuition congruence. Qed.

Lemma sameStore_trans w w1 w2 :
  sameStore w w1 → sameStore w1 w2 → sameStore w w2.
Proof.
  intros [H1 Hp1] [H2 Hp2]. split; [by eapply sameOutsidePlans_trans|].
  congruence.
Qed.

(** A request that the environment lets through. *)
Lemma request_clean c w :
  faults w = [] → request c w = Ret None (set_calls (calls w ++ [c]) w).
Proof. intros Hf. unfold request. simpl. by rewrite Hf. Qed.

(** Takes the conjuncts of a goal apart and closes the plain ones. *)
Ltac conjuncts :=
  repeat match goal with |- _ ∧ _ => split end;
  intros; simplify_eq; try done.

Lemma Get_spec {T} `{LawfulObject T} (zero : T) ctx key w o e w1 :
  Get zero ctx key w = Ret (o, e) w1 →
  issued w w1 [CallGet (kindOf T) key]
  ∧ sameStore w w1
  ∧ (e = None → stored T w !! key = Some o).
Proof.
  unfold Get, bind, request, ret, issued, sameStore, sameOutsidePlans.
  repeat case_match; intros; simplify_eq; simpl;
    rewrite ?stored_set_faults, ?stored_set_calls in *; conjuncts.
Qed.

Lemma Get_found {T} `{LawfulObject T} (zero : T) ctx key w o :
  faults w = [] → stored T w !! key = Some o →
  Get zero ctx key w
  = Ret (o, None) (set_calls (calls w ++ [CallGet (kindOf T) key]) w).
Proof.
  intros Hf Hk. unfold Get.
  rewrite (bind_Ret _ _ _ _ _ (request_clean _ _ Hf)).
  by rewrite stored_set_calls, Hk.
Qed.

Lemma Get_absent {T} `{LawfulObject T} (zero : T) ctx key w :
  faults w = [] → stored T w !! key = None →
  Get zero ctx key w
  = Ret (zero, Some errNotFound)
        (set_calls (calls w ++ [CallGet (kindOf T) key]) w).
Proof.
  intros Hf Hk. unfold Get.
  rewrite (bind_Ret _ _ _ _ _ (request_clean _ _ Hf)).
  by rewrite stored_set_calls, Hk.
Qed.

Lemma Create_spec {T} `{LawfulObject T} ctx (o : T) w e w1 :
  Create ctx o w = Ret e w1 →
  issued w w1 [CallCreate (toObject o)]
  ∧ (e ≠ None → sameStore w w1)
  ∧ (e = None →
     stored T w !! keyOf (metaOf o) = None
     ∧ stored T w1 = <[keyOf (metaOf o) := o]> (stored T w)).
Proof.
  unfold Create, bind, request, ret, issued, sameStore, sameOutsidePlans.
  repeat case_match; intros; simplify_eq; simpl;
    rewrite ?set_stored_calls, ?stored_set_stored, ?stored_set_faults,
      ?stored_set_calls in *; simpl; conjuncts.
Qed.

Lemma Update_spec {T} `{LawfulObject T} ctx (o : T) w e w1 :
  Update ctx o w = Ret e w1 →
  issued w w1 [CallUpdate (toObject o)]
  ∧ (e ≠ None → sameStore w w1)
  ∧ (e = None → stored T w1 = <[keyOf (metaOf o) := o]> (stored T w)).
Proof.
  unfold Update, bind, request, ret, issued, sameStore, sameOutsidePlans.
  repeat case_match; intros; simplify_eq; simpl;
    rewrite ?set_stored_calls, ?stored_set_stored, ?stored_set_faults,
      ?stored_set_calls in *; simpl; conjuncts.
Qed.

Lemma Delete_spec {T} `{LawfulObject T} ctx (o : T) w e w1 :
  Delete ctx o w = Ret e w1 →
  issued w w1 [CallDelete (toObject o)]
  ∧ (e ≠ None → sameStore w w1)
  ∧ (e = None → stored T w1 = delete (keyOf (metaOf o)) (stored T w)).
Proof.
  unfold Delete, bind, request, ret, issued, sameStore, sameOutsidePlans.
  repeat case_match; intros; simplify_eq; simpl;
    rewrite ?set_stored_calls, ?stored_set_stored, ?stored_set_faults,
      ?stored_set_calls in *; simpl; conjuncts.
Qed.

(** ** Reading fails *)

(** A read that fails with anything but NotFound ends the step with that
    error: nothing but the read was issued and the store is as it was.
    This holds for the four steps that start with a [Get]. *)
Theorem steps_read_error ctx w (e : StatusError) :
  IsNotFound (Some e) = false →
  (∀ o w1,
     Get zeroNamespace ctx ("", Namespace) w = Ret (o, Some e) w1 →
     reconcileNamespace ctx w = Ret (reconcileError (Some e)) w1
     ∧ issued w w1 [CallGet KNamespace ("", Namespace)]
     ∧ sameStore w w1)
  ∧ (∀ o w1,
     Get zeroOperatorGroup ctx (Namespace, operatorGroupName) w
       = Ret (o, Some e) w1 →
     reconcileOperatorGroup ctx w = Ret (reconcileError (Some e)) w1
     ∧ issued w w1 [CallGet KOperatorGroup (Namespace, operatorGroupName)]
     ∧ sameStore w w1)
  ∧ (∀ o w1,
     Get v1alpha1.zeroSubscription ctx (Namespace, subscriptionName) w
       = Ret (o, Some e) w1 →
     reconcileSubscription ctx w = Ret (reconcileError (Some e)) w1
     ∧ issued w w1 [CallGet KSubscription (Namespace, subscriptionName)]
     ∧ sameStore w w1)
  ∧ (∀ o w1,
     Get zeroGrafana ctx (Namespace, grafanaName) w = Ret (o, Some e) w1 →
     reconcileGrafana ctx w = Ret (reconcileError (Some e)) w1
     ∧ issued w w1 [CallGet KGrafana (Namespace, grafanaName)]
     ∧ sameStore w w1).
Proof.
  intros Hnf.
  assert (Htest : notNil (Some e) && negb (IsNotFound (Some e)) = true)
    by (by rewrite Hnf).
  split; [|split; [|split]]; intros o w1 Hg;
    destruct (Get_spec _ _ _ _ _ _ _ Hg) as (Hc & Hs & _);
    (split; [|by split]).
  - unfold reconcileNamespace. rewrite (bind_Ret _ _ _ _ _ Hg).
    cbv beta iota. by rewrite Htest.
  - unfold reconcileOperatorGroup. rewrite (bind_Ret _ _ _ _ _ Hg).
    cbv beta iota. by rewrite Htest.
  - unfold reconcileSubscription. rewrite (bind_Ret _ _ _ _ _ Hg).
    cbv beta iota. by rewrite Htest.
  - unfold reconcileGrafana. rewrite (bind_Ret _ _ _ _ _ Hg).
    cbv beta iota. by rewrite Htest.
Qed.

Lemma steps_read_error_witness :
  resultOf (reconcileOperatorGroup Background
              (set_faults [Some errInternal] (settledWorld [])))
  = Some (reconcileError (Some errInternal)).
Proof.
  set (w := set_faults [Some errInternal] (settledWorld [])).
  set (w1 := worldOf (Get zeroOperatorGroup Background
                        (Namespace, operatorGroupName) w)).
  assert (Hg : Get zeroOperatorGroup Background
                 (Namespace, operatorGroupName) w
               = Ret (zeroOperatorGroup, Some errInternal) w1) by run_model.
  destruct (proj1 (proj2 (steps_read_error Background w errInternal eq_refl))
              zeroOperatorGroup w1 Hg) as (Hrun & _).
  by rewrite Hrun.
Defined.

(** A [List] of install plans that fails ends [approveInstallPlan] with
    that error, whatever the error; nothing else is issued. *)
Lemma approveInstallPlan_list_error ctx w items e w1 :
  ListInstallPlans ctx Namespace w = Ret (items, Some e) w1 →
  approveInstallPlan ctx w = Ret (reconcileError (Some e)) w1.
Proof.
  intros Hl. unfold approveInstallPlan. by rewrite (bind_Ret _ _ _ _ _ Hl).
Qed.

(** ** Expected duplicates *)

(** An object that is not found on the read but exists by the time of the
    create (AlreadyExists) is taken as success: the step continues, the
    create was the only write asked for, and the store is as it was. *)
Theorem steps_create_duplicate ctx w (e1 e2 : StatusError) :
  IsNotFound (Some e1) = true →
  IsAlreadyExists (Some e2) = true →
  (∀ o w1 w2,
     Get zeroNamespace ctx ("", Namespace) w = Ret (o, Some e1) w1 →
     Create ctx NewNamespace w1 = Ret (Some e2) w2 →
     reconcileNamespace ctx w = Ret next w2
     ∧ issued w w2 [ CallGet KNamespace ("", Namespace);
                     CallCreate (ObjNamespace NewNamespace) ]
     ∧ sameStore w w2)
  ∧ (∀ o w1 w2,
     Get zeroOperatorGroup ctx (Namespace, operatorGroupName) w
       = Ret (o, Some e1) w1 →
     Create ctx NewOperatorGroup w1 = Ret (Some e2) w2 →
     reconcileOperatorGroup ctx w = Ret next w2
     ∧ issued w w2 [ CallGet KOperatorGroup (Namespace, operatorGroupName);
                     CallCreate (ObjOperatorGroup NewOperatorGroup) ]
     ∧ sameStore w w2)
  ∧ (∀ o w1 w2,
     Get v1alpha1.zeroSubscription ctx (Namespace, subscriptionName) w
       = Ret (o, Some e1) w1 →
     Create ctx NewSubscription w1 = Ret (Some e2) w2 →
     reconcileSubscription ctx w = Ret next w2
     ∧ issued w w2 [ CallGet KSubscription (Namespace, subscriptionName);
                     CallCreate (ObjSubscription NewSubscription) ]
     ∧ sameStore w w2)
  ∧ (∀ o w1 w2,
     Get zeroGrafana ctx (Namespace, grafanaName) w = Ret (o, Some e1) w1 →
     Create ctx newGrafana w1 = Ret (Some e2) w2 →
     reconcileGrafana ctx w = Ret next w2
     ∧ issued w w2 [ CallGet KGrafana (Namespace, grafanaName);
                     CallCreate (ObjGrafana newGrafana) ]
     ∧ sameStore w w2).
Proof.
  intros Hnf Hae.
  assert (Htest : notNil (Some e1) && negb (IsNotFound (Some e1)) = false)
    by (by rewrite Hnf).
  assert (Hres : creationResult (Some e2) = next)
    by (unfold creationResult; by rewrite Hae).
  split; [|split; [|split]]; intros o w1 w2 Hg Hc;
    destruct (Get_spec _ _ _ _ _ _ _ Hg) as (Hc1 & Hs1 & _);
    destruct (Create_spec _ _ _ _ _ Hc) as (Hc2 & Hs2 & _);
    (split; [|split; [apply (issued_trans _ _ _ _ _ Hc1 Hc2)
                     |by eapply sameStore_trans; [|apply Hs2]]]).
  - unfold reconcileNamespace. rewrite (bind_Ret _ _ _ _ _ Hg).
    cbv beta iota. rewrite Htest, Hnf, (bind_Ret _ _ _ _ _ Hc).
    by rewrite Hres.
  - unfold reconcileOperatorGroup. rewrite (bind_Ret _ _ _ _ _ Hg).
    cbv beta iota zeta. rewrite Htest, Hnf, (bind_Ret _ _ _ _ _ Hc).
    by rewrite Hres.
  - unfold reconcileSubscription. rewrite (bind_Ret _ _ _ _ _ Hg).
    cbv beta iota zeta. rewrite Htest, Hnf, (bind_Ret _ _ _ _ _ Hc).
    by rewrite Hres.
  - unfold reconcileGrafana. rewrite (bind_Ret _ _ _ _ _ Hg).
    cbv beta iota zeta. rewrite Htest, Hnf, (bind_Ret _ _ _ _ _ Hc).
    by rewrite Hres.
Qed.

Lemma steps_create_duplicate_witness :
  resultOf (reconcileGrafana Background
              (set_faults [Some errNotFound; Some errAlreadyExists]
                 (settledWorld [])))
  = Some next.
Proof.
  set (w := set_faults [Some errNotFound; Some errAlreadyExists]
              (settledWorld [])).
  set (w1 := worldOf (Get zeroGrafana Background (Namespace, grafanaName) w)).
  set (w2 := worldOf (Create Background newGrafana w1)).
  assert (Hg : Get zeroGrafana Background (Namespace, grafanaName) w
               = Ret (zeroGrafana, Some errNotFound) w1) by run_model.
  assert (Hc : Create Background newGrafana w1
               = Ret (Some errAlreadyExists) w2) by run_model.
  destruct (proj2 (proj2 (proj2 (steps_create_duplicate Background w
                                   errNotFound errAlreadyExists
                                   eq_refl eq_refl)))
              zeroGrafana w1 w2 Hg Hc) as (Hrun & _).
  by rewrite Hrun.
Defined.

(** ** A store that answers faithfully *)

Lemma set_calls_twice l1 l2 w : set_calls l2 (set_calls l1 w) = set_calls l2 w.
Proof. reflexivity. Qed.

Lemma Create_fresh {T} `{LawfulObject T} ctx (o : T) w :
  faults w = [] → stored T w !! keyOf (metaOf o) = None →
  Create ctx o w
  = Ret None (set_stored T (<[keyOf (metaOf o) := o]> (stored T w))
                (set_calls (calls w ++ [CallCreate (toObject o)]) w)).
Proof.
  intros Hf Hk. unfold Create.
  rewrite (bind_Ret _ _ _ _ _ (request_clean _ _ Hf)).
  by rewrite stored_set_calls, Hk.
Qed.

Lemma Update_present {T} `{LawfulObject T} ctx (o : T) w :
  faults w = [] → is_Some (stored T w !! keyOf (metaOf o)) →
  Update ctx o w
  = Ret None (set_stored T (<[keyOf (metaOf o) := o]> (stored T w))
                (set_calls (calls w ++ [CallUpdate (toObject o)]) w)).
Proof.
  intros Hf [o' Hk]. unfold Update.
  rewrite (bind_Ret _ _ _ _ _ (request_clean _ _ Hf)).
  by rewrite stored_set_calls, Hk.
Qed.

Lemma ListInstallPlans_clean ctx ns w :
  faults w = [] →
  ListInstallPlans ctx ns w
  = Ret (filter (λ p, metav1.Namespace (v1alpha1.ip_ObjectMeta p) = ns)
           (installPlans w), None)
        (set_calls (calls w ++ [CallList KInstallPlan ns]) w).
Proof.
  intros Hf. unfold ListInstallPlans.
  by rewrite (bind_Ret _ _ _ _ _ (request_clean _ _ Hf)).
Qed.

(** ** The namespace comes first *)

(** A namespace that is there but not active (being deleted, say) ends the
    step, and with it the whole invocation, without error: only the read
    was issued, nothing was written, and no later step ran. *)
Theorem reconcileNamespace_inactive_halts ctx req w namespace w1 :
  Get zeroNamespace ctx ("", Namespace) w = Ret (namespace, None) w1 →
  corev1.ns_Phase namespace ≠ corev1.NamespaceActive →
  reconcileNamespace ctx w = Ret end_ w1
  ∧ Reconcile ctx req w = Ret (zeroResult, None) w1
  ∧ issued w w1 [CallGet KNamespace ("", Namespace)]
  ∧ sameStore w w1.
Proof.
  intros Hg Hph. destruct (Get_spec _ _ _ _ _ _ _ Hg) as (Hc & Hs & _).
  assert (Hstep : reconcileNamespace ctx w = Ret end_ w1).
  { unfold reconcileNamespace. rewrite (bind_Ret _ _ _ _ _ Hg).
    cbv beta iota. simpl. by rewrite bool_decide_eq_false_2. }
  split; [exact Hstep|]. split; [|by split].
  unfold Reconcile, reconcilers.
  by rewrite (runReconcilers_stops _ _ _ _ _ _ Hstep eq_refl).
Qed.

Lemma reconcileNamespace_inactive_halts_witness :
  resultOf (Reconcile Background ("", "")
              (set_namespaces {[ ("", Namespace) := NewNamespace ]} emptyWorld))
  = Some (zeroResult, None).
Proof.
  set (w := set_namespaces {[ ("", Namespace) := NewNamespace ]} emptyWorld).
  set (w1 := worldOf (Get zeroNamespace Background ("", Namespace) w)).
  assert (Hg : Get zeroNamespace Background ("", Namespace) w
               = Ret (NewNamespace, None) w1) by run_model.
  destruct (reconcileNamespace_inactive_halts Background ("", "") w
              NewNamespace w1 Hg) as (_ & Hrun & _).
  - discriminate.
  - by rewrite Hrun.
Defined.

(** On a store that answers faithfully and has no namespace yet, one
    invocation reads the namespace, creates it and ends without error:
    the two requests are the only ones, and nothing is created inside the
    namespace before it exists. *)
Theorem Reconcile_creates_namespace_first ctx req w :
  faults w = [] →
  namespaces w !! ("", Namespace) = None →
  Reconcile ctx req w
  = Ret (zeroResult, None)
      (set_namespaces (<[("", Namespace) := NewNamespace]> (namespaces w))
         (set_calls (calls w ++ [ CallGet KNamespace ("", Namespace);
                                  CallCreate (ObjNamespace NewNamespace) ])
            w)).
Proof.
  intros Hf Hk.
  assert (Hstep : reconcileNamespace ctx w
                  = Ret end_
                      (set_namespaces
                         (<[("", Namespace) := NewNamespace]> (namespaces w))
                         (set_calls
                            (calls w ++ [ CallGet KNamespace ("", Namespace);
                                          CallCreate (ObjNamespace NewNamespace) ])
                            w))).
  { pose proof (Get_absent zeroNamespace ctx ("", Namespace) w Hf) as Hg.
    pose proof (Create_fresh ctx NewNamespace
                  (set_calls (calls w ++ [CallGet KNamespace ("", Namespace)]) w)
                  Hf) as Hc.
    unfold reconcileNamespace.
    rewrite (bind_Ret _ _ _ _ _ (Hg Hk)).
    cbn [kindOf Namespace_object]. cbv beta iota.
    change (notNil (Some errNotFound) && negb (IsNotFound (Some errNotFound)))
      with false.
    change (IsNotFound (Some errNotFound)) with true. cbv iota.
    rewrite (bind_Ret _ _ _ _ _ (Hc Hk)).
    simpl. unfold set_namespaces, set_calls. simpl.
    by rewrite <- app_assoc. }
  unfold Reconcile, reconcilers.
  by rewrite (runReconcilers_stops _ _ _ _ _ _ Hstep eq_refl).
Qed.

Lemma Reconcile_creates_namespace_first_witness :
  resultOf (Reconcile Background ("", "") emptyWorld) = Some (zeroResult, None)
  ∧ namespaces (worldOf (Reconcile Background ("", "") emptyWorld))
    = {[ ("", Namespace) := NewNamespace ]}.
Proof.
  rewrite (Reconcile_creates_namespace_first Background ("", "") emptyWorld
             eq_refl eq_refl).
  split; reflexivity.
Defined.

(** ** Steps that find nothing to do *)

Lemma reconcileNamespace_active ctx w namespace :
  faults w = [] →
  namespaces w !! ("", Namespace) = Some namespace →
  corev1.ns_Phase namespace = corev1.NamespaceActive →
  reconcileNamespace ctx w
  = Ret next (set_calls (calls w ++ [CallGet KNamespace ("", Namespace)]) w).
Proof.
  intros Hf Hk Hph.
  pose proof (Get_found zeroNamespace ctx ("", Namespace) w namespace Hf) as Hg.
  unfold reconcileNamespace. rewrite (bind_Ret _ _ _ _ _ (Hg Hk)).
  cbn [kindOf Namespace_object]. cbv beta iota.
  change (notNil None && negb (IsNotFound None)) with false.
  change (IsNotFound None) with false. cbv iota.
  by rewrite Hph.
Qed.

Lemma reconcileOperatorGroup_settled ctx w operatorGroup :
  faults w = [] →
  operatorGroups w !! (Namespace, operatorGroupName) = Some operatorGroup →
  operatorsv1.og_Spec operatorGroup = operatorsv1.og_Spec NewOperatorGroup →
  reconcileOperatorGroup ctx w
  = Ret next
      (set_calls
         (calls w ++ [CallGet KOperatorGroup (Namespace, operatorGroupName)]) w).
Proof.
  intros Hf Hk Hspec.
  pose proof (Get_found zeroOperatorGroup ctx (Namespace, operatorGroupName)
                w operatorGroup Hf) as Hg.
  unfold reconcileOperatorGroup. rewrite (bind_Ret _ _ _ _ _ (Hg Hk)).
  cbn [kindOf OperatorGroup_object]. cbv beta iota zeta.
  change (notNil None && negb (IsNotFound None)) with false.
  change (IsNotFound None) with false. cbv iota.
  by rewrite bool_decide_eq_true_2.
Qed.

Lemma reconcileSubscription_settled ctx w subscription spec :
  faults w = [] →
  subscriptions w !! (Namespace, subscriptionName) = Some subscription →
  v1alpha1.sub_Spec subscription = Some spec →
  v1alpha1.StartingCSV spec = grafanaCSV →
  reconcileSubscription ctx w
  = Ret next
      (set_calls
         (calls w ++ [CallGet KSubscription (Namespace, subscriptionName)]) w).
Proof.
  intros Hf Hk Hspec Hcsv.
  pose proof (Get_found v1alpha1.zeroSubscription ctx
                (Namespace, subscriptionName) w subscription Hf) as Hg.
  unfold reconcileSubscription. rewrite (bind_Ret _ _ _ _ _ (Hg Hk)).
  cbn [kindOf Subscription_object]. cbv beta iota zeta.
  change (notNil None && negb (IsNotFound None)) with false.
  change (IsNotFound None) with false. cbv iota.
  rewrite Hspec. unfold deref, bind, ret. cbn [NewSubscription v1alpha1.sub_Spec].
  rewrite Hcsv. by rewrite String.eqb_refl.
Qed.

Lemma approveInstallPlan_settled ctx w pre p post :
  faults w = [] →
  filter (λ q, metav1.Namespace (v1alpha1.ip_ObjectMeta q) = Namespace)
    (installPlans w) = pre ++ p :: post →
  Forall (λ q, hasTargets q ∧ ¬ matchesGrafana q) pre →
  matchesGrafana p →
  v1alpha1.Approved (v1alpha1.ip_Spec p) = true →
  approveInstallPlan ctx w
  = Ret next (set_calls (calls w ++ [CallList KInstallPlan Namespace]) w).
Proof.
  intros Hf Hitems Hpre Hm Happ.
  pose proof (ListInstallPlans_clean ctx Namespace w Hf) as Hl.
  rewrite Hitems in Hl.
  rewrite (approveInstallPlan_listed _ _ _ _ Hl).
  by rewrite scanInstallPlans_skip, scanInstallPlans_match, Happ.
Qed.

Lemma reconcileGrafana_settled ctx w grafana :
  faults w = [] →
  grafanas w !! (Namespace, grafanaName) = Some grafana →
  integreatlyv1alpha1.g_Spec grafana = integreatlyv1alpha1.g_Spec newGrafana →
  reconcileGrafana ctx w
  = Ret next
      (set_calls (calls w ++ [CallGet KGrafana (Namespace, grafanaName)]) w).
Proof.
  intros Hf Hk Hspec.
  pose proof (Get_found zeroGrafana ctx (Namespace, grafanaName)
                w grafana Hf) as Hg.
  unfold reconcileGrafana. rewrite (bind_Ret _ _ _ _ _ (Hg Hk)).
  cbn [kindOf Grafana_object]. cbv beta iota zeta.
  change (notNil None && negb (IsNotFound None)) with false.
  change (IsNotFound None) with false. cbv iota.
  by rewrite bool_decide_eq_true_2.
Qed.

(** Once everything is in place, an invocation on a store that answers
    faithfully only reads: it issues four [Get]s and one [List], no write
    and no watch, reports success without requeue, and leaves the world as
    it was but for the record of those reads. *)
Theorem Reconcile_converged_readonly ctx req w :
  faults w = [] →
  converged w →
  Reconcile ctx req w
  = Ret (zeroResult, None)
      (set_calls
         (calls w ++ [ CallGet KNamespace ("", Namespace);
                       CallGet KOperatorGroup (Namespace, operatorGroupName);
                       CallGet KSubscription (Namespace, subscriptionName);
                       CallList KInstallPlan Namespace;
                       CallGet KGrafana (Namespace, grafanaName) ]) w).
Proof.
  intros Hf (Hflag & (ns & Hns & Hph) & (og & Hog & Hogs)
             & (sub & spec & Hsub & Hspec & Hcsv)
             & (pre & p & post & Hitems & Hpre & Hm & Happ)
             & (g & Hg & Hgs)).
  unfold Reconcile, reconcilers. cbn [runReconcilers].
  rewrite (bind_Ret _ _ _ _ _ (reconcileNamespace_active ctx w ns Hf Hns Hph)).
  cbn [stop next].
  set (w1 := set_calls _ w).
  rewrite (bind_Ret _ _ _ _ _
             (reconcileOperatorGroup_settled ctx w1 og Hf Hog Hogs)).
  cbn [stop next].
  set (w2 := set_calls _ w1).
  rewrite (bind_Ret _ _ _ _ _
             (reconcileSubscription_settled ctx w2 sub spec Hf Hsub Hspec
                Hcsv)).
  cbn [stop next].
  set (w3 := set_calls _ w2).
  rewrite (bind_Ret _ _ _ _ _
             (approveInstallPlan_settled ctx w3 pre p post Hf Hitems Hpre Hm
                Happ)).
  cbn [stop next].
  set (w4 := set_calls _ w3).
  rewrite (bind_Ret _ _ _ _ _ (setGrafanaWatch_established ctx w4 Hflag)).
  cbn [stop next].
  rewrite (bind_Ret _ _ _ _ _ (reconcileGrafana_settled ctx w4 g Hf Hg Hgs)).
  cbn [stop next]. unfold ret, result, w4, w3, w2, w1, set_calls. simpl.
  by rewrite <- !app_assoc.
Qed.

Lemma Reconcile_converged_readonly_witness :
  resultOf (Reconcile Background ("", "") convergedWorld)
  = Some (zeroResult, None)
  ∧ installPlans (worldOf (Reconcile Background ("", "") convergedWorld))
    = [approvedPlan].
Proof.
  assert (Hc : converged convergedWorld).
  { split; [reflexivity|]. split.
    { exists activeNamespace. split; [compute_done | reflexivity]. }
    split.
    { exists NewOperatorGroup. split; [compute_done | reflexivity]. }
    split.
    { exists NewSubscription. eexists.
      split; [compute_done|]. split; reflexivity. }
    split.
    { exists [], approvedPlan, []. split; [compute_done|].
      split; [apply Forall_nil_2|].
      split; [split; [reflexivity | discriminate] | reflexivity]. }
    exists newGrafana. split; [compute_done | reflexivity]. }
  rewrite (Reconcile_converged_readonly Background ("", "") convergedWorld
             eq_refl Hc).
  split; reflexivity.
Defined.

(** ** Drift is repaired once *)

(** On a store that answers faithfully, [reconcileOperatorGroup] leaves
    the stored operator group with the desired spec and its own metadata,
    touches no other operator group, writes at most once (one update, when
    the spec had drifted), and a second run right after only reads. *)
Theorem reconcileOperatorGroup_converges ctx w operatorGroup :
  faults w = [] →
  operatorGroups w !! (Namespace, operatorGroupName) = Some operatorGroup →
  keyOf (operatorsv1.og_ObjectMeta operatorGroup)
    = (Namespace, operatorGroupName) →
  ∃ w1 updated,
    reconcileOperatorGroup ctx w = Ret next w1
    ∧ operatorGroups w1 !! (Namespace, operatorGroupName) = Some updated
    ∧ operatorsv1.og_Spec updated = operatorsv1.og_Spec NewOperatorGroup
    ∧ operatorsv1.og_ObjectMeta updated
      = operatorsv1.og_ObjectMeta operatorGroup
    ∧ (∀ k, k ≠ (Namespace, operatorGroupName) →
            operatorGroups w1 !! k = operatorGroups w !! k)
    ∧ (issued w w1 [CallGet KOperatorGroup (Namespace, operatorGroupName)]
       ∨ issued w w1 [ CallGet KOperatorGroup (Namespace, operatorGroupName);
                       CallUpdate (ObjOperatorGroup updated) ])
    ∧ reconcileOperatorGroup ctx w1
      = Ret next
          (set_calls
             (calls w1
                ++ [CallGet KOperatorGroup (Namespace, operatorGroupName)])
             w1).
Proof.
  intros Hf Hk Hkey.
  destruct (decide (operatorsv1.og_Spec operatorGroup
                    = operatorsv1.og_Spec NewOperatorGroup)) as [Hspec|Hspec].
  - eexists _, operatorGroup.
    split; [by apply (reconcileOperatorGroup_settled ctx w operatorGroup)|].
    split; [exact Hk|]. split; [exact Hspec|]. split; [reflexivity|].
    split; [done|]. split; [by left|].
    by apply (reconcileOperatorGroup_settled ctx _ operatorGroup).
  - set (updated :=
           {| operatorsv1.og_TypeMeta := operatorsv1.og_TypeMeta operatorGroup;
              operatorsv1.og_ObjectMeta :=
                operatorsv1.og_ObjectMeta operatorGroup;
              operatorsv1.og_Spec := operatorsv1.og_Spec NewOperatorGroup |}).
    set (w0 := set_calls
                 (calls w
                    ++ [CallGet KOperatorGroup (Namespace, operatorGroupName)])
                 w).
    pose proof (Get_found zeroOperatorGroup ctx (Namespace, operatorGroupName)
                  w operatorGroup Hf) as Hg.
    pose proof (Update_present ctx updated w0 Hf) as Hu.
    assert (Hrun : reconcileOperatorGroup ctx w
                   = Ret next
                       (set_operatorGroups
                          (<[(Namespace, operatorGroupName) := updated]>
                             (operatorGroups w))
                          (set_calls
                             (calls w0 ++ [CallUpdate (ObjOperatorGroup updated)])
                             w0))).
    { unfold reconcileOperatorGroup. rewrite (bind_Ret _ _ _ _ _ (Hg Hk)).
      cbn [kindOf OperatorGroup_object]. cbv beta iota zeta.
      change (notNil None && negb (IsNotFound None)) with false.
      change (IsNotFound None) with false. cbv iota.
      rewrite bool_decide_eq_false_2 by done. cbn [negb].
      fold updated. fold w0.
      rewrite (bind_Ret _ _ _ _ _ (Hu ltac:(by cbn; rewrite Hkey; eexists))).
      cbn. by rewrite Hkey. }
    eexists _, updated. split; [exact Hrun|].
    split; [cbn; by rewrite lookup_insert_eq|].
    split; [reflexivity|]. split; [reflexivity|].
    split; [intros k Hne; cbn; by rewrite lookup_insert_ne|].
    split; [right; unfold issued; cbn; by rewrite <- app_assoc|].
    apply (reconcileOperatorGroup_settled ctx _ updated); [exact Hf | | done].
    cbn. by rewrite lookup_insert_eq.
Qed.

Lemma reconcileOperatorGroup_converges_witness :
  ∃ w1 updated,
    reconcileOperatorGroup Background
      (set_operatorGroups
         {[ (Namespace, operatorGroupName) :=
              {| operatorsv1.og_TypeMeta :=
                   operatorsv1.og_TypeMeta NewOperatorGroup;
                 operatorsv1.og_ObjectMeta :=
                   operatorsv1.og_ObjectMeta NewOperatorGroup;
                 operatorsv1.og_Spec :=
                   {| operatorsv1.TargetNamespaces := [];
                      operatorsv1.ServiceAccountName := "default";
                      operatorsv1.StaticProvidedAPIs := false |} |} ]}
         emptyWorld)
    = Ret next w1
    ∧ operatorGroups w1 !! (Namespace, operatorGroupName) = Some updated
    ∧ operatorsv1.og_Spec updated = operatorsv1.og_Spec NewOperatorGroup.
Proof.
  edestruct (reconcileOperatorGroup_converges Background)
    as (w1 & updated & Hrun & Hk & Hspec & _);
    [| | | exists w1, updated; split; [exact Hrun | by split]].
  - reflexivity.
  - cbn. apply lookup_singleton_eq.
  - reflexivity.
Defined.

(** The same for the Grafana: [reconcileGrafana] leaves the stored Grafana
    with the desired spec and its own metadata, writes at most once, and a
    second run right after only reads. *)
Theorem reconcileGrafana_converges ctx w grafana :
  faults w = [] →
  grafanas w !! (Namespace, grafanaName) = Some grafana →
  keyOf (integreatlyv1alpha1.g_ObjectMeta grafana) = (Namespace, grafanaName) →
  ∃ w1 updated,
    reconcileGrafana ctx w = Ret next w1
    ∧ grafanas w1 !! (Namespace, grafanaName) = Some updated
    ∧ integreatlyv1alpha1.g_Spec updated = integreatlyv1alpha1.g_Spec newGrafana
    ∧ integreatlyv1alpha1.g_ObjectMeta updated
      = integreatlyv1alpha1.g_ObjectMeta grafana
    ∧ (∀ k, k ≠ (Namespace, grafanaName) →
            grafanas w1 !! k = grafanas w !! k)
    ∧ (issued w w1 [CallGet KGrafana (Namespace, grafanaName)]
       ∨ issued w w1 [ CallGet KGrafana (Namespace, grafanaName);
                       CallUpdate (ObjGrafana updated) ])
    ∧ reconcileGrafana ctx w1
      = Ret next
          (set_calls
             (calls w1 ++ [CallGet KGrafana (Namespace, grafanaName)]) w1).
Proof.
  intros Hf Hk Hkey.
  destruct (decide (integreatlyv1alpha1.g_Spec grafana
                    = integreatlyv1alpha1.g_Spec newGrafana)) as [Hspec|Hspec].
  - eexists _, grafana.
    split; [by apply (reconcileGrafana_settled ctx w grafana)|].
    split; [exact Hk|]. split; [exact Hspec|]. split; [reflexivity|].
    split; [done|]. split; [by left|].
    by apply (reconcileGrafana_settled ctx _ grafana).
  - set (updated :=
           {| integreatlyv1alpha1.g_TypeMeta :=
                integreatlyv1alpha1.g_TypeMeta grafana;
              integreatlyv1alpha1.g_ObjectMeta :=
                integreatlyv1alpha1.g_ObjectMeta grafana;
              integreatlyv1alpha1.g_Spec :=
                integreatlyv1alpha1.g_Spec newGrafana |}).
    set (w0 := set_calls
                 (calls w ++ [CallGet KGrafana (Namespace, grafanaName)]) w).
    pose proof (Get_found zeroGrafana ctx (Namespace, grafanaName)
                  w grafana Hf) as Hg.
    pose proof (Update_present ctx updated w0 Hf) as Hu.
    assert (Hrun : reconcileGrafana ctx w
                   = Ret next
                       (set_grafanas
                          (<[(Namespace, grafanaName) := updated]> (grafanas w))
                          (set_calls
                             (calls w0 ++ [CallUpdate (ObjGrafana updated)])
                             w0))).
    { unfold reconcileGrafana. rewrite (bind_Ret _ _ _ _ _ (Hg Hk)).
      cbn [kindOf Grafana_object]. cbv beta iota zeta.
      change (notNil None && negb (IsNotFound None)) with false.
      change (IsNotFound None) with false. cbv iota.
      rewrite bool_decide_eq_false_2 by done. cbn [negb].
      fold updated. fold w0.
      rewrite (bind_Ret _ _ _ _ _ (Hu ltac:(by cbn; rewrite Hkey; eexists))).
      cbn. by rewrite Hkey. }
    eexists _, updated. split; [exact Hrun|].
    split; [cbn; by rewrite lookup_insert_eq|].
    split; [reflexivity|]. split; [reflexivity|].
    split; [intros k Hne; cbn; by rewrite lookup_insert_ne|].
    split; [right; unfold issued; cbn; by rewrite <- app_assoc|].
    apply (reconcileGrafana_settled ctx _ updated); [exact Hf | | done].
    cbn. by rewrite lookup_insert_eq.
Qed.

Lemma reconcileGrafana_converges_witness :
  ∃ w1 updated,
    reconcileGrafana Background
      (set_grafanas {[ (Namespace, grafanaName) :=
                         {| integreatlyv1alpha1.g_TypeMeta :=
                              integreatlyv1alpha1.g_TypeMeta newGrafana;
                            integreatlyv1alpha1.g_ObjectMeta :=
                              integreatlyv1alpha1.g_ObjectMeta newGrafana;
                            integreatlyv1alpha1.g_Spec :=
                              integreatlyv1alpha1.g_Spec zeroGrafana |} ]}
         emptyWorld)
    = Ret next w1
    ∧ grafanas w1 !! (Namespace, grafanaName) = Some updated
    ∧ integreatlyv1alpha1.g_Spec updated = integreatlyv1alpha1.g_Spec newGrafana.
Proof.
  edestruct (reconcileGrafana_converges Background)
    as (w1 & updated & Hrun & Hk & Hspec & _);
    [| | | exists w1, updated; split; [exact Hrun | by split]].
  - reflexivity.
  - cbn. apply lookup_singleton_eq.
  - reflexivity.
Defined.

(** ** The subscription *)

(** Of a subscription that is there, [reconcileSubscription] looks at
    [StartingCSV] only: when it is the desired one the step continues
    after the read and writes nothing, whatever the other fields of the
    subscription are. *)
Theorem reconcileSubscription_compares_startingCSV ctx w subscription spec w1 :
  Get v1alpha1.zeroSubscription ctx (Namespace, subscriptionName) w
    = Ret (subscription, None) w1 →
  v1alpha1.sub_Spec subscription = Some spec →
  v1alpha1.StartingCSV spec = grafanaCSV →
  reconcileSubscription ctx w = Ret next w1
  ∧ issued w w1 [CallGet KSubscription (Namespace, subscriptionName)]
  ∧ sameStore w w1.
Proof.
  intros Hg Hspec Hcsv.
  destruct (Get_spec _ _ _ _ _ _ _ Hg) as (Hc & Hs & _).
  split; [|by split].
  unfold reconcileSubscription. rewrite (bind_Ret _ _ _ _ _ Hg).
  cbv beta iota zeta.
  change (notNil None && negb (IsNotFound None)) with false.
  change (IsNotFound None) with false. cbv iota.
  rewrite Hspec. unfold deref, bind, ret. cbn [NewSubscription v1alpha1.sub_Spec].
  rewrite Hcsv. by rewrite String.eqb_refl.
Qed.

Lemma reconcileSubscription_compares_startingCSV_witness :
  driftedSubscription ≠ NewSubscription
  ∧ resultOf (reconcileSubscription Background
                (set_subscriptions
                   {[ (Namespace, subscriptionName) := driftedSubscription ]}
                   emptyWorld))
    = Some next.
Proof.
  split; [discriminate|].
  set (w := set_subscriptions _ emptyWorld).
  set (w1 := worldOf (Get v1alpha1.zeroSubscription Background
                        (Namespace, subscriptionName) w)).
  assert (Hg : Get v1alpha1.zeroSubscription Background
                 (Namespace, subscriptionName) w
               = Ret (driftedSubscription, None) w1) by run_model.
  destruct (reconcileSubscription_compares_startingCSV Background w
              driftedSubscription _ w1 Hg eq_refl eq_refl) as (Hrun & _).
  by rewrite Hrun.
Defined.

(** A subscription whose [Spec] is nil makes the step panic on the
    comparison: it does not return, and nothing was written. *)
Theorem reconcileSubscription_nil_spec ctx w subscription w1 :
  Get v1alpha1.zeroSubscription ctx (Namespace, subscriptionName) w
    = Ret (subscription, None) w1 →
  v1alpha1.sub_Spec subscription = None →
  reconcileSubscription ctx w = Panic w1
  ∧ issued w w1 [CallGet KSubscription (Namespace, subscriptionName)]
  ∧ sameStore w w1.
Proof.
  intros Hg Hspec.
  destruct (Get_spec _ _ _ _ _ _ _ Hg) as (Hc & Hs & _).
  split; [|by split].
  unfold reconcileSubscription. rewrite (bind_Ret _ _ _ _ _ Hg).
  cbv beta iota zeta.
  change (notNil None && negb (IsNotFound None)) with false.
  change (IsNotFound None) with false. cbv iota.
  by rewrite Hspec.
Qed.

Lemma reconcileSubscription_nil_spec_witness :
  resultOf (reconcileSubscription Background
              (set_subscriptions
                 {[ (Namespace, subscriptionName) := bareSubscription ]}
                 emptyWorld))
  = None.
Proof.
  set (w := set_subscriptions _ emptyWorld).
  set (w1 := worldOf (Get v1alpha1.zeroSubscription Background
                        (Namespace, subscriptionName) w)).
  assert (Hg : Get v1alpha1.zeroSubscription Background
                 (Namespace, subscriptionName) w
               = Ret (bareSubscription, None) w1) by run_model.
  destruct (reconcileSubscription_nil_spec Background w bareSubscription w1
              Hg eq_refl) as (Hrun & _).
  by rewrite Hrun.
Defined.

(** Of the three writes of an upgrade the later ones are issued only after
    the earlier ones succeeded.  When deleting the subscription fails, the
    step ends with that error and the store is as it was.  When deleting
    the installed version record fails, the step ends with that error, no
    create is issued, and the subscription stays deleted. *)
Theorem reconcileSubscription_delete_fails ctx w subscription spec w1 :
  Get v1alpha1.zeroSubscription ctx (Namespace, subscriptionName) w
    = Ret (subscription, None) w1 →
  v1alpha1.sub_Spec subscription = Some spec →
  v1alpha1.StartingCSV spec ≠ grafanaCSV →
  (∀ (e : StatusError) w2,
     Delete ctx subscription w1 = Ret (Some e) w2 →
     reconcileSubscription ctx w = Ret (reconcileError (Some e)) w2
     ∧ issued w w2 [ CallGet KSubscription (Namespace, subscriptionName);
                     CallDelete (ObjSubscription subscription) ]
     ∧ sameStore w w2)
  ∧ (∀ w2 (e : StatusError) w3,
     Delete ctx subscription w1 = Ret None w2 →
     Delete ctx (installedOf subscription) w2 = Ret (Some e) w3 →
     reconcileSubscription ctx w = Ret (reconcileError (Some e)) w3
     ∧ issued w w3
         [ CallGet KSubscription (Namespace, subscriptionName);
           CallDelete (ObjSubscription subscription);
           CallDelete (ObjClusterServiceVersion (installedOf subscription)) ]
     ∧ subscriptions w3
       = delete (keyOf (v1alpha1.sub_ObjectMeta subscription))
           (subscriptions w)).
Proof.
  intros Hg Hspec Hne.
  destruct (Get_spec _ _ _ _ _ _ _ Hg) as (Hc & Hs & _).
  apply String.eqb_neq in Hne.
  assert (Hstart : reconcileSubscription ctx w
                   = bind (Delete ctx subscription)
                       (λ err,
                          if notNil err then ret (reconcileError err)
                          else
                            bind (Delete ctx (installedOf subscription))
                              (λ err,
                                 if notNil err then ret (reconcileError err)
                                 else bind (Create ctx subscription)
                                        (λ err, ret (creationResult err))))
                       w1).
  { unfold reconcileSubscription. rewrite (bind_Ret _ _ _ _ _ Hg).
    simpl. rewrite Hspec. simpl.
    unfold bind at 1. simpl. unfold bind at 1. simpl.
    change (String.eqb _ _)
      with (String.eqb (v1alpha1.StartingCSV spec) grafanaCSV).
    rewrite Hne. by fold (installedOf subscription). }
  split.
  - intros e w2 Hd. destruct (Delete_spec _ _ _ _ _ Hd) as (Hc2 & Hs2 & _).
    split; [|split].
    + by rewrite Hstart, (bind_Ret _ _ _ _ _ Hd).
    + apply (issued_trans _ _ _ _ _ Hc Hc2).
    + eapply sameStore_trans; [exact Hs | by apply Hs2].
  - intros w2 e w3 Hd1 Hd2.
    destruct (Delete_spec _ _ _ _ _ Hd1) as (Hc2 & _ & Hs2).
    destruct (Delete_spec _ _ _ _ _ Hd2) as (Hc3 & Hs3 & _).
    split; [|split].
    + rewrite Hstart, (bind_Ret _ _ _ _ _ Hd1). cbn [notNil].
      by rewrite (bind_Ret _ _ _ _ _ Hd2).
    + apply (issued_trans _ _ _ _ [_; _] Hc).
      apply (issued_trans _ _ _ [_] [_] Hc2 Hc3).
    + destruct (Hs3 ltac:(done)) as [(_ & _ & Hsub3 & _) _].
      destruct Hs as [(_ & _ & Hsub1 & _) _].
      rewrite Hsub3. cbn in Hs2. rewrite (Hs2 eq_refl). by rewrite Hsub1.
Qed.

Lemma reconcileSubscription_delete_fails_witness :
  resultOf (reconcileSubscription Background
              (set_clusterServiceVersions ∅ staleWorld))
  = Some (reconcileError (Some errNotFound))
  ∧ subscriptions (worldOf (reconcileSubscription Background
                              (set_clusterServiceVersions ∅ staleWorld)))
    = delete (Namespace, subscriptionName) (subscriptions staleWorld).
Proof.
  set (w := set_clusterServiceVersions ∅ staleWorld).
  set (w1 := worldOf (Get v1alpha1.zeroSubscription Background
                        (Namespace, subscriptionName) w)).
  set (w2 := worldOf (Delete Background staleSubscription w1)).
  set (w3 := worldOf (Delete Background (installedOf staleSubscription) w2)).
  assert (Hg : Get v1alpha1.zeroSubscription Background
                 (Namespace, subscriptionName) w
               = Ret (staleSubscription, None) w1) by run_model.
  assert (Hd1 : Delete Background staleSubscription w1 = Ret None w2)
    by run_model.
  assert (Hd2 : Delete Background (installedOf staleSubscription) w2
                = Ret (Some errNotFound) w3) by run_model.
  destruct (proj2 (reconcileSubscription_delete_fails Background w
                     staleSubscription _ w1 Hg eq_refl ltac:(discriminate))
              w2 errNotFound w3 Hd1 Hd2) as (Hrun & _ & Hsubs).
  rewrite Hrun. split; [reflexivity|]. exact Hsubs.
Defined.

(** ** What approving an install plan can do *)

Lemma ListInstallPlans_items ctx ns w items w1 :
  ListInstallPlans ctx ns w = Ret (items, None) w1 →
  items = filter (λ p, metav1.Namespace (v1alpha1.ip_ObjectMeta p) = ns)
            (installPlans w).
Proof.
  unfold ListInstallPlans, bind, request, ret.
  repeat case_match; intros; by simplify_eq.
Qed.

Lemma scanInstallPlans_world items w :
  worldOf (scanInstallPlans items w) = w.
Proof.
  induction items as [|q items IH]; [done|]. simpl.
  destruct (v1alpha1.ClusterServiceVersionNames (v1alpha1.ip_Spec q));
    [done|].
  unfold bind at 1. simpl. repeat case_match; done.
Qed.

Lemma scanInstallPlans_found items w p w' :
  scanInstallPlans items w = Ret (scanDone (Some p)) w' →
  p ∈ items ∧ matchesGrafana p
  ∧ v1alpha1.Approved (v1alpha1.ip_Spec p) = false.
Proof.
  induction items as [|q items IH]; [done|]. simpl.
  destruct (v1alpha1.ClusterServiceVersionNames (v1alpha1.ip_Spec q))
    as [|csv names] eqn:Hn; [done|].
  unfold bind at 1. simpl.
  destruct (negb (String.eqb csv grafanaCSV) || _) eqn:Htest.
  - intros H. destruct (IH H) as (Hin & Hm & Ha).
    split; [by right | by split].
  - apply (ignored_iff _ _ _ Hn) in Htest.
    destruct (v1alpha1.Approved (v1alpha1.ip_Spec q)) eqn:Ha; [done|].
    intros H. unfold ret in H. simplify_eq. split; [by left | by split].
Qed.

(** Whatever the store holds and answers, [approveInstallPlan] writes at
    most once: either the [List] is its only request and the store is as
    it was, or it issues one more request, an update that sets [Approved]
    on a stored plan of the namespace that matched and was not approved,
    and no stored object other than install plans changes.  It never
    creates or deletes anything. *)
Theorem approveInstallPlan_footprint ctx w :
  (issued w (worldOf (approveInstallPlan ctx w))
     [CallList KInstallPlan Namespace]
   ∧ sameStore w (worldOf (approveInstallPlan ctx w)))
  ∨ (∃ p,
       p ∈ installPlans w
       ∧ matchesGrafana p
       ∧ v1alpha1.Approved (v1alpha1.ip_Spec p) = false
       ∧ issued w (worldOf (approveInstallPlan ctx w))
           [ CallList KInstallPlan Namespace;
             CallUpdate (ObjInstallPlan (setApproved p)) ]
       ∧ sameOutsidePlans w (worldOf (approveInstallPlan ctx w))
       ∧ (installPlans (worldOf (approveInstallPlan ctx w)) = installPlans w
          ∨ installPlans (worldOf (approveInstallPlan ctx w))
            = replacePlan (setApproved p) (installPlans w))).
Proof.
  destruct (ListInstallPlans_returns ctx Namespace w) as (items & e & w1 & Hl).
  destruct (ListInstallPlans_spec _ _ _ _ _ _ Hl) as [Hc Hs].
  destruct e as [e|].
  { left. by rewrite (approveInstallPlan_list_error _ _ _ _ _ Hl). }
  rewrite (approveInstallPlan_listed _ _ _ _ Hl).
  pose proof (scanInstallPlans_world items w1) as Hw.
  destruct (scanInstallPlans items w1) as [[r|[p|]] w2|w2] eqn:Hscan;
    simpl in Hw; subst w2; try (by left).
  destruct (scanInstallPlans_found _ _ _ _ Hscan) as (Hin & Hm & Ha).
  destruct (UpdateInstallPlan_returns ctx (setApproved p) w1) as (e & w2 & Hu).
  destruct (UpdateInstallPlan_spec _ _ _ _ _ Hu) as (Hc2 & Ho2 & Hok & Hko).
  rewrite (bind_Ret _ _ _ _ _ Hu). simpl.
  right. exists p.
  rewrite (ListInstallPlans_items _ _ _ _ _ Hl) in Hin.
  apply list_elem_of_filter in Hin as [_ Hin].
  destruct Hs as [Ho1 Hp1].
  split; [exact Hin|]. split; [exact Hm|]. split; [exact Ha|].
  split; [apply (issued_trans _ _ _ [_] [_] Hc Hc2)|].
  split; [by eapply sameOutsidePlans_trans|].
  destruct e as [e|]; [left | right].
  - rewrite Hko by done. exact Hp1.
  - rewrite Hok by done. by rewrite Hp1.
Qed.

(** ** What an invocation hands to the scheduler *)

Lemma ensures_ret {A} (Q : A → Prop) a : Q a → ensures Q (ret a).
Proof. intros Ha w b w' H. unfold ret in H. by simplify_eq. Qed.

Lemma ensures_panic {A} (Q : A → Prop) : ensures Q panic.
Proof. by intros w b w' H. Qed.

Lemma ensures_bind_post {A B} (P : A → Prop) (Q : B → Prop) (m : M A) f :
  ensures P m → (∀ a, P a → ensures Q (f a)) → ensures Q (bind m f).
Proof.
  intros Hm Hf w b w' H. unfold bind in H.
  destruct (m w) as [a w1|w1] eqn:Hmw; [|done].
  eapply Hf; [eapply Hm|]; done.
Qed.

Lemma ensures_bind {A B} (Q : B → Prop) (m : M A) f :
  (∀ a, ensures Q (f a)) → ensures Q (bind m f).
Proof.
  intros Hf. apply (ensures_bind_post (λ _, True)); [done|auto].
Qed.

Lemma shaped_end : shaped end_.
Proof. unfold shaped. simpl. conjuncts. by left. Qed.

Lemma shaped_next : shaped next.
Proof. unfold shaped. simpl. conjuncts. by left. Qed.

Lemma shaped_reconcileError e : shaped (reconcileError e).
Proof. unfold shaped. simpl. conjuncts. by left. Qed.

Lemma shaped_requeue_gate : shaped (requeue (10 * Second) None).
Proof. unfold shaped. simpl. conjuncts. right. by right. Qed.

Lemma shaped_creationResult e : shaped (creationResult e).
Proof.
  unfold creationResult. destruct e as [e|]; [|apply shaped_end].
  destruct (IsAlreadyExists _);
    [apply shaped_next | apply shaped_reconcileError].
Qed.

Lemma shaped_updationResult e : shaped (updationResult e).
Proof.
  unfold updationResult. destruct e as [e|]; [|apply shaped_next].
  destruct (IsConflict _); [|apply shaped_reconcileError].
  unfold shaped. simpl. conjuncts. right. by left.
Qed.

Create HintDb shaped.
#[global] Hint Resolve shaped_end shaped_next shaped_reconcileError
  shaped_requeue_gate shaped_creationResult shaped_updationResult : shaped.

(** Walks through the body of a step towards each of its returns. *)
Ltac step_ensures :=
  repeat first
    [ apply ensures_ret; solve [auto with shaped]
    | apply ensures_panic
    | apply ensures_bind; intros ?
    | match goal with
      | |- ensures _ (let '(_, _) := ?x in _) => destruct x
      | |- ensures _ (if ?c then _ else _) => destruct c
      | |- ensures _ (match ?x with _ => _ end) => destruct x
      end ].

Lemma scanInstallPlans_shaped items :
  ensures (λ exit, match exit with
                   | scanReturn r => shaped r
                   | scanDone _ => True
                   end) (scanInstallPlans items).
Proof.
  induction items as [|q items IH]; simpl; [by apply ensures_ret|].
  apply ensures_bind. intros csv.
  repeat case_match; try done; apply ensures_ret; auto with shaped.
Qed.

Lemma steps_shaped ctx :
  Forall (λ f : ReconcileFunc, ensures shaped (f ctx)) reconcilers.
Proof.
  unfold reconcilers.
  repeat (apply Forall_cons_2; [|]); [..|apply Forall_nil_2].
  - unfold reconcileNamespace. step_ensures.
  - unfold reconcileOperatorGroup. step_ensures.
  - unfold reconcileSubscription, deref. step_ensures.
  - unfold approveInstallPlan. apply ensures_bind. intros [items e].
    destruct (notNil e); [step_ensures|].
    destruct (Nat.eqb _ _); [step_ensures|].
    eapply ensures_bind_post; [apply scanInstallPlans_shaped|].
    intros [r|[p|]] Hr; [by apply ensures_ret | step_ensures..].
  - unfold setGrafanaWatch. step_ensures.
  - unfold reconcileGrafana. step_ensures.
Qed.

(** Whatever the store holds and answers, what [Reconcile] returns never
    asks for an immediate requeue, asks for a delay of nothing, two
    seconds or ten seconds, and when it carries an error asks for no
    requeue at all (the scheduler's own back-off applies). *)
Theorem Reconcile_result_shape ctx req w res e w' :
  Reconcile ctx req w = Ret (res, e) w' →
  Requeue res = false
  ∧ (RequeueAfter res = 0
     ∨ RequeueAfter res = 2 * Second
     ∨ RequeueAfter res = 10 * Second)
  ∧ (e ≠ None → res = zeroResult).
Proof.
  unfold Reconcile. pose proof (steps_shaped ctx) as Hsteps.
  revert w. induction Hsteps as [|f fs Hf _ IH]; intros w Hrun.
  - simpl in Hrun. unfold ret in Hrun. simplify_eq.
    split; [done|]. split; [by left | done].
  - simpl in Hrun. unfold bind in Hrun.
    destruct (f ctx w) as [r w1|w1] eqn:Hfw; [|done].
    destruct (stop r) eqn:Hstop; [|by eapply IH].
    unfold ret, result in Hrun. simplify_eq.
    destruct (Hf _ _ _ Hfw) as (Hq & Hd & He).
    split; [done|]. split; [done|]. intros Hne. by apply He.
Qed.

Lemma Reconcile_result_shape_witness :
  Requeue (Result (requeue (10 * Second) None)) = false
  ∧ RequeueAfter (Result (requeue (10 * Second) None)) = 10 * Second.
Proof.
  set (w := settledWorld [approvedPlan]).
  assert (Hrun : Reconcile Background ("", "") w
                 = Ret (Result (requeue (10 * Second) None), None)
                     (worldOf (Reconcile Background ("", "") w)))
    by run_model.
  destruct (Reconcile_result_shape Background ("", "") w _ _ _ Hrun)
    as (Hq & _ & _).
  split; [exact Hq | reflexivity].
Defined.

(** ** The requests an invocation can issue *)

#[global] Instance frame_preorder P : PreOrder (frame P).
Proof.
  split.
  - intros w. split; [done|]. split; [done|]. exists [].
    split; [by rewrite app_nil_r | apply Forall_nil_2].
  - intros w1 w2 w3 (Hf1 & Hw1 & cs1 & Hc1 & HP1) (Hf2 & Hw2 & cs2 & Hc2 & HP2).
    split; [congruence|]. split; [congruence|]. exists (cs1 ++ cs2).
    split; [by rewrite Hc2, Hc1, app_assoc | by apply Forall_app_2].
Qed.

#[global] Instance callsVia_preorder P : PreOrder (callsVia P).
Proof.
  split.
  - intros w. exists []. split; [by rewrite app_nil_r | apply Forall_nil_2].
  - intros w1 w2 w3 (cs1 & Hc1 & HP1) (cs2 & Hc2 & HP2). exists (cs1 ++ cs2).
    split; [by rewrite Hc2, Hc1, app_assoc | by apply Forall_app_2].
Qed.

#[global] Instance settledGate_preorder : PreOrder settledGate.
Proof.
  split.
  - intros w _. reflexivity.
  - intros w1 w2 w3 H1 H2 Hw. specialize (H1 Hw).
    etrans; [exact H1|]. apply H2. destruct H1 as [-> _]. exact Hw.
Qed.

Lemma frame_mono (P Q : Call → bool) w w' :
  (∀ c, P c = true → Q c = true) → frame P w w' → frame Q w w'.
Proof.
  intros HPQ (Hf & Hw & cs & Hc & HP). split; [done|]. split; [done|].
  exists cs. split; [done|]. eapply Forall_impl; [exact HP | exact HPQ].
Qed.

Lemma frame_callsVia P {A} (m : M A) :
  preserves (frame P) m → preserves (callsVia P) m.
Proof. intros H w. by destruct (H w) as (_ & _ & Hcs). Qed.

Lemma frame_one P c w w' :
  P c = true →
  grafanaWatchEstablished w' = grafanaWatchEstablished w →
  watches w' = watches w →
  calls w' = calls w ++ [c] →
  frame P w w'.
Proof.
  intros HP Hf Hw Hc. split; [done|]. split; [done|]. exists [c].
  split; [done|]. by apply Forall_singleton.
Qed.

(** Closes [preserves (frame P) m] for a request of the client that
    satisfies [P]. *)
Ltac request_frame HP :=
  intros w; unfold bind, request, ret; simpl;
  repeat case_match; simplify_eq; simpl;
  apply (frame_one _ _ _ _ HP); simpl;
  rewrite ?set_stored_gate, ?set_stored_watches, ?set_stored_calls; done.

Lemma Get_frame P {T} `{LawfulObject T} (zero : T) ctx key :
  P (CallGet (kindOf T) key) = true → preserves (frame P) (Get zero ctx key).
Proof. intros HP. unfold Get. request_frame HP. Qed.

Lemma Create_frame P {T} `{LawfulObject T} ctx (o : T) :
  P (CallCreate (toObject o)) = true → preserves (frame P) (Create ctx o).
Proof. intros HP. unfold Create. request_frame HP. Qed.

Lemma Update_frame P {T} `{LawfulObject T} ctx (o : T) :
  P (CallUpdate (toObject o)) = true → preserves (frame P) (Update ctx o).
Proof. intros HP. unfold Update. request_frame HP. Qed.

Lemma Delete_frame P {T} `{LawfulObject T} ctx (o : T) :
  P (CallDelete (toObject o)) = true → preserves (frame P) (Delete ctx o).
Proof. intros HP. unfold Delete. request_frame HP. Qed.

Lemma ListInstallPlans_frame P ctx ns :
  P (CallList KInstallPlan ns) = true →
  preserves (frame P) (ListInstallPlans ctx ns).
Proof. intros HP. unfold ListInstallPlans. request_frame HP. Qed.

Lemma UpdateInstallPlan_frame P ctx p :
  P (CallUpdate (ObjInstallPlan p)) = true →
  preserves (frame P) (UpdateInstallPlan ctx p).
Proof. intros HP. unfold UpdateInstallPlan. request_frame HP. Qed.

Lemma scanInstallPlans_frame P items :
  preserves (frame P) (scanInstallPlans items).
Proof. intros w. rewrite scanInstallPlans_world. reflexivity. Qed.

(** Walks through the body of a step; every request met has to be a
    quiet one. *)
Ltac step_frame :=
  repeat first
    [ apply preserves_ret; apply _
    | apply preserves_panic; apply _
    | apply Get_frame; [apply _ | reflexivity]
    | apply Create_frame; [apply _ | reflexivity]
    | apply Update_frame; [apply _ | reflexivity]
    | apply Delete_frame; [apply _ | reflexivity]
    | apply ListInstallPlans_frame; compute_done
    | apply UpdateInstallPlan_frame; reflexivity
    | apply scanInstallPlans_frame
    | apply preserves_bind; [apply _ | | intros ?]
    | match goal with
      | |- preserves _ (let '(_, _) := ?x in _) => destruct x
      | |- preserves _ (if ?c then _ else _) => destruct c
      | |- preserves _ (match ?x with _ => _ end) => destruct x
      end ].

Lemma reconcileNamespace_frame ctx :
  preserves (frame quiet) (reconcileNamespace ctx).
Proof. unfold reconcileNamespace. step_frame. Qed.

Lemma reconcileOperatorGroup_frame ctx :
  preserves (frame quiet) (reconcileOperatorGroup ctx).
Proof. unfold reconcileOperatorGroup. step_frame. Qed.

Lemma reconcileSubscription_frame ctx :
  preserves (frame quiet) (reconcileSubscription ctx).
Proof. unfold reconcileSubscription, deref. step_frame. Qed.

Lemma approveInstallPlan_frame ctx :
  preserves (frame quiet) (approveInstallPlan ctx).
Proof. unfold approveInstallPlan. step_frame. Qed.

Lemma reconcileGrafana_frame ctx :
  preserves (frame quiet) (reconcileGrafana ctx).
Proof. unfold reconcileGrafana. step_frame. Qed.

Lemma quiet_permitted c : quiet c = true → permitted c = true.
Proof. unfold quiet. by intros [H _]%andb_true_iff. Qed.

Lemma quiet_not_watch c : quiet c = true → negb (isWatch c) = true.
Proof. unfold quiet. by intros [_ H]%andb_true_iff. Qed.

Lemma setGrafanaWatch_callsVia ctx :
  preserves (callsVia permitted) (setGrafanaWatch ctx).
Proof.
  intros w.
  unfold setGrafanaWatch, ListGrafanaDataSources, Watch, bind, request, ret.
  simpl. repeat case_match; simplify_eq; simpl;
    first [ by (exists []; rewrite app_nil_r; split; [|apply Forall_nil_2])
          | by (eexists [_]; split; [reflexivity|];
                repeat apply Forall_cons_2; try apply Forall_nil_2)
          | by (eexists [_; _]; split; [by rewrite <- app_assoc|];
                repeat apply Forall_cons_2; try apply Forall_nil_2) ].
Qed.

Lemma reconcilers_callsVia ctx :
  Forall (λ f : ReconcileFunc, preserves (callsVia permitted) (f ctx))
    reconcilers.
Proof.
  assert (Hq : ∀ f : ReconcileFunc,
             preserves (frame quiet) (f ctx) →
             preserves (callsVia permitted) (f ctx)).
  { intros f Hf. apply frame_callsVia. intros w.
    eapply frame_mono; [apply quiet_permitted | apply Hf]. }
  unfold reconcilers.
  repeat (apply Forall_cons_2;
          [first [ apply setGrafanaWatch_callsVia
                 | apply Hq;
                   first [ apply reconcileNamespace_frame
                         | apply reconcileOperatorGroup_frame
                         | apply reconcileSubscription_frame
                         | apply approveInstallPlan_frame
                         | apply reconcileGrafana_frame ] ]|]).
  apply Forall_nil_2.
Qed.

(** Whatever the store holds and answers, the requests of one invocation
    are: reads of the namespace, the operator group, the subscription and
    the Grafana, the list of the install plans of the namespace and the
    probe; creates of a namespace, operator group, subscription or
    Grafana; updates of an operator group, install plan or Grafana;
    deletes of a subscription or cluster service version; a watch on
    Grafana.  In particular no namespace, operator group, install plan or
    Grafana is ever deleted, and no install plan is ever created. *)
Theorem Reconcile_footprint ctx req w :
  ∃ cs,
    calls (worldOf (Reconcile ctx req w)) = calls w ++ cs
    ∧ Forall (λ c, permitted c = true) cs.
Proof.
  apply (preserves_runReconcilers (callsVia permitted) _ _
           (reconcilers_callsVia ctx)).
Qed.

Lemma reconcilers_settledGate ctx :
  Forall (λ f : ReconcileFunc, preserves settledGate (f ctx)) reconcilers.
Proof.
  assert (Hq : ∀ f : ReconcileFunc,
             preserves (frame quiet) (f ctx) →
             preserves settledGate (f ctx)).
  { intros f Hf w _.
    eapply frame_mono; [apply quiet_not_watch | apply Hf]. }
  unfold reconcilers.
  repeat (apply Forall_cons_2;
          [first [ apply Hq;
                   first [ apply reconcileNamespace_frame
                         | apply reconcileOperatorGroup_frame
                         | apply reconcileSubscription_frame
                         | apply approveInstallPlan_frame
                         | apply reconcileGrafana_frame ]
                 | intros w Hw; rewrite setGrafanaWatch_established by done;
                   reflexivity ]|]).
  apply Forall_nil_2.
Qed.

(** Once the Grafana watch is established, no invocation asks for a watch
    again: the flag stays set, the watches of the controller are as they
    were, and none of the requests issued is a watch registration. *)
Theorem Reconcile_established_no_watch ctx req w :
  grafanaWatchEstablished w = true →
  grafanaWatchEstablished (worldOf (Reconcile ctx req w)) = true
  ∧ watches (worldOf (Reconcile ctx req w)) = watches w
  ∧ ∃ cs,
      calls (worldOf (Reconcile ctx req w)) = calls w ++ cs
      ∧ Forall (λ c, isWatch c = false) cs.
Proof.
  intros Hw. unfold Reconcile.
  destruct (preserves_runReconcilers settledGate _ _
              (reconcilers_settledGate ctx) w Hw) as (Hf & Hws & cs & Hc & HP).
  split; [by rewrite Hf|]. split; [exact Hws|]. exists cs. split; [exact Hc|].
  eapply Forall_impl; [exact HP|]. intros c. simpl.
  destruct (isWatch c); simpl; congruence.
Qed.

Lemma Reconcile_established_no_watch_witness :
  watches (worldOf (Reconcile Background ("", "") convergedWorld))
  = [KGrafana].
Proof.
  destruct (Reconcile_established_no_watch Background ("", "") convergedWorld
              eq_refl) as (_ & Hws & _).
  exact Hws.
Defined.

(** ** The digest, further *)

Lemma hexDigit_hexChars d : hexDigit d ∈ hexChars.
Proof.
  unfold hexDigit, hexChars. simpl.
  repeat case_match; set_solver.
Qed.

Lemma Sprintf_x_length b : String.length (Sprintf_x b) = (2 * length b)%nat.
Proof. induction b as [|c b IH]; simpl; [done|]. rewrite IH. lia. Qed.

Lemma Sprintf_x_hexChars b :
  Forall (λ c, c ∈ hexChars) (String.list_ascii_of_string (Sprintf_x b)).
Proof.
  induction b as [|c b IH]; simpl; [apply Forall_nil_2|].
  repeat (apply Forall_cons_2; [apply hexDigit_hexChars|]). exact IH.
Qed.

(** The digest has a fixed width: whatever the config map holds (nothing
    at all included) and whatever the order of [range], it is eight
    lower-case hexadecimal digits. *)
Theorem computeConfigMapHash_width order cm :
  String.length (computeConfigMapHashIn order cm) = 8%nat
  ∧ Forall (λ c, c ∈ hexChars)
      (String.list_ascii_of_string (computeConfigMapHashIn order cm)).
Proof.
  rewrite computeConfigMapHashIn_serialize. split.
  - by rewrite Sprintf_x_length.
  - apply Sprintf_x_hexChars.
Qed.

Lemma computeConfigMapHash_rangeOrder order cm :
  rangeOrder (Data cm) order →
  computeConfigMapHashIn order cm = computeConfigMapHash cm.
Proof.
  intros Ho. unfold computeConfigMapHash.
  rewrite !computeConfigMapHashIn_serialize.
  by rewrite (sort_Strings_perm _ _ Ho).
Qed.

Lemma sort_Strings_pair k k' :
  String.le k k' → sort_Strings [k'; k] = [k; k'] ∧ sort_Strings [k; k'] = [k; k'].
Proof.
  intros Hle.
  assert (Hs : Sorted String.le [k; k']).
  { repeat constructor. exact Hle. }
  split; apply (Sorted_unique String.le); try done;
    try (apply Sorted_merge_sort; apply _);
    unfold sort_Strings; rewrite merge_sort_Permutation; [apply perm_swap|done].
Qed.

(** The separator is no escape: a value that holds a line feed can stand
    for a second key and its value.  A config map with the one key [k]
    whose value is [v], a line feed, [k'], a line feed and [v'] has the
    digest of the config map with the two keys [k] and [k'] and the values
    [v] and [v'], when [k] sorts before [k']. *)
Theorem computeConfigMapHash_separator k v k' v' :
  String.le k k' → k ≠ k' →
  computeConfigMapHash
    {| Data := {[ k := v +:+ newline +:+ k' +:+ newline +:+ v' ]} |}
  = computeConfigMapHash {| Data := <[k := v]> {[ k' := v' ]} |}.
Proof.
  intros Hle Hne. unfold computeConfigMapHash.
  rewrite !computeConfigMapHashIn_serialize. cbn [Data].
  assert (H1 : sort_Strings
                 (map_to_list
                    ({[ k := v +:+ newline +:+ k' +:+ newline +:+ v' ]}
                       : gmap string string)).*1 = [k]).
  { by rewrite map_to_list_singleton. }
  assert (H2 : sort_Strings
                 (map_to_list (<[k := v]> ({[ k' := v' ]}
                                  : gmap string string))).*1 = [k; k']).
  { rewrite <- (proj2 (sort_Strings_pair k k' Hle)).
    apply sort_Strings_perm.
    rewrite map_to_list_insert by (by rewrite lookup_singleton_ne).
    by rewrite map_to_list_singleton. }
  rewrite H1, H2. do 3 f_equal. simpl serialize. unfold index.
  rewrite lookup_singleton_eq, lookup_insert_eq,
    lookup_insert_ne, lookup_singleton_eq by done.
  cbn [default from_option id]. rewrite !bytesOf_app.
  change (bytesOf newline) with hashSeparator.
  unfold hashSeparator. by rewrite <- !app_assoc.
Qed.

Lemma computeConfigMapHash_separator_witness :
  computeConfigMapHash {| Data := {[ "a" := "1" +:+ newline +:+ "b"
                                              +:+ newline +:+ "2" ]} |}
  = computeConfigMapHash cmBA.
Proof.
  rewrite (computeConfigMapHash_separator "a" "1" "b" "2");
    [compute_done | compute_done | discriminate].
Defined.

(** Changing one byte of one value changes the digest, for the order of
    [range] the model fixes (the statement of C4, on
    [computeConfigMapHash] itself). *)
Lemma computeConfigMapHash_byte (m : gmap string string) k pre c c' post :
  m !! k = Some (pre +:+ String c post) →
  c ≠ c' →
  computeConfigMapHash {| Data := m |}
  ≠ computeConfigMapHash {| Data := <[k := pre +:+ String c' post]> m |}.
Proof.
  intros Hk Hne Heq. unfold computeConfigMapHash in Heq.
  set (v := pre +:+ String c post) in *.
  set (v' := pre +:+ String c' post) in *.
  rewrite !computeConfigMapHashIn_serialize in Heq. cbn [Data] in Heq.
  assert (Hsame : sort_Strings (map_to_list (<[k:=v']> m)).*1
                  = sort_Strings (map_to_list m).*1).
  { apply sort_Strings_perm. by eapply keys_insert_present. }
  rewrite Hsame in Heq. clear Hsame.
  assert (Hin : k ∈ sort_Strings (map_to_list m).*1).
  { apply sort_Strings_elem, keys_elem. by eexists. }
  assert (Hnd : NoDup (sort_Strings (map_to_list m).*1)).
  { apply sort_Strings_NoDup, NoDup_fst_map_to_list. }
  destruct (list_elem_of_split _ _ Hin) as (ks1 & ks2 & Hks).
  rewrite Hks in Heq, Hnd.
  apply NoDup_app in Hnd as (_ & Hk1 & Hnd).
  apply NoDup_cons in Hnd as [Hk2 _].
  assert (H1 : serialize (<[k:=v']> m) ks1 = serialize m ks1).
  { apply serialize_ext. intros k0 Hk0. unfold index.
    rewrite lookup_insert_ne; [done|]. intros <-.
    apply (Hk1 k Hk0). by left. }
  assert (H2 : serialize (<[k:=v']> m) ks2 = serialize m ks2).
  { apply serialize_ext. intros k0 Hk0. unfold index.
    rewrite lookup_insert_ne; [done|]. by intros <-. }
  rewrite !serialize_app, !serialize_cons, H1, H2 in Heq.
  unfold index in Heq. rewrite lookup_insert_eq, Hk in Heq.
  cbn [default from_option id] in Heq.
  unfold v, v' in Heq. rewrite !bytesOf_app, !bytesOf_String in Heq.
  apply digest_inj in Heq; [|apply Write_uint32; unfold isUint32,
                               fnv.New32a, fnv.offset32; lia..].
  assert (Hshape : ∀ b,
            serialize m ks1 ++ bytesOf k ++ hashSeparator
            ++ (bytesOf pre ++ b :: bytesOf post)
            ++ hashSeparator ++ serialize m ks2
            = (serialize m ks1 ++ bytesOf k ++ hashSeparator ++ bytesOf pre)
              ++ b :: (bytesOf post ++ hashSeparator ++ serialize m ks2)).
  { intros b. by rewrite <- !app_assoc. }
  rewrite !Hshape in Heq. revert Heq.
  apply Write_one_byte.
  - unfold isUint32, fnv.New32a, fnv.offset32. lia.
  - apply byte_of_ascii_isByte.
  - apply byte_of_ascii_isByte.
  - repeat (apply Forall_app_2;
            auto using bytesOf_isByte, hashSeparator_isByte,
                       serialize_isByte).
  - intros Hc. by apply byte_of_ascii_inj in Hc.
Qed.

(** ** The components of a UI plugin *)

(** The pod of [newDeployment] has one container, and the volumes the pod
    declares are the volumes the container mounts, name by name: the
    serving certificate alone without a config map, the serving
    certificate and the plugin configuration with one. *)
Theorem newDeployment_volumes info namespace config :
  ∃ c,
    uiplugin.Containers (podOf (uiplugin.newDeployment info namespace config))
      = [c]
    ∧ uiplugin.vm_Name <$> uiplugin.c_VolumeMounts c
      = uiplugin.vol_Name
          <$> uiplugin.Volumes
                (podOf (uiplugin.newDeployment info namespace config))
    ∧ uiplugin.vm_Name <$> uiplugin.c_VolumeMounts c
      = match uiplugin.info_ConfigMap info with
        | None => ["serving-cert"]
        | Some _ => ["serving-cert"; "plugin-config"]
        end
    ∧ Forall (λ m, uiplugin.vm_ReadOnly m = true) (uiplugin.c_VolumeMounts c).
Proof.
  deployment_cases info config.
  all: eexists; (split; [reflexivity|]).
  all: cbn [uiplugin.c_VolumeMounts app fmap list_fmap uiplugin.vm_Name
            uiplugin.vol_Name].
  all: split; [reflexivity|split; [reflexivity|]].
  all: repeat constructor.
Qed.

(** The arguments of the container are the plugin's own three flags, the
    port first, followed by the extra arguments in their order; without
    extra arguments they are the three flags alone. *)
Theorem newDeployment_args info namespace config :
  ∃ c,
    uiplugin.Containers (podOf (uiplugin.newDeployment info namespace config))
      = [c]
    ∧ uiplugin.c_Args c
      = [ "-port=9443"; "-cert=/var/serving-cert/tls.crt";
          "-key=/var/serving-cert/tls.key" ] ++ uiplugin.info_ExtraArgs info.
Proof.
  deployment_cases info config.
  all: eexists; (split; [reflexivity|]).
  all: cbn [uiplugin.c_Args].
  all: change (uiplugin.Sprintf_d uiplugin.port) with "9443".
  all: destruct (uiplugin.info_ExtraArgs info); reflexivity.
Qed.

(** The pod template is annotated with the digest of the config map when
    there is one, and not annotated when there is none; so a config map
    that differs in one byte of one value gives a deployment with another
    pod template. *)
Theorem newDeployment_config_hash info namespace config :
  podAnnotationsOf (uiplugin.newDeployment info namespace config)
  = match uiplugin.info_ConfigMap info with
    | None => ∅
    | Some cm =>
        {[ "observability.openshift.io/ui-plugin-config-hash"
             := computeConfigMapHash cm ]}
    end
  ∧ (∀ m k pre c c' post,
       uiplugin.info_ConfigMap info = Some {| Data := m |} →
       m !! k = Some (pre +:+ String c post) →
       c ≠ c' →
       uiplugin.Template
         (uiplugin.dep_Spec (uiplugin.newDeployment info namespace config))
       ≠ uiplugin.Template
           (uiplugin.dep_Spec
              (uiplugin.newDeployment
                 (withConfigMap
                    (Some {| Data := <[k := pre +:+ String c' post]> m |}) info)
                 namespace config))).
Proof.
  assert (Hann : ∀ info',
            podAnnotationsOf (uiplugin.newDeployment info' namespace config)
            = match uiplugin.info_ConfigMap info' with
              | None => ∅
              | Some cm =>
                  {[ "observability.openshift.io/ui-plugin-config-hash"
                       := computeConfigMapHash cm ]}
              end).
  { intros info'. deployment_cases info' config; reflexivity. }
  split; [apply Hann|].
  intros m k pre c c' post Hcm Hk Hne Heq.
  pose proof (Hann info) as H1.
  pose proof (Hann (withConfigMap
                      (Some {| Data := <[k := pre +:+ String c' post]> m |})
                      info)) as H2.
  unfold podAnnotationsOf in H1, H2. rewrite <- Heq, H1 in H2.
  rewrite Hcm in H2. cbn [withConfigMap uiplugin.info_ConfigMap] in H2.
  apply (f_equal (λ a : gmap string string,
                    a !! "observability.openshift.io/ui-plugin-config-hash"))
    in H2.
  rewrite !lookup_singleton_eq in H2. apply (inj Some) in H2.
  by apply (computeConfigMapHash_byte m k pre c c' post).
Qed.

Lemma newDeployment_config_hash_witness :
  uiplugin.Template
    (uiplugin.dep_Spec (uiplugin.newDeployment someInfo "observability" None))
  ≠ uiplugin.Template
      (uiplugin.dep_Spec
         (uiplugin.newDeployment
            (withConfigMap (Some {| Data := <["b" := "3"]> (Data cmAB) |})
               someInfo)
            "observability" None)).
Proof.
  apply (proj2 (newDeployment_config_hash someInfo "observability" None)
           (Data cmAB) "b" "" "2"%char "3"%char "").
  - reflexivity.
  - compute_done.
  - discriminate.
Defined.

(** The node selector of the pod is the one of the plugin's deployment
    configuration when it gives one, taken as it is (the default is not
    merged into it), and the default, linux nodes, otherwise; the
    tolerations are the configuration's, none without a configuration. *)
Theorem newDeployment_node_selector info namespace config :
  uiplugin.NodeSelector (podOf (uiplugin.newDeployment info namespace config))
  = match config with
    | Some {| uiplugin.cfg_NodeSelector := Some nodeSelector |} => nodeSelector
    | _ => {[ "kubernetes.io/os" := "linux" ]}
    end
  ∧ uiplugin.Tolerations
      (podOf (uiplugin.newDeployment info namespace config))
    = match config with
      | Some config => uiplugin.cfg_Tolerations config
      | None => []
      end.
Proof.
  unfold podOf, uiplugin.newDeployment.
  destruct (uiplugin.info_ConfigMap info) as [cm|];
    destruct config as [[[sel|] tol]|]; split; reflexivity.
Qed.

(** The objects built for one plugin refer to each other: the service
    selects the pods by the labels the pod template carries, which are the
    selector of the deployment; the pod runs as the service account that
    is created; service, container and console plugin agree on port 9443;
    the console plugin points at the service; and the secret the service
    asks the serving certificate to be put in is the secret the pod
    mounts. *)
Theorem components_agree info namespace config :
  let d := uiplugin.newDeployment info namespace config in
  let s := uiplugin.newService info namespace in
  let p := uiplugin.newConsolePlugin info namespace in
  let a := uiplugin.newServiceAccount info namespace in
  uiplugin.svc_Selector s
    = uiplugin.Labels (uiplugin.tpl_ObjectMeta
                         (uiplugin.Template (uiplugin.dep_Spec d)))
  ∧ uiplugin.Selector (uiplugin.dep_Spec d)
    = Some {| metav1.MatchLabels := uiplugin.svc_Selector s |}
  ∧ uiplugin.ServiceAccountName (podOf d)
    = uiplugin.Name (uiplugin.sa_ObjectMeta a)
  ∧ uiplugin.Namespace (uiplugin.sa_ObjectMeta a)
    = uiplugin.Namespace (uiplugin.dep_ObjectMeta d)
  ∧ uiplugin.sp_Port <$> uiplugin.svc_Ports s = [9443%Z]
  ∧ uiplugin.sp_TargetPort <$> uiplugin.svc_Ports s
    = [integreatlyv1alpha1.FromInt 9443]
  ∧ (uiplugin.Containers (podOf d)
       ≫= λ c, uiplugin.port_ContainerPort <$> uiplugin.c_Ports c) = [9443%Z]
  ∧ uiplugin.cps_Port (uiplugin.cp_Service p) = 9443%Z
  ∧ uiplugin.cps_Name (uiplugin.cp_Service p)
    = uiplugin.Name (uiplugin.svc_ObjectMeta s)
  ∧ uiplugin.cps_Namespace (uiplugin.cp_Service p)
    = uiplugin.Namespace (uiplugin.svc_ObjectMeta s)
  ∧ uiplugin.Annotations (uiplugin.svc_ObjectMeta s)
      !! "service.alpha.openshift.io/serving-cert-secret-name"
    = Some (uiplugin.info_Name info)
  ∧ head (uiplugin.Volumes (podOf d))
    = Some {| uiplugin.vol_Name := "serving-cert";
              uiplugin.vol_Source :=
                uiplugin.SecretVolumeSource (uiplugin.info_Name info)
                  (Some 420%Z) |}.
Proof.
  intros d s p a. subst d s p a.
  split; [|split; [|split; [|split]]];
    [deployment_cases info config; reflexivity ..|].
  split; [reflexivity|]. split; [reflexivity|].
  split; [deployment_cases info config; reflexivity|].
  split; [reflexivity|]. split; [reflexivity|]. split; [reflexivity|].
  split; [apply lookup_singleton_eq|].
  deployment_cases info config; reflexivity.
Qed.

Lemma appendNonNil_filter {A} (wrap : option A → uiplugin.Resource) plugin
    components (xs : list (option A)) :
  uiplugin.appendNonNil wrap plugin components xs
  = components
    ++ ((λ x, uiplugin.NewUpdater (wrap x) plugin)
          <$> filter (λ x, is_Some x) xs).
Proof.
  revert components. induction xs as [|[x|] xs IH]; intros components;
    cbn [uiplugin.appendNonNil].
  - by rewrite app_nil_r.
  - rewrite IH, filter_cons_True by (by eexists).
    by rewrite <- app_assoc.
  - rewrite IH, filter_cons_False; [done|]. by intros [? ?].
Qed.

(** The components of a plugin are: the service account, the deployment,
    the service and the console plugin, in this order; then the role, the
    role binding and the config map, each if given; then the cluster roles
    and the cluster role bindings that are given, in their order, nil
    entries skipped.  No component is built around a nil resource, and
    every component is owned by the plugin. *)
Theorem pluginComponentReconcilers_components plugin info :
  uiplugin.pluginComponentReconcilers plugin info
  = ((λ r, uiplugin.NewUpdater r plugin)
       <$> [ uiplugin.ResServiceAccount
               (uiplugin.newServiceAccount info
                  (uiplugin.info_ResourceNamespace info));
             uiplugin.ResDeployment
               (uiplugin.newDeployment info
                  (uiplugin.info_ResourceNamespace info)
                  (uiplugin.pl_Deployment plugin));
             uiplugin.ResService
               (uiplugin.newService info
                  (uiplugin.info_ResourceNamespace info));
             uiplugin.ResConsolePlugin
               (uiplugin.newConsolePlugin info
                  (uiplugin.info_ResourceNamespace info)) ]
           ++ (uiplugin.ResRole
                 <$> filter (λ x, is_Some x) [uiplugin.info_Role info])
           ++ (uiplugin.ResRoleBinding
                 <$> filter (λ x, is_Some x) [uiplugin.info_RoleBinding info])
           ++ (uiplugin.ResConfigMap
                 <$> filter (λ x, is_Some x) [uiplugin.info_ConfigMap info])
           ++ (uiplugin.ResClusterRole
                 <$> filter (λ x, is_Some x) (uiplugin.info_ClusterRoles info))
           ++ (uiplugin.ResClusterRoleBinding
                 <$> filter (λ x, is_Some x)
                       (uiplugin.info_ClusterRoleBindings info)))
  ∧ Forall (λ u, uiplugin.isNil (uiplugin.resource u) = false
                 ∧ uiplugin.owner u = plugin)
      (uiplugin.pluginComponentReconcilers plugin info)
  ∧ (4 ≤ length (uiplugin.pluginComponentReconcilers plugin info))%nat.
Proof.
  set (spec := (_ <$> _ : list uiplugin.Updater)).
  assert (Hshape : uiplugin.pluginComponentReconcilers plugin info = spec).
  { subst spec. unfold uiplugin.pluginComponentReconcilers. cbv zeta.
    rewrite !appendNonNil_filter.
    unfold uiplugin.newRole, uiplugin.newRoleBinding.
    rewrite !fmap_app, <- !list_fmap_compose.
    destruct (uiplugin.info_Role info), (uiplugin.info_RoleBinding info),
      (uiplugin.info_ConfigMap info);
      rewrite ?filter_cons_True, ?filter_cons_False, ?filter_nil
        by (first [by eexists | by intros [? ?]]);
      cbn [fmap list_fmap app compose]; by rewrite <- ?app_assoc. }
  split; [exact Hshape|]. rewrite Hshape. subst spec. split.
  - apply Forall_fmap.
    repeat (apply Forall_app_2);
      try (by repeat constructor);
      apply Forall_fmap, Forall_forall; intros x [Hx _]%list_elem_of_filter;
      by destruct Hx as [? ->].
  - rewrite length_fmap, !length_app. simpl. lia.
Qed.
